(** * sqlc-gen-typescript: a shallow embedding of the driver codegen engine

    The development follows the TypeScript sources:
    - [app.ts] (enum catalog builder, per-file assembly, [printNode]),
    - [validate.ts] ([assertUniqueNames]),
    - [drivers/postgres.ts] in its tagged-template form (module functions
      [columnType], [buildTaggedTemplate], [oneDecl], ...),
    - [drivers/postgres.ts] in its class form (object rows, [sql.unsafe]),
    - [drivers/postgres-common.ts] (positional rows, [Number()] narrowing),
    - [drivers/bun-sqlite.ts].

    JavaScript strings are modelled as Rocq strings (sequences of bytes);
    on ASCII strings the bytes are the characters, and the case
    conversions of the model, which act on the ASCII letters, are those
    of JavaScript; on other strings they are not, and the statements
    that depend on the case of a character say so.  The numbers the
    rewriter computes with are doubles: integers are rounded from 2^53
    on and printed as [Number::toString] prints them.  Syntax trees
    built with the TypeScript [factory] are modelled by inductive types
    whose constructors are named after the factory functions; a numeric
    literal is kept as the integer it denotes. *)

From Stdlib Require Import ZArith Ascii.
From Stdlib Require Import DecimalString DecimalPos.
From stdpp Require Import gmap strings list sorting.

Set Warnings "-register-all".

Local Open Scope string_scope.
Local Open Scope list_scope.

(** ** JavaScript string primitives *)

Module Js.

(** Case conversion, character by character.  It agrees with
    [String.prototype.toLowerCase] and [toUpperCase] on ASCII strings
    only: the letters [A-Z] and [a-z] are mapped and every other byte is
    kept, where JavaScript also maps the letters beyond ASCII. *)
Definition lowerChar (c : ascii) : ascii :=
  let n := nat_of_ascii c in
  if (65 <=? n)%nat && (n <=? 90)%nat then ascii_of_nat (n + 32) else c.

Definition upperChar (c : ascii) : ascii :=
  let n := nat_of_ascii c in
  if (97 <=? n)%nat && (n <=? 122)%nat then ascii_of_nat (n - 32) else c.

Fixpoint toLowerCase (s : string) : string :=
  match s with
  | EmptyString => EmptyString
  | String c r => String (lowerChar c) (toLowerCase r)
  end.

Fixpoint toUpperCase (s : string) : string :=
  match s with
  | EmptyString => EmptyString
  | String c r => String (upperChar c) (toUpperCase r)
  end.

(** [s.startsWith(p)] *)
Definition startsWith (s p : string) : bool := String.prefix p s.

(** [s.slice(n)] for [0 <= n] *)
Fixpoint sliceFrom (n : nat) (s : string) : string :=
  match n, s with
  | O, _ => s
  | S n', String _ r => sliceFrom n' r
  | S _, EmptyString => EmptyString
  end.

(** [s.slice(0, n)] for [0 <= n] *)
Fixpoint sliceTo (n : nat) (s : string) : string :=
  match n, s with
  | S n', String c r => String c (sliceTo n' r)
  | _, _ => EmptyString
  end.

(** [s.slice(a, b)] for [0 <= a], [0 <= b] *)
Definition slice (a b : nat) (s : string) : string :=
  sliceTo (b - a) (sliceFrom a s).

(** [s.charAt(0)] *)
Definition charAt0 (s : string) : string :=
  match s with
  | EmptyString => EmptyString
  | String c _ => String c EmptyString
  end.

(** [s.includes(sub)] *)
Fixpoint includes (s sub : string) : bool :=
  String.prefix sub s ||
  match s with
  | EmptyString => false
  | String _ r => includes r sub
  end.

(** [s.replace(pat, rep)] with a string pattern: only the first
    occurrence is replaced.  The replacement text is taken literally
    (the sources only ever pass ["_"]). *)
Fixpoint replace (s pat rep : string) : string :=
  if String.prefix pat s then rep +:+ sliceFrom (String.length pat) s
  else match s with
       | EmptyString => EmptyString
       | String c r => String c (replace r pat rep)
       end.

(** [l.join(sep)] *)
Definition join (sep : string) (l : list string) : string :=
  String.concat sep l.

(** [s.split(c)] for a one-character separator *)
Fixpoint split (c : ascii) (s : string) : list string :=
  match s with
  | EmptyString => [EmptyString]
  | String a r =>
      if Ascii.eqb a c then EmptyString :: split c r
      else match split c r with
           | [] => [String a EmptyString]
           | w :: ws => String a w :: ws
           end
  end.

Definition isDigit (c : ascii) : bool :=
  let n := nat_of_ascii c in (48 <=? n)%nat && (n <=? 57)%nat.

(** The integer that a run of decimal digits denotes. *)
Definition parseIntFrom (acc : Z) (s : string) : Z :=
  fold_left (fun a c => (10 * a + Z.of_nat (nat_of_ascii c - 48))%Z)
            (String.list_ascii_of_string s) acc.

(** The numbers the sources compute with: integers that a double
    holds, and the two infinities. *)
Inductive Num : Type :=
| Int (z : Z)
| PosInfinity
| NegInfinity.

(** The double nearest to a non-negative integer, as an integer: exact
    below 2^53; from there on 53 significant bits are kept, rounding to
    nearest, a tie going to the even significand. *)
Definition roundNat (n : Z) : Z :=
  if (n <? 2 ^ 53)%Z then n
  else
    let e := (Z.log2 n - 52)%Z in
    let q := Z.shiftr n e in
    let r := (n - Z.shiftl q e)%Z in
    let half := Z.shiftl 1 (e - 1) in
    let q' := if (half <? r)%Z || ((r =? half)%Z && Z.odd q) then (q + 1)%Z else q in
    Z.shiftl q' e.

(** The Number value for an integer: what rounds to 2^1024 or beyond
    is an infinity. *)
Definition toNumber (z : Z) : Num :=
  if (Z.abs z <? 2 ^ 53)%Z then Int z
  else
    let m := roundNat (Z.abs z) in
    if (2 ^ 1024 <=? m)%Z then (if (z <? 0)%Z then NegInfinity else PosInfinity)
    else Int (if (z <? 0)%Z then (- m)%Z else m).

(** [parseInt(digits, 10)] on a non-empty run of decimal digits: the
    Number value for the integer the digits denote. *)
Definition parseInt (s : string) : Num := toNumber (parseIntFrom 0 s).

(** [x - y] for an integer [y]. *)
Definition sub (x : Num) (y : Z) : Num :=
  match x with
  | Int z => toNumber (z - y)
  | PosInfinity => PosInfinity
  | NegInfinity => NegInfinity
  end.

(** A non-negative integer Number as an index. *)
Definition toNat (x : Num) : nat :=
  match x with
  | Int z => Z.to_nat z
  | _ => 0%nat
  end.

(** The one-character string made of a double quote. *)
Definition dquote : string := String (ascii_of_nat 34) EmptyString.

(** An integer in decimal digits, with a minus sign when negative. *)
Definition decimal (z : Z) : string :=
  NilZero.string_of_int (Z.to_int z).

Definition digitsLength (z : Z) : Z := Z.of_nat (String.length (decimal z)).

(** Number::toString, step 5, for a double [z] of [n] decimal digits:
    the integers with [k] significant digits whose Number value is [z];
    of two, the one closer to [z]. *)
Definition candidate (z n k : Z) : option Z :=
  let p := (10 ^ (n - k))%Z in
  let lo := (z / p)%Z in
  let c1 := (lo * p)%Z in
  let c2 := ((lo + 1) * p)%Z in
  let v1 := (roundNat c1 =? z)%Z in
  let v2 := (roundNat c2 =? z)%Z in
  if v1 && v2 then Some (if (z - c1 <=? c2 - z)%Z then c1 else c2)
  else if v1 then Some c1
  else if v2 then Some c2
  else None.

(** The candidate with the fewest significant digits, [k] upwards. *)
Fixpoint shortestFrom (fuel : nat) (z n k : Z) : Z :=
  match fuel with
  | O => z
  | S f =>
      match candidate z n k with
      | Some c => c
      | None => shortestFrom f z n (k + 1)
      end
  end.

(** Seventeen significant digits tell any double from its neighbours. *)
Definition shortest (z : Z) : Z := shortestFrom 17 z (digitsLength z) 1.

Fixpoint dropLeadingZeros (s : list ascii) : list ascii :=
  match s with
  | "0"%char :: r => dropLeadingZeros r
  | _ => s
  end.

(** The digits of a decimal numeral without its trailing zeros. *)
Definition significand (s : string) : string :=
  String.string_of_list_ascii
    (rev (dropLeadingZeros (rev (String.list_ascii_of_string s)))).

(** [d.ddde+x]: the form Number::toString takes from 10^21 on. *)
Definition exponential (c : Z) : string :=
  let d := decimal c in
  let e := decimal (digitsLength c - 1) in
  match significand d with
  | EmptyString => d
  | String first EmptyString => String first ("e+" +:+ e)
  | String first rest => String first ("." +:+ rest +:+ "e+" +:+ e)
  end.

(** Number::toString for a non-negative double with an integer value. *)
Definition naturalToString (z : Z) : string :=
  if (z <? 2 ^ 53)%Z then decimal z
  else
    let c := shortest z in
    if (digitsLength c <=? 21)%Z then decimal c else exponential c.

(** Number::toString, as a template literal applies it. *)
Definition numberToString (x : Num) : string :=
  match x with
  | Int z => if (z <? 0)%Z then "-" +:+ naturalToString (- z) else naturalToString z
  | PosInfinity => "Infinity"
  | NegInfinity => "-Infinity"
  end.

(** The string form of the Number value for an integer. *)
Definition numToString (z : Z) : string := numberToString (toNumber z).

End Js.

(** ** Exceptions *)

Inductive exn : Type :=
| JsError (message : string)
| JsTypeError (message : string).

(** [err instanceof Error ? err.message : String(err)]: both kinds are
    instances of [Error]. *)
Definition exnMessage (e : exn) : string :=
  match e with
  | JsError m => m
  | JsTypeError m => m
  end.

Inductive result (A : Type) : Type :=
| Ok (a : A)
| Throw (e : exn).

Arguments Ok {A} a.
Arguments Throw {A} e.

Global Instance result_ret : MRet result := fun A a => Ok a.

Global Instance result_bind : MBind result := fun A B k r =>
  match r with
  | Ok a => k a
  | Throw e => Throw e
  end.

(** [try { body } catch (err) { throw handler(err) }] *)
Definition tryCatch {A : Type} (body : result A) (handler : exn -> exn) : result A :=
  match body with
  | Ok a => Ok a
  | Throw e => Throw (handler e)
  end.

Section MapM.

Context {A B : Type}.
Variable f : A -> result B.

(** [xs.map(f)] where [f] may throw: elements are visited left to
    right and the first exception escapes. *)
Fixpoint mapM (l : list A) : result (list B) :=
  match l with
  | [] => Ok []
  | x :: r => y ← f x; ys ← mapM r; Ok (y :: ys)
  end.

End MapM.

(** [xs.map((x, i) => f(i, x))] *)
Fixpoint mapi_from {A B : Type} (i : nat) (f : nat -> A -> B) (l : list A) : list B :=
  match l with
  | [] => []
  | x :: r => f i x :: mapi_from (S i) f r
  end.

Definition mapi {A B : Type} (f : nat -> A -> B) (l : list A) : list B :=
  mapi_from 0 f l.

(** ** The request data model ([gen/plugin/codegen_pb]) *)

Record Identifier : Type := mkIdentifier {
  id_catalog : string;
  id_schema : string;
  id_name : string
}.

Record Column : Type := mkColumn {
  col_name : string;
  col_notNull : bool;
  col_isArray : bool;
  col_arrayDims : Z;
  col_type : option Identifier
}.

Record QueryParameter : Type := mkParameter {
  param_number : Z;
  param_column : option Column
}.

Record Query : Type := mkQuery {
  q_text : string;
  q_name : string;
  q_cmd : string;
  q_columns : list Column;
  q_params : list QueryParameter;
  q_filename : string
}.

Record Enum : Type := mkEnum {
  enum_name : string;
  enum_vals : list string
}.

Record Schema : Type := mkSchema {
  schema_name : string;
  schema_enums : list Enum
}.

Record Catalog : Type := mkCatalog {
  cat_defaultSchema : string;
  cat_schemas : list Schema
}.

Record GenerateRequest : Type := mkRequest {
  req_catalog : option Catalog;
  req_queries : list Query
}.

Global Instance Enum_eq_dec : EqDecision Enum.
Proof. solve_decision. Defined.

(** ** Syntax trees built by the TypeScript [factory] *)

Inductive Keyword : Type :=
| AnyKeyword | StringKeyword | NumberKeyword | BooleanKeyword | VoidKeyword.

Inductive TypeNode : Type :=
| KeywordTypeNode (k : Keyword)
| TypeReferenceNode (name : string) (typeArguments : list TypeNode)
| ArrayTypeNode (elementType : TypeNode)
| UnionTypeNode (types : list TypeNode)
| LiteralTypeNull
| LiteralTypeString (text : string).

Inductive BinaryOperator : Type :=
| ExclamationEqualsEqualsToken
| EqualsEqualsEqualsToken
| QuestionQuestionToken.

Inductive SpanLiteral : Type :=
| TemplateMiddle (text : string)
| TemplateTail (text : string).

(** Template literals.  The sources hand every fragment to the factory
    twice, as [text] and as [rawText], and always the same string; the
    model keeps it once.  The printer writes the raw text between
    backticks as it is, so the printed literal denotes the fragment only
    when the fragment holds no backtick, no backslash and no [${]. *)
Inductive TemplateLiteral (E : Type) : Type :=
| NoSubstitutionTemplateLiteral (text : string)
| TemplateExpression (head : string) (spans : list (E * SpanLiteral)).

Arguments NoSubstitutionTemplateLiteral {E} text.
Arguments TemplateExpression {E} head spans.

Inductive Expr : Type :=
| IdentifierExpr (name : string)
| NullLiteral
| NumericLiteral (value : Z)
| PropertyAccessExpression (object : Expr) (name : string)
| ElementAccessExpression (object : Expr) (index : Expr)
| CallExpression (callee : Expr) (arguments : list Expr)
| AwaitExpression (e : Expr)
| AsExpression (e : Expr) (type : TypeNode)
| ParenthesizedExpression (e : Expr)
| BinaryExpression (left : Expr) (op : BinaryOperator) (right : Expr)
| PrefixUnaryExclamation (operand : Expr)
| ConditionalExpression (condition whenTrue whenFalse : Expr)
| ObjectLiteralExpression (properties : list (string * Expr))
| ArrayLiteralExpression (elements : list Expr)
| TaggedTemplateExpression (tag : Expr) (typeArguments : list TypeNode)
                           (template : TemplateLiteral Expr).

Inductive NodeFlag : Type :=
| Const | AwaitContext | ContextFlags | TypeExcludesFlags.

Inductive Stmt : Type :=
| VariableStatement (name : string) (initializer : Expr) (flags : list NodeFlag)
| IfStatement (condition : Expr) (thenStatement : list Stmt)
| ReturnStatement (e : Expr)
| ExpressionStatement (e : Expr).

(** [export async function name(parameters): type { body }] *)
Record FunctionDecl : Type := mkFunctionDecl {
  fn_name : string;
  fn_parameters : list (string * TypeNode);
  fn_type : TypeNode;
  fn_body : list Stmt
}.

Inductive Node : Type :=
| ImportDeclaration (isTypeOnly : bool) (propertyName : option string)
                    (name : string) (moduleSpecifier : string)
| InterfaceDeclaration (name : string) (members : list (string * TypeNode))
| TypeAliasDeclaration (name : string) (type : TypeNode)
| FunctionDeclaration (f : FunctionDecl).

(** [receiver.map((parameter: type) => body)], the one place where the
    emitted code uses an arrow function. *)
Record MapCall : Type := mkMapCall {
  map_receiver : Expr;
  map_parameter : string;
  map_parameterType : option TypeNode;
  map_body : Expr
}.

(** [export async function name(parameters): type { body; return <map call> }] *)
Record MappingFunctionDecl : Type := mkMappingFunctionDecl {
  mfn_name : string;
  mfn_parameters : list (string * TypeNode);
  mfn_type : TypeNode;
  mfn_body : list Stmt;
  mfn_return : MapCall
}.

(** ** Pieces of [columnType] shared by the PostgreSQL drivers *)

Definition oneOf (s : string) (l : list string) : bool :=
  existsb (String.eqb s) l.

Definition pgCatalog : string := "pg_catalog.".

(** [if (typeName.startsWith(pgCatalog)) typeName = typeName.slice(pgCatalog.length)] *)
Definition stripPgCatalog (typeName : string) : string :=
  if Js.startsWith typeName pgCatalog
  then Js.sliceFrom (String.length pgCatalog) typeName
  else typeName.

(** [if (column.isArray || column.arrayDims > 0) { dims = Math.max(column.arrayDims || 1); for (i < dims) typ = Array(typ) }] *)
Definition arrayWrap (column : Column) (typ : TypeNode) : TypeNode :=
  if col_isArray column || (0 <? col_arrayDims column)%Z then
    let dims := if (col_arrayDims column =? 0)%Z then 1%Z else col_arrayDims column in
    Nat.iter (Z.to_nat dims) ArrayTypeNode typ
  else typ.

(** [if (column.notNull) return typ; return Union([typ, null])] *)
Definition nullWrap (column : Column) (typ : TypeNode) : TypeNode :=
  if col_notNull column then typ
  else UnionTypeNode [typ; LiteralTypeNull].

(** Convert snake_case to PascalCase.  As the case conversions it is
    built from, it is the source's function on ASCII names. *)
Definition pascalCase (str : string) : string :=
  Js.join EmptyString
    (map (fun part => Js.toUpperCase (Js.charAt0 part) +:+ Js.toLowerCase (Js.sliceFrom 1 part))
         (Js.split "_" str)).

(** ** [drivers/postgres-common.ts] (shared by the Bun SQL and postgres.js
    class drivers; rows arrive as positional tuples) *)

Module PostgresCommon.

Definition booleanTypes : list string := ["bool"; "boolean"].

Definition dateTypes : list string :=
  ["date"; "timestamp"; "timestamp without time zone"; "timestamptz";
   "timestamp with time zone"].

Definition numberTypes : list string :=
  ["bigserial"; "float4"; "real"; "float8"; "float"; "double precision";
   "int2"; "smallint"; "int4"; "int"; "integer"; "int8"; "bigint"; "oid";
   "serial"; "serial2"; "serial4"; "serial8"; "smallserial"].

Definition anyTypes : list string := ["json"; "jsonb"].

Definition stringTypes : list string :=
  ["aclitem"; "bit"; "box"; "bpchar"; "cid"; "cidr"; "circle"; "inet";
   "interval"; "numeric"; "decimal"; "line"; "lseg"; "madaddr"; "madaddr8";
   "money"; "path"; "pg_node_tree"; "pg_snapshot"; "point"; "polygon";
   "regproc"; "regrole"; "tid"; "text"; "character varying"; "character";
   "time"; "timetz"; "tsquery"; "tsvector"; "txid_snapshot"; "uuid";
   "varbit"; "varchar"; "xid"; "xml"].

(** The [switch (typeName)] of [columnType]; [typ] starts as [string]. *)
Definition baseType (typeName : string) : TypeNode :=
  if oneOf typeName stringTypes then KeywordTypeNode StringKeyword
  else if oneOf typeName numberTypes then KeywordTypeNode NumberKeyword
  else if oneOf typeName booleanTypes then KeywordTypeNode BooleanKeyword
  else if String.eqb typeName "bytea" then TypeReferenceNode "Buffer" []
  else if oneOf typeName dateTypes then TypeReferenceNode "Date" []
  else if oneOf typeName anyTypes then KeywordTypeNode AnyKeyword
  else KeywordTypeNode AnyKeyword.

Definition columnType (column : option Column) : TypeNode :=
  match column with
  | None => KeywordTypeNode AnyKeyword
  | Some c =>
      match col_type c with
      | None => KeywordTypeNode AnyKeyword
      | Some ty =>
          let typeName := Js.toLowerCase (stripPgCatalog (id_name ty)) in
          nullWrap c (arrayWrap c (baseType typeName))
      end
  end.

(** PostgreSQL types that Bun SQL returns as strings but we want as numbers. *)
Definition BIGINT_TYPES : list string := ["int8"; "bigint"; "bigserial"; "serial8"].

Definition isBigIntType (column : option Column) : bool :=
  match column with
  | None => false
  | Some c =>
      match col_type c with
      | None => false
      | Some ty =>
          if String.eqb (id_name ty) EmptyString then false
          else oneOf (Js.toLowerCase (stripPgCatalog (id_name ty))) BIGINT_TYPES
      end
  end.

(** [row[index]], with [Number()] conversion for bigint types. *)
Definition createRowAccessExpression (col : Column) (index : nat) : Expr :=
  let rowAccess :=
    ElementAccessExpression (IdentifierExpr "row")
                            (NumericLiteral (Z.of_nat index)) in
  if negb (isBigIntType (Some col)) then rowAccess
  else
    let numberCall := CallExpression (IdentifierExpr "Number") [rowAccess] in
    if col_notNull col then numberCall
    else ConditionalExpression
           (BinaryExpression rowAccess EqualsEqualsEqualsToken NullLiteral)
           NullLiteral
           numberCall.

(** [iface && params.length > 0]: an empty interface name is falsy. *)
Definition funcParamsDecl (iface : option string) (params : list QueryParameter)
  : list (string * TypeNode) :=
  ("sql", TypeReferenceNode "SQL" []) ::
  match iface with
  | Some name =>
      if negb (String.eqb name EmptyString) && (0 <? length params)%nat
      then [("args", TypeReferenceNode name [])]
      else []
  | None => []
  end.

Definition execlastidDecl : result Node :=
  Throw (JsError "PostgreSQL drivers do not support :execlastid").

Section WithNames.

Variables argName colName : nat -> option Column -> string.

(** [params.map((param, i) => args.<argName(i, param.column)>)] *)
Definition argAccesses (params : list QueryParameter) : list Expr :=
  mapi (fun i param =>
          PropertyAccessExpression (IdentifierExpr "args")
                                   (argName i (param_column param)))
       params.

(** [{ <colName(i, col)>: createRowAccessExpression(col, i), ... }] *)
Definition rowObject (columns : list Column) : Expr :=
  ObjectLiteralExpression
    (mapi (fun i col => (colName i (Some col), createRowAccessExpression col i))
          columns).

Definition oneDecl (funcName queryName : string) (argIface : option string)
           (returnIface : string) (params : list QueryParameter)
           (columns : list Column) : Node :=
  FunctionDeclaration
    {| fn_name := funcName;
       fn_parameters := funcParamsDecl argIface params;
       fn_type :=
         TypeReferenceNode "Promise"
           [UnionTypeNode [TypeReferenceNode returnIface []; LiteralTypeNull]];
       fn_body :=
         [VariableStatement "rows"
            (AsExpression
               (AwaitExpression
                  (CallExpression
                     (PropertyAccessExpression
                        (CallExpression
                           (PropertyAccessExpression (IdentifierExpr "sql") "unsafe")
                           [IdentifierExpr queryName;
                            ArrayLiteralExpression (argAccesses params)])
                        "values")
                     []))
               (ArrayTypeNode (KeywordTypeNode AnyKeyword)))
            [Const; AwaitContext; ContextFlags; TypeExcludesFlags];
          IfStatement
            (BinaryExpression
               (PropertyAccessExpression (IdentifierExpr "rows") "length")
               ExclamationEqualsEqualsToken
               (NumericLiteral 1))
            [ReturnStatement NullLiteral];
          VariableStatement "row"
            (ElementAccessExpression (IdentifierExpr "rows") (NumericLiteral 0))
            [Const];
          IfStatement
            (PrefixUnaryExclamation (IdentifierExpr "row"))
            [ReturnStatement NullLiteral];
          ReturnStatement (rowObject columns)] |}.

(** Generate: [await sql.unsafe(query, [args...])] *)
Definition execDecl (funcName queryName : string) (argIface : option string)
           (params : list QueryParameter) : Node :=
  FunctionDeclaration
    {| fn_name := funcName;
       fn_parameters := funcParamsDecl argIface params;
       fn_type := TypeReferenceNode "Promise" [KeywordTypeNode VoidKeyword];
       fn_body :=
         [ExpressionStatement
            (AwaitExpression
               (CallExpression
                  (PropertyAccessExpression (IdentifierExpr "sql") "unsafe")
                  [IdentifierExpr queryName;
                   ArrayLiteralExpression (argAccesses params)]))] |}.

(** Generate:
      return (await sql.unsafe(query, [args...]).values() as any[])
        .map((row: any[]) => ({ ... })) *)
Definition manyDecl (funcName queryName : string) (argIface : option string)
           (returnIface : string) (params : list QueryParameter)
           (columns : list Column) : MappingFunctionDecl :=
  {| mfn_name := funcName;
     mfn_parameters := funcParamsDecl argIface params;
     mfn_type :=
       TypeReferenceNode "Promise" [ArrayTypeNode (TypeReferenceNode returnIface [])];
     mfn_body := [];
     mfn_return :=
       {| map_receiver :=
            ParenthesizedExpression
              (AsExpression
                 (AwaitExpression
                    (CallExpression
                       (PropertyAccessExpression
                          (CallExpression
                             (PropertyAccessExpression (IdentifierExpr "sql") "unsafe")
                             [IdentifierExpr queryName;
                              ArrayLiteralExpression (argAccesses params)])
                          "values")
                       []))
                 (ArrayTypeNode (KeywordTypeNode AnyKeyword)));
          map_parameter := "row";
          map_parameterType := Some (ArrayTypeNode (KeywordTypeNode AnyKeyword));
          map_body := rowObject columns |} |}.

End WithNames.

End PostgresCommon.

(** ** [drivers/bun-sqlite.ts] *)

Module BunSqlite.

Definition integerTypes : list string :=
  ["int"; "integer"; "tinyint"; "smallint"; "mediumint"; "bigint";
   "unsignedbigint"; "int2"; "int8"].

Definition textTypes : list string := ["varchar"; "text"].

Definition realTypes : list string := ["real"; "double"; "doubleprecision"; "float"].

Definition dateTypes : list string := ["date"; "datetime"].

Definition flagTypes : list string := ["boolean"; "bool"; "timestamp"].

(** The [switch (column.type.name.toLowerCase())]; [typ] starts as [any]. *)
Definition baseType (typeName : string) : TypeNode :=
  if oneOf typeName integerTypes then KeywordTypeNode NumberKeyword
  else if oneOf typeName textTypes then KeywordTypeNode StringKeyword
  else if String.eqb typeName "blob" then TypeReferenceNode "Buffer" []
  else if oneOf typeName realTypes then KeywordTypeNode NumberKeyword
  else if oneOf typeName dateTypes then KeywordTypeNode StringKeyword
  else if oneOf typeName flagTypes then KeywordTypeNode NumberKeyword
  else KeywordTypeNode AnyKeyword.

Definition columnType (column : option Column) : TypeNode :=
  match column with
  | None => KeywordTypeNode AnyKeyword
  | Some c =>
      match col_type c with
      | None => KeywordTypeNode AnyKeyword
      | Some ty => nullWrap c (baseType (Js.toLowerCase (id_name ty)))
      end
  end.

(** [iface && params.length > 0]: an empty interface name is falsy. *)
Definition funcParamsDecl (iface : option string) (params : list QueryParameter)
  : list (string * TypeNode) :=
  ("database", TypeReferenceNode "Database" []) ::
  match iface with
  | Some name =>
      if negb (String.eqb name EmptyString) && (0 <? length params)%nat
      then [("args", TypeReferenceNode name [])]
      else []
  | None => []
  end.

Definition execlastidDecl : result Node :=
  Throw (JsError "Bun sqlite driver currently does not support :execlastid").

Section WithNames.

Variables argName colName : nat -> option Column -> string.

Definition argAccesses (params : list QueryParameter) : list Expr :=
  mapi (fun i param =>
          PropertyAccessExpression (IdentifierExpr "args")
                                   (argName i (param_column param)))
       params.

(** [{ <colName(i, col)>: row[i] as <columnType(col)>, ... }] *)
Definition rowObject (columns : list Column) : Expr :=
  ObjectLiteralExpression
    (mapi (fun i col =>
             (colName i (Some col),
              AsExpression
                (ElementAccessExpression (IdentifierExpr "row")
                   (NumericLiteral (Z.of_nat i)))
                (columnType (Some col))))
          columns).

Definition oneDecl (funcName queryName : string) (argIface : option string)
           (returnIface : string) (params : list QueryParameter)
           (columns : list Column) : Node :=
  FunctionDeclaration
    {| fn_name := funcName;
       fn_parameters := funcParamsDecl argIface params;
       fn_type :=
         TypeReferenceNode "Promise"
           [UnionTypeNode [TypeReferenceNode returnIface []; LiteralTypeNull]];
       fn_body :=
         [VariableStatement "stmt"
            (CallExpression
               (PropertyAccessExpression (IdentifierExpr "database") "prepare")
               [IdentifierExpr queryName])
            [Const; TypeExcludesFlags];
          VariableStatement "rows"
            (CallExpression
               (PropertyAccessExpression (IdentifierExpr "stmt") "values")
               (argAccesses params))
            [Const; ContextFlags; TypeExcludesFlags];
          IfStatement
            (BinaryExpression
               (PropertyAccessExpression (IdentifierExpr "rows") "length")
               ExclamationEqualsEqualsToken
               (NumericLiteral 1))
            [ReturnStatement NullLiteral];
          VariableStatement "row"
            (ElementAccessExpression (IdentifierExpr "rows") (NumericLiteral 0))
            [Const];
          IfStatement
            (PrefixUnaryExclamation (IdentifierExpr "row"))
            [ReturnStatement NullLiteral];
          ReturnStatement (rowObject columns)] |}.

(** Generate:
      const stmt = database.prepare(query)
      const rows = stmt.values(args...)
      return rows.map((row) => ({ ... })) *)
Definition manyDecl (funcName queryName : string) (argIface : option string)
           (returnIface : string) (params : list QueryParameter)
           (columns : list Column) : MappingFunctionDecl :=
  {| mfn_name := funcName;
     mfn_parameters := funcParamsDecl argIface params;
     mfn_type :=
       TypeReferenceNode "Promise" [ArrayTypeNode (TypeReferenceNode returnIface [])];
     mfn_body :=
       [VariableStatement "stmt"
          (CallExpression
             (PropertyAccessExpression (IdentifierExpr "database") "prepare")
             [IdentifierExpr queryName])
          [Const; TypeExcludesFlags];
        VariableStatement "rows"
          (CallExpression
             (PropertyAccessExpression (IdentifierExpr "stmt") "values")
             (argAccesses params))
          [Const; ContextFlags; TypeExcludesFlags]];
     mfn_return :=
       {| map_receiver := IdentifierExpr "rows";
          map_parameter := "row";
          map_parameterType := None;
          map_body := rowObject columns |} |}.

End WithNames.

End BunSqlite.

(** ** [drivers/postgres.ts], class form: [sql.unsafe(query, [args])]
    returns objects keyed by column name, cast directly to the row type *)

Module PostgresJs.

(** The type table is the one of [PostgresCommon]. *)
Definition columnType (column : option Column) : TypeNode :=
  PostgresCommon.columnType column.

Definition funcParamsDecl := PostgresCommon.funcParamsDecl.

Definition execlastidDecl : result Node :=
  Throw (JsError "postgres driver does not support :execlastid").

Section WithNames.

Variable argName : nat -> option Column -> string.

(** Generate:
      const rows = await sql.unsafe(query, [args...]) as ReturnRow[]
      if (rows.length !== 1) return null
      return rows[0] ?? null *)
Definition oneDecl (funcName queryName : string) (argIface : option string)
           (returnIface : string) (params : list QueryParameter)
           (_columns : list Column) : Node :=
  FunctionDeclaration
    {| fn_name := funcName;
       fn_parameters := funcParamsDecl argIface params;
       fn_type :=
         TypeReferenceNode "Promise"
           [UnionTypeNode [TypeReferenceNode returnIface []; LiteralTypeNull]];
       fn_body :=
         [VariableStatement "rows"
            (AsExpression
               (AwaitExpression
                  (CallExpression
                     (PropertyAccessExpression (IdentifierExpr "sql") "unsafe")
                     [IdentifierExpr queryName;
                      ArrayLiteralExpression
                        (PostgresCommon.argAccesses argName params)]))
               (ArrayTypeNode (TypeReferenceNode returnIface [])))
            [Const];
          IfStatement
            (BinaryExpression
               (PropertyAccessExpression (IdentifierExpr "rows") "length")
               ExclamationEqualsEqualsToken
               (NumericLiteral 1))
            [ReturnStatement NullLiteral];
          ReturnStatement
            (BinaryExpression
               (ElementAccessExpression (IdentifierExpr "rows") (NumericLiteral 0))
               QuestionQuestionToken
               NullLiteral)] |}.

(** Generate: [await sql.unsafe(query, [args...])] *)
Definition execDecl (funcName queryName : string) (argIface : option string)
           (params : list QueryParameter) : Node :=
  FunctionDeclaration
    {| fn_name := funcName;
       fn_parameters := funcParamsDecl argIface params;
       fn_type := TypeReferenceNode "Promise" [KeywordTypeNode VoidKeyword];
       fn_body :=
         [ExpressionStatement
            (AwaitExpression
               (CallExpression
                  (PropertyAccessExpression (IdentifierExpr "sql") "unsafe")
                  [IdentifierExpr queryName;
                   ArrayLiteralExpression
                     (PostgresCommon.argAccesses argName params)]))] |}.

(** Generate: [return await sql.unsafe(query, [args...]) as ReturnRow[]] *)
Definition manyDecl (funcName queryName : string) (argIface : option string)
           (returnIface : string) (params : list QueryParameter)
           (_columns : list Column) : Node :=
  FunctionDeclaration
    {| fn_name := funcName;
       fn_parameters := funcParamsDecl argIface params;
       fn_type :=
         TypeReferenceNode "Promise" [ArrayTypeNode (TypeReferenceNode returnIface [])];
       fn_body :=
         [ReturnStatement
            (AsExpression
               (AwaitExpression
                  (CallExpression
                     (PropertyAccessExpression (IdentifierExpr "sql") "unsafe")
                     [IdentifierExpr queryName;
                      ArrayLiteralExpression
                        (PostgresCommon.argAccesses argName params)]))
               (ArrayTypeNode (TypeReferenceNode returnIface [])))] |}.

End WithNames.

End PostgresJs.

(** ** The regular expression [/\$(\d+)/g] *)

Record RegExpMatch : Type := mkMatch {
  m_index : nat;       (* match.index *)
  m_whole : string;    (* match[0] *)
  m_group : string     (* match[1] *)
}.

(** The longest run of decimal digits at the start of [s]. *)
Fixpoint takeDigits (s : string) : string :=
  match s with
  | EmptyString => EmptyString
  | String c r => if Js.isDigit c then String c (takeDigits r) else EmptyString
  end.

(** [s.matchAll(/\$(\d+)/g)], for the suffix [s] of the text that starts
    at offset [pos].  A match starts at a ["$"] that is followed by a
    digit and extends over all the digits that follow.  The search
    resumes after the match; as a digit is never a ["$"], resuming right
    after the ["$"] finds the same matches. *)
Fixpoint matchAllFrom (pos : nat) (s : string) : list RegExpMatch :=
  match s with
  | EmptyString => []
  | String c r =>
      let rest := matchAllFrom (S pos) r in
      if Ascii.eqb c "$" then
        match takeDigits r with
        | EmptyString => rest
        | ds => mkMatch pos (String "$" ds) ds :: rest
        end
      else rest
  end.

Definition matchAll (s : string) : list RegExpMatch := matchAllFrom 0 s.

(** ** [drivers/postgres.ts], tagged-template form (the driver [app.ts] uses) *)

Module PostgresTagged.

(** Check if a column type is an enum and return the enum name if so. *)
Definition getEnumName (enumMap : gmap string Enum) (column : option Column) : option string :=
  match column with
  | None => None
  | Some c =>
      match col_type c with
      | None => None
      | Some ty =>
          let typeName := Js.toLowerCase (id_name ty) in
          if bool_decide (is_Some (enumMap !! typeName)) then Some typeName else None
      end
  end.

Definition booleanTypes : list string := ["bool"; "boolean"].

Definition dateTypes : list string :=
  ["date"; "timestamp"; "timestamp without time zone"; "timestamptz";
   "timestamp with time zone"].

Definition numberTypes : list string :=
  ["float4"; "real"; "float8"; "float"; "double precision"; "int2";
   "smallint"; "int4"; "int"; "integer"; "int8"; "bigint"; "bigserial";
   "serial"; "serial2"; "serial4"; "serial8"; "smallserial"; "oid"].

Definition jsonTypes : list string := ["json"; "jsonb"].

Definition stringTypes : list string :=
  ["text"; "varchar"; "character varying"; "char"; "character"; "bpchar";
   "name"; "uuid"; "citext"; "inet"; "cidr"; "macaddr"; "macaddr8"; "money";
   "numeric"; "decimal"; "xml"; "bit"; "varbit"; "bit varying"; "interval";
   "time"; "time without time zone"; "timetz"; "time with time zone";
   "tsvector"; "tsquery"].

Definition geometricTypes : list string :=
  ["point"; "line"; "lseg"; "box"; "path"; "polygon"; "circle"].

Definition geometricMessage (originalTypeName : string) : string :=
  "Unrecognized PostgreSQL type: " +:+ Js.dquote +:+ originalTypeName +:+ Js.dquote +:+ ". " +:+
  "Please add support for this type in sqlc-gen-typescript/src/drivers/postgres.ts".

(** [column.name || "unknown"] *)
Definition nameOrUnknown (name : string) : string :=
  if String.eqb name EmptyString then "unknown" else name.

Definition unrecognizedMessage (originalTypeName columnName : string) : string :=
  "Unrecognized PostgreSQL type: " +:+ Js.dquote +:+ originalTypeName +:+ Js.dquote +:+
    " for column " +:+ Js.dquote +:+ nameOrUnknown columnName +:+ Js.dquote +:+ ". " +:+
  "This usually means sqlc couldn't infer the type. " +:+
  "Try adding an explicit cast like " +:+ Js.dquote +:+ "sqlc.arg(" +:+ columnName +:+
    ")::text" +:+ Js.dquote +:+ " or " +:+ Js.dquote +:+ "sqlc.narg('" +:+ columnName +:+
    "')" +:+ Js.dquote +:+ " in your query. " +:+
  "If this is a valid PostgreSQL type that needs support, please add it to sqlc-gen-typescript/src/drivers/postgres.ts".

(** The [switch (lowerTypeName)] of [columnType]. *)
Definition baseType (originalTypeName columnName lowerTypeName : string) : result TypeNode :=
  if oneOf lowerTypeName booleanTypes then Ok (KeywordTypeNode BooleanKeyword)
  else if String.eqb lowerTypeName "bytea" then Ok (TypeReferenceNode "Buffer" [])
  else if oneOf lowerTypeName dateTypes then Ok (TypeReferenceNode "Date" [])
  else if oneOf lowerTypeName numberTypes then Ok (KeywordTypeNode NumberKeyword)
  else if oneOf lowerTypeName jsonTypes then Ok (KeywordTypeNode AnyKeyword)
  else if String.eqb lowerTypeName "void" then Ok (KeywordTypeNode VoidKeyword)
  else if oneOf lowerTypeName stringTypes then Ok (KeywordTypeNode StringKeyword)
  else if oneOf lowerTypeName geometricTypes
    then Throw (JsError (geometricMessage originalTypeName))
  else Throw (JsError (unrecognizedMessage originalTypeName columnName)).

Definition columnType (enumMap : gmap string Enum) (column : option Column) : result TypeNode :=
  match column with
  | None => Ok (KeywordTypeNode AnyKeyword)
  | Some c =>
      match col_type c with
      | None => Ok (KeywordTypeNode AnyKeyword)
      | Some ty =>
          let originalTypeName := id_name ty in
          let lowerTypeName := Js.toLowerCase (stripPgCatalog originalTypeName) in
          if bool_decide (is_Some (enumMap !! lowerTypeName)) then
            let typ := TypeReferenceNode (pascalCase lowerTypeName) [] in
            Ok (nullWrap c (arrayWrap c typ))
          else
            typ ← baseType originalTypeName (col_name c) lowerTypeName;
            Ok (nullWrap c (arrayWrap c typ))
      end
  end.

Definition preamble : list Node :=
  [ImportDeclaration true None "Sql" "postgres"].

(** [iface && params.length > 0]: an empty interface name is falsy. *)
Definition funcParamsDecl (iface : option string) (params : list QueryParameter)
  : list (string * TypeNode) :=
  ("sql", TypeReferenceNode "Sql" []) ::
  match iface with
  | Some name =>
      if negb (String.eqb name EmptyString) && (0 <? length params)%nat
      then [("args", TypeReferenceNode name [])]
      else []
  | None => []
  end.

Definition execlastidDecl : result Node :=
  Throw (JsError "postgres driver does not support :execlastid").

(** Add a type argument to a tagged template expression. *)
Definition addTypeArgument (taggedTemplate : Expr) (typeName : string) (isArray : bool) : Expr :=
  let typeArg := TypeReferenceNode typeName [] in
  let typeArg := if isArray then ArrayTypeNode typeArg else typeArg in
  match taggedTemplate with
  | TaggedTemplateExpression tag _ template =>
      TaggedTemplateExpression tag [typeArg] template
  | other => other
  end.

Section WithNames.

Variable argName : nat -> option Column -> string.

(** [params[paramIndex]]: an array has an element at a non-negative
    integer below its length, and nowhere else. *)
Definition paramAt (params : list QueryParameter) (paramIndex : Js.Num)
  : option QueryParameter :=
  match paramIndex with
  | Js.Int z =>
      if (0 <=? z)%Z && (z <? Z.of_nat (length params))%Z
      then params !! Z.to_nat z
      else None
  | _ => None
  end.

(** [paramIndex = parseInt(match[1], 10) - 1; param = params[paramIndex];
     param ? args.<argName(paramIndex, param.column)> : args.<`arg${paramIndex}`>] *)
Definition boundExpression (params : list QueryParameter) (m : RegExpMatch) : Expr :=
  let paramIndex := Js.sub (Js.parseInt (m_group m)) 1 in
  match paramAt params paramIndex with
  | Some param =>
      PropertyAccessExpression (IdentifierExpr "args")
        (argName (Js.toNat paramIndex) (param_column param))
  | None =>
      PropertyAccessExpression (IdentifierExpr "args")
        ("arg" +:+ Js.numberToString paramIndex)
  end.

(** One iteration of [for (const match of queryText.matchAll(paramRegex))];
    the state is [(parts, expressions, lastIndex)]. *)
Definition scanStep (queryText : string) (params : list QueryParameter)
           (st : list string * list Expr * nat) (m : RegExpMatch)
  : list string * list Expr * nat :=
  let '(parts, expressions, lastIndex) := st in
  (parts ++ [Js.slice lastIndex (m_index m) queryText],
   expressions ++ [boundExpression params m],
   m_index m + String.length (m_whole m)).

(** The loop, followed by [parts.push(queryText.slice(lastIndex))]. *)
Definition scanTemplate (queryText : string) (params : list QueryParameter)
  : list string * list Expr :=
  let '(parts, expressions, lastIndex) :=
    fold_left (scanStep queryText params) (matchAll queryText) ([], [], 0) in
  (parts ++ [Js.sliceFrom lastIndex queryText], expressions).

(** Builds a tagged template literal from SQL text and parameters. *)
Definition buildTaggedTemplate (queryText : string) (params : list QueryParameter) : Expr :=
  let '(parts, expressions) := scanTemplate queryText params in
  let head := nth 0 parts EmptyString in
  let spans :=
    mapi (fun i expr =>
            let isLast := Nat.eqb i (length expressions - 1) in
            let text := nth (i + 1) parts EmptyString in
            (expr, if isLast then TemplateTail text else TemplateMiddle text))
         expressions in
  if Nat.eqb (length expressions) 0 then
    TaggedTemplateExpression (IdentifierExpr "sql") []
      (NoSubstitutionTemplateLiteral queryText)
  else
    TaggedTemplateExpression (IdentifierExpr "sql") []
      (TemplateExpression head spans).

Definition execDecl (funcName queryText : string) (argIface : option string)
           (params : list QueryParameter) : Node :=
  FunctionDeclaration
    {| fn_name := funcName;
       fn_parameters := funcParamsDecl argIface params;
       fn_type := TypeReferenceNode "Promise" [KeywordTypeNode VoidKeyword];
       fn_body :=
         [ExpressionStatement
            (AwaitExpression (buildTaggedTemplate queryText params))] |}.

Definition manyDecl (funcName queryText : string) (argIface : option string)
           (returnIface : string) (params : list QueryParameter)
           (_columns : list Column) : Node :=
  FunctionDeclaration
    {| fn_name := funcName;
       fn_parameters := funcParamsDecl argIface params;
       fn_type :=
         TypeReferenceNode "Promise" [ArrayTypeNode (TypeReferenceNode returnIface [])];
       fn_body :=
         [ReturnStatement
            (AwaitExpression
               (addTypeArgument (buildTaggedTemplate queryText params) returnIface true))] |}.

(** Generate:
      const rows = await sql<ReturnRow[]>`SELECT ...`
      return rows[0] ?? null *)
Definition oneDecl (funcName queryText : string) (argIface : option string)
           (returnIface : string) (params : list QueryParameter)
           (_columns : list Column) : Node :=
  FunctionDeclaration
    {| fn_name := funcName;
       fn_parameters := funcParamsDecl argIface params;
       fn_type :=
         TypeReferenceNode "Promise"
           [UnionTypeNode [TypeReferenceNode returnIface []; LiteralTypeNull]];
       fn_body :=
         [VariableStatement "rows"
            (AwaitExpression
               (addTypeArgument (buildTaggedTemplate queryText params) returnIface true))
            [Const];
          ReturnStatement
            (BinaryExpression
               (ElementAccessExpression (IdentifierExpr "rows") (NumericLiteral 0))
               QuestionQuestionToken
               NullLiteral)] |}.

End WithNames.

End PostgresTagged.

(** ** Insertion-ordered [Map] and [Set] of JavaScript, keyed by strings *)

Module JsMap.

Section Ops.
Context {V : Type}.

Fixpoint get (k : string) (m : list (string * V)) : option V :=
  match m with
  | [] => None
  | (k', v) :: r => if String.eqb k' k then Some v else get k r
  end.

Definition has (k : string) (m : list (string * V)) : bool :=
  match get k m with Some _ => true | None => false end.

(** [m.set(k, v)]: an existing key keeps its position. *)
Fixpoint set (k : string) (v : V) (m : list (string * V)) : list (string * V) :=
  match m with
  | [] => [(k, v)]
  | (k', v') :: r =>
      if String.eqb k' k then (k', v) :: r else (k', v') :: set k v r
  end.

End Ops.

(** [s.add(x)] on a [Set<string>] *)
Definition add (x : string) (s : list string) : list string :=
  if existsb (String.eqb x) s then s else s ++ [x].

End JsMap.

(** ** [validate.ts] *)

Definition newline : string := String (ascii_of_nat 10) EmptyString.

Definition NAMED_PARAMS_DOCS_URL : string :=
  "https://docs.sqlc.dev/en/latest/howto/named_parameters.html".

Inductive NameKind : Type := ArgumentKind | ColumnKind.

Definition kindText (k : NameKind) : string :=
  match k with
  | ArgumentKind => "argument"
  | ColumnKind => "column"
  end.

Record UniqueNamesOptions : Type := mkOptions {
  opt_kind : NameKind;
  opt_queryName : string;
  opt_fileName : string;
  opt_names : list string
}.

(** [for (const name of names) counts.set(name, (counts.get(name) ?? 0) + 1)] *)
Definition countNames (names : list string) : list (string * nat) :=
  fold_left (fun counts name => JsMap.set name (default 0 (JsMap.get name counts) + 1) counts)
            names [].

(** [[...counts.entries()].filter(([, count]) => count > 1).map(([name]) => name).sort()];
    the default sort compares strings by code units. *)
Definition duplicateNames (names : list string) : list string :=
  merge_sort String.le
    (map fst (List.filter (fun entry => (1 <? snd entry)%nat) (countNames names))).

Definition duplicateList (duplicates : list string) : string :=
  Js.join newline (map (fun d => "- " +:+ d) duplicates).

Definition remediation : string :=
  "Disambiguate using named parameters (sqlc.arg/sqlc.narg) or explicit column aliases.".

Definition ambiguousMessage (options : UniqueNamesOptions) (duplicates : list string) : string :=
  Js.join newline
    ["sqlc-gen-typescript: ambiguous " +:+ kindText (opt_kind options) +:+
       " names for query '" +:+ opt_queryName options +:+ "' (" +:+
       opt_fileName options +:+ ")";
     EmptyString;
     "The TypeScript generator produced duplicate identifier(s):";
     duplicateList duplicates;
     EmptyString;
     remediation;
     "Docs: " +:+ NAMED_PARAMS_DOCS_URL].

Definition assertUniqueNames (options : UniqueNamesOptions) : result unit :=
  let duplicates := duplicateNames (opt_names options) in
  if Nat.eqb (length duplicates) 0 then Ok tt
  else Throw (JsError (ambiguousMessage options duplicates)).

(** ** [app.ts] *)

Record File : Type := mkFile {
  file_name : string;
  file_contents : string
}.

Module App.

Definition isSystemSchema (name : string) : bool :=
  String.eqb name "pg_catalog" || String.eqb name "information_schema".

(** [input.catalog?.defaultSchema ?? "public"] *)
Definition defaultSchemaOf (input : GenerateRequest) : string :=
  match req_catalog input with
  | Some c => cat_defaultSchema c
  | None => "public"
  end.

(** [input.catalog?.schemas ?? []] *)
Definition schemasOf (input : GenerateRequest) : list Schema :=
  match req_catalog input with
  | Some c => cat_schemas c
  | None => []
  end.

(** The body of [for (const enumDef of schema.enums)]. *)
Definition registerEnum (defaultSchema schemaName : string)
           (enumMap : gmap string Enum) (enumDef : Enum) : gmap string Enum :=
  let enumMap := <[enum_name enumDef := enumDef]> enumMap in
  if negb (String.eqb schemaName defaultSchema)
  then <[schemaName +:+ "." +:+ enum_name enumDef := enumDef]> enumMap
  else enumMap.

(** The body of [for (const schema of ...)]. *)
Definition registerSchema (defaultSchema : string)
           (enumMap : gmap string Enum) (schema : Schema) : gmap string Enum :=
  if isSystemSchema (schema_name schema) then enumMap
  else fold_left (registerEnum defaultSchema (schema_name schema))
                 (schema_enums schema) enumMap.

(** Build a map of enum names to their values from the catalog. *)
Definition buildEnumMap (input : GenerateRequest) : gmap string Enum :=
  fold_left (registerSchema (defaultSchemaOf input)) (schemasOf input) ∅.

(** Generate TypeScript union type for an enum. *)
Definition enumTypeDecl (name : string) (enumDef : Enum) : Node :=
  TypeAliasDeclaration (pascalCase name)
    (UnionTypeNode (map LiteralTypeString (enum_vals enumDef))).

(** The body of [for (const query of input.queries)]:
    [if (!querymap.has(f)) querymap.set(f, []); querymap.get(f)?.push(query)] *)
Definition groupStep (querymap : list (string * list Query)) (query : Query)
  : list (string * list Query) :=
  let querymap :=
    if JsMap.has (q_filename query) querymap then querymap
    else JsMap.set (q_filename query) [] querymap in
  match JsMap.get (q_filename query) querymap with
  | Some qs => JsMap.set (q_filename query) (qs ++ [query]) querymap
  | None => querymap
  end.

(** [querymap]: queries grouped by filename, in first-seen order. *)
Definition groupQueries (queries : list Query) : list (string * list Query) :=
  fold_left groupStep queries [].

(** [`Error in query "${query.name}" (${filename}): ${err.message}`] *)
Definition wrapError (queryName filename : string) (err : exn) : exn :=
  JsError ("Error in query " +:+ Js.dquote +:+ queryName +:+ Js.dquote +:+
           " (" +:+ filename +:+ "): " +:+ exnMessage err).

(** [`${filename.replace(".", "_")}.ts`] *)
Definition outputName (filename : string) : string :=
  Js.replace filename "." "_" +:+ ".ts".

Definition header : string :=
  "// Code generated by sqlc. DO NOT EDIT." +:+ newline +:+ newline.

(** [for (const enumName of fileEnums) { enumDef = enumMap.get(enumName); if (enumDef) push }] *)
Definition enumNodesOf (enumMap : gmap string Enum) (fileEnums : list string) : list Node :=
  omap (fun enumName => enumTypeDecl enumName <$> enumMap !! enumName) fileEnums.

(** [nodes.splice(start, 0, ...items)] *)
Definition splice (start : nat) (items nodes : list Node) : list Node :=
  take start nodes ++ items ++ drop start nodes.

Section WithNames.

Variables argName colName : nat -> option Column -> string.

(** [printer.printNode(EmitHint.Unspecified, node, resultFile)] of the
    TypeScript compiler. *)
Variable printer : Node -> string.

Definition printNode (nodes : list Node) : string :=
  fold_left (fun output node => (output +:+ printer node) +:+ newline +:+ newline)
            nodes header.

(** The state threaded through the loops of [codegen]. *)
Record EmitState : Type := mkState {
  st_nodes : list Node;
  st_fileEnums : list string;
  st_usedEnums : list string
}.

Definition pushNode (n : Node) (st : EmitState) : EmitState :=
  mkState (st_nodes st ++ [n]) (st_fileEnums st) (st_usedEnums st).

(** [for (const c of columns) { enumName = getEnumName(c); if (enumName) add to both sets }];
    an empty enum name is falsy. *)
Definition recordEnums (enumMap : gmap string Enum) (columns : list (option Column))
           (st : EmitState) : EmitState :=
  fold_left
    (fun st column =>
       match PostgresTagged.getEnumName enumMap column with
       | Some enumName =>
           if String.eqb enumName EmptyString then st
           else mkState (st_nodes st)
                        (JsMap.add enumName (st_fileEnums st))
                        (JsMap.add enumName (st_usedEnums st))
       | None => st
       end)
    columns st.

(** [columns.map((column, i) => PropertySignature(name(i, column), columnType(column)))] *)
Definition members (enumMap : gmap string Enum)
           (name : nat -> option Column -> string)
           (columns : list (option Column)) : result (list (string * TypeNode)) :=
  mapM (fun '(i, column) =>
          typ ← PostgresTagged.columnType enumMap column;
          Ok (name i column, typ))
       (imap pair columns).

(** [query.name[0].toLowerCase() + query.name.slice(1)]; on an empty
    name [query.name[0]] is [undefined] and the call throws. *)
Definition lowerFirst (name : string) : result string :=
  match name with
  | EmptyString =>
      Throw (JsTypeError "undefined is not an object (evaluating 'query.name[0].toLowerCase')")
  | String c r => Ok (String (Js.lowerChar c) r)
  end.

(** [if (query.params.length > 0) { ... }] *)
Definition emitArgs (enumMap : gmap string Enum) (filename : string) (query : Query)
           (st : EmitState) : result (option string * EmitState) :=
  if (0 <? length (q_params query))%nat then
    let argIface := q_name query +:+ "Args" in
    let names := mapi (fun i param => argName i (param_column param)) (q_params query) in
    _ ← assertUniqueNames (mkOptions ArgumentKind (q_name query) filename names);
    let st := recordEnums enumMap (map param_column (q_params query)) st in
    iface ← tryCatch
              (ms ← members enumMap argName (map param_column (q_params query));
               Ok (InterfaceDeclaration argIface ms))
              (wrapError (q_name query) filename);
    Ok (Some argIface, pushNode iface st)
  else Ok (None, st).

(** [if (query.columns.length > 0) { ... }] *)
Definition emitRow (enumMap : gmap string Enum) (filename : string) (query : Query)
           (st : EmitState) : result (option string * EmitState) :=
  if (0 <? length (q_columns query))%nat then
    let returnIface := q_name query +:+ "Row" in
    let names := mapi (fun i column => colName i (Some column)) (q_columns query) in
    _ ← assertUniqueNames (mkOptions ColumnKind (q_name query) filename names);
    let st := recordEnums enumMap (map Some (q_columns query)) st in
    iface ← tryCatch
              (ms ← members enumMap colName (map Some (q_columns query));
               Ok (InterfaceDeclaration returnIface ms))
              (wrapError (q_name query) filename);
    Ok (Some returnIface, pushNode iface st)
  else Ok (None, st).

(** [switch (query.cmd) { ... }]: no [default] branch. *)
Definition emitFunction (lowerName : string) (argIface returnIface : option string)
           (query : Query) (st : EmitState) : result EmitState :=
  if String.eqb (q_cmd query) ":exec" then
    Ok (pushNode (PostgresTagged.execDecl argName lowerName (q_text query) argIface
                    (q_params query)) st)
  else if String.eqb (q_cmd query) ":execlastid" then
    n ← PostgresTagged.execlastidDecl;
    Ok (pushNode n st)
  else if String.eqb (q_cmd query) ":one" then
    Ok (pushNode (PostgresTagged.oneDecl argName lowerName (q_text query) argIface
                    (default "void" returnIface) (q_params query) (q_columns query)) st)
  else if String.eqb (q_cmd query) ":many" then
    Ok (pushNode (PostgresTagged.manyDecl argName lowerName (q_text query) argIface
                    (default "void" returnIface) (q_params query) (q_columns query)) st)
  else Ok st.

(** The body of [for (const query of queries)]. *)
Definition emitQuery (enumMap : gmap string Enum) (filename : string)
           (st : EmitState) (query : Query) : result EmitState :=
  lowerName ← lowerFirst (q_name query);
  '(argIface, st) ← emitArgs enumMap filename query st;
  '(returnIface, st) ← emitRow enumMap filename query st;
  emitFunction lowerName argIface returnIface query st.

(** A loop whose body may throw. *)
Fixpoint foldM {A S : Type} (f : S -> A -> result S) (l : list A) (s : S) : result S :=
  match l with
  | [] => Ok s
  | x :: r => s' ← f s x; foldM f r s'
  end.

(** The declarations of one output file, before printing. *)
Definition fileNodes (enumMap : gmap string Enum) (usedEnums : list string)
           (filename : string) (queries : list Query) : result (list Node * list string) :=
  st ← foldM (emitQuery enumMap filename) queries
             (mkState PostgresTagged.preamble [] usedEnums);
  let enumNodes := enumNodesOf enumMap (st_fileEnums st) in
  let preambleLength := length PostgresTagged.preamble in
  Ok (splice preambleLength enumNodes (st_nodes st), st_usedEnums st).

(** The body of [for (const [filename, queries] of querymap.entries())];
    the state is [(files, usedEnums)]. *)
Definition emitFile (enumMap : gmap string Enum)
           (acc : list File * list string) (entry : string * list Query)
  : result (list File * list string) :=
  let '(files, usedEnums) := acc in
  let '(filename, queries) := entry in
  '(nodes, usedEnums) ← fileNodes enumMap usedEnums filename queries;
  Ok (files ++ [mkFile (outputName filename) (printNode nodes)], usedEnums).

Definition codegen (input : GenerateRequest) : result (list File) :=
  let enumMap := buildEnumMap input in
  let querymap := groupQueries (req_queries input) in
  '(files, _) ← foldM (emitFile enumMap) querymap ([], []);
  Ok files.

End WithNames.

End App.

(** ** Running the emitted functions

    The emitted [:one] functions are small programs; to state what they
    return, the fragment of JavaScript they are written in is given an
    evaluator.  The database client is an oracle: whatever query is sent,
    it answers with the result set [db], a list of rows, each row an
    ordered list of (column, value) pairs.
    - [sql.unsafe(...)] and [sql`...`] are pending queries; awaited, they
      resolve to the rows as objects;
    - [.values()] on a pending query resolves to the rows as tuples;
    - [database.prepare(...).values(...)] returns the rows as tuples. *)

Inductive Value : Type :=
| VUndefined
| VNull
| VBool (b : bool)
| VNumber (z : Z)
| VNaN
| VString (s : string)
| VArray (elements : list Value)
| VObject (properties : list (string * Value))
| VClient
| VQuery
| VQueryValues
| VStatement
| VNumberFunction.

Inductive Completion : Type :=
| Normal (env : list (string * option Value))
| Return (v : Value).

Module Interp.

Definition referenceError (x : string) : exn :=
  JsError ("ReferenceError: " +:+ x).

Definition typeError (what : string) : exn :=
  JsTypeError ("TypeError: " +:+ what).

Definition truthy (v : Value) : bool :=
  match v with
  | VUndefined | VNull | VNaN => false
  | VBool b => b
  | VNumber z => negb (z =? 0)%Z
  | VString s => negb (String.eqb s EmptyString)
  | _ => true
  end.

Definition nullish (v : Value) : bool :=
  match v with
  | VUndefined | VNull => true
  | _ => false
  end.

(** [a === b] on primitive values; two object references met by the
    emitted code are never the same object. *)
Definition strictEquals (a b : Value) : bool :=
  match a, b with
  | VUndefined, VUndefined => true
  | VNull, VNull => true
  | VBool x, VBool y => Bool.eqb x y
  | VNumber x, VNumber y => (x =? y)%Z
  | VString x, VString y => String.eqb x y
  | _, _ => false
  end.

(** An environment binds a name to [None] while its [const]
    declaration has not run (temporal dead zone). *)
Definition lookup (x : string) (env : list (string * option Value)) : result Value :=
  match JsMap.get x env with
  | Some (Some v) => Ok v
  | Some None => Throw (referenceError x)
  | None =>
      if String.eqb x "Number" then Ok VNumberFunction
      else Throw (referenceError x)
  end.

Definition getProperty (v : Value) (name : string) : result Value :=
  match v with
  | VUndefined | VNull => Throw (typeError "cannot read a property of null or undefined")
  | VArray l =>
      if String.eqb name "length" then Ok (VNumber (Z.of_nat (length l)))
      else Ok VUndefined
  | VObject ps => Ok (default VUndefined (JsMap.get name ps))
  | _ => Ok VUndefined
  end.

Definition getElement (v i : Value) : result Value :=
  match v, i with
  | VUndefined, _ | VNull, _ =>
      Throw (typeError "cannot read a property of null or undefined")
  | VArray l, VNumber n =>
      if (0 <=? n)%Z then Ok (default VUndefined (l !! Z.to_nat n)) else Ok VUndefined
  | VObject ps, VString k => Ok (default VUndefined (JsMap.get k ps))
  | VObject ps, VNumber n => Ok (default VUndefined (JsMap.get (Js.numToString n) ps))
  | _, _ => Ok VUndefined
  end.

Section WithOracle.

(** The result set the database answers with. *)
Variable db : list (list (string * Value)).

(** The global [Number] function on the values a row can hold. *)
Variable jsNumber : Value -> Value.

Definition rowsAsObjects : Value := VArray (map VObject db).

Definition rowsAsTuples : Value := VArray (map (fun row => VArray (map snd row)) db).

Definition callMethod (receiver : Value) (method : string) (args : list Value)
  : result Value :=
  match receiver with
  | VClient =>
      if String.eqb method "unsafe" then Ok VQuery
      else if String.eqb method "prepare" then Ok VStatement
      else Throw (typeError "not a function")
  | VQuery =>
      if String.eqb method "values" then Ok VQueryValues
      else Throw (typeError "not a function")
  | VStatement =>
      if String.eqb method "values" then Ok rowsAsTuples
      else Throw (typeError "not a function")
  | VArray _ | VObject _ | VBool _ | VNumber _ | VNaN | VString _
  | VQueryValues | VNumberFunction =>
      Throw (typeError "not a function")
  | VUndefined | VNull =>
      Throw (typeError "cannot read a property of null or undefined")
  end.

Definition callFunction (f : Value) (args : list Value) : result Value :=
  match f with
  | VNumberFunction =>
      match args with
      | [] => Ok (VNumber 0)
      | v :: _ => Ok (jsNumber v)
      end
  | _ => Throw (typeError "not a function")
  end.

(** The object an object literal denotes: properties are set in
    order, a repeated key keeping its first position. *)
Definition objectOf (kvs : list (string * Value)) : Value :=
  VObject (fold_left (fun acc kv => JsMap.set (fst kv) (snd kv) acc) kvs []).

Definition await (v : Value) : Value :=
  match v with
  | VQuery => rowsAsObjects
  | VQueryValues => rowsAsTuples
  | other => other
  end.

(** Expressions are evaluated as syntax trees.  A tagged template is a
    pending query whatever its fragments; the printed file has this
    meaning when the fragments can be written between backticks as they
    are (no backtick, backslash or [${] in them). *)
Fixpoint evalExpr (env : list (string * option Value)) (e : Expr) {struct e}
  : result Value :=
  match e with
  | IdentifierExpr x => lookup x env
  | NullLiteral => Ok VNull
  | NumericLiteral z => Ok (VNumber z)
  | PropertyAccessExpression o name =>
      v ← evalExpr env o; getProperty v name
  | ElementAccessExpression o i =>
      v ← evalExpr env o; k ← evalExpr env i; getElement v k
  | CallExpression (PropertyAccessExpression o method) args =>
      receiver ← evalExpr env o;
      vs ← mapM (evalExpr env) args;
      callMethod receiver method vs
  | CallExpression callee args =>
      f ← evalExpr env callee;
      vs ← mapM (evalExpr env) args;
      callFunction f vs
  | AwaitExpression e' => v ← evalExpr env e'; Ok (await v)
  | AsExpression e' _ => evalExpr env e'
  | ParenthesizedExpression e' => evalExpr env e'
  | BinaryExpression l op r =>
      a ← evalExpr env l;
      match op with
      | QuestionQuestionToken =>
          if nullish a then evalExpr env r else Ok a
      | EqualsEqualsEqualsToken =>
          b ← evalExpr env r; Ok (VBool (strictEquals a b))
      | ExclamationEqualsEqualsToken =>
          b ← evalExpr env r; Ok (VBool (negb (strictEquals a b)))
      end
  | PrefixUnaryExclamation e' =>
      v ← evalExpr env e'; Ok (VBool (negb (truthy v)))
  | ConditionalExpression c t f =>
      v ← evalExpr env c;
      if truthy v then evalExpr env t else evalExpr env f
  | ObjectLiteralExpression props =>
      kvs ← mapM (fun prop => v ← evalExpr env (snd prop); Ok (fst prop, v)) props;
      Ok (objectOf kvs)
  | ArrayLiteralExpression es => vs ← mapM (evalExpr env) es; Ok (VArray vs)
  | TaggedTemplateExpression tag _ template =>
      t ← evalExpr env tag;
      _ ← match template with
          | NoSubstitutionTemplateLiteral _ => Ok []
          | TemplateExpression _ spans =>
              mapM (fun span => evalExpr env (fst span)) spans
          end;
      match t with
      | VClient => Ok VQuery
      | _ => Throw (typeError "not a function")
      end
  end.

(** [const x = v]: [x] leaves its dead zone. *)
Definition declare (x : string) (v : Value) (env : list (string * option Value))
  : list (string * option Value) :=
  JsMap.set x (Some v) env.

Fixpoint execStmt (env : list (string * option Value)) (s : Stmt) {struct s}
  : result Completion :=
  match s with
  | VariableStatement x init _ =>
      v ← evalExpr env init; Ok (Normal (declare x v env))
  | IfStatement c thenBlock =>
      v ← evalExpr env c;
      if truthy v then
        c ← (fix execBlock (env : list (string * option Value)) (ss : list Stmt)
               {struct ss} : result Completion :=
               match ss with
               | [] => Ok (Normal env)
               | s' :: r =>
                   c ← execStmt env s';
                   match c with
                   | Normal env' => execBlock env' r
                   | Return v => Ok (Return v)
                   end
               end) env thenBlock;
        (* declarations of the inner block do not escape it *)
        match c with
        | Normal _ => Ok (Normal env)
        | Return v => Ok (Return v)
        end
      else Ok (Normal env)
  | ReturnStatement e => v ← evalExpr env e; Ok (Return v)
  | ExpressionStatement e => _ ← evalExpr env e; Ok (Normal env)
  end.

Fixpoint execBlock (env : list (string * option Value)) (ss : list Stmt)
  : result Completion :=
  match ss with
  | [] => Ok (Normal env)
  | s :: r =>
      c ← execStmt env s;
      match c with
      | Normal env' => execBlock env' r
      | Return v => Ok (Return v)
      end
  end.

(** The names declared by the [const] statements of a function body. *)
Definition declaredNames (body : list Stmt) : list string :=
  omap (fun s => match s with
                 | VariableStatement x _ _ => Some x
                 | _ => None
                 end) body.

(** Formal parameters take the actual arguments in order; a missing
    argument is [undefined]. *)
Fixpoint bindParameters (formals : list (string * TypeNode)) (actuals : list Value)
  : list (string * option Value) :=
  match formals with
  | [] => []
  | (x, _) :: r =>
      match actuals with
      | [] => (x, Some VUndefined) :: bindParameters r []
      | v :: vs => (x, Some v) :: bindParameters r vs
      end
  end.

(** The scope a call starts in: the function's own [const] names, not
    yet initialised, then its parameters, then the bindings of the
    enclosing module. *)
Definition initialEnv (f : FunctionDecl) (globals : list (string * option Value))
           (actuals : list Value) : list (string * option Value) :=
  map (fun x => (x, None)) (declaredNames (fn_body f)) ++
  bindParameters (fn_parameters f) actuals ++ globals.

(** Awaiting a call of an emitted [async function]: [Ok v] when the
    promise resolves to [v], [Throw e] when it rejects.  [globals]
    are the bindings of the enclosing module. *)
Definition call (n : Node) (globals : list (string * option Value))
           (actuals : list Value) : result Value :=
  match n with
  | FunctionDeclaration f =>
      c ← execBlock (initialEnv f globals actuals) (fn_body f);
      match c with
      | Return v => Ok v
      | Normal _ => Ok VUndefined
      end
  | _ => Throw (typeError "not a function")
  end.

(** [receiver.map((parameter) => body)]: the body is evaluated once per
    element, in order, in the scope of the call with the parameter
    bound to the element. *)
Definition evalMapCall (env : list (string * option Value)) (m : MapCall)
  : result Value :=
  receiver ← evalExpr env (map_receiver m);
  match receiver with
  | VArray elements =>
      vs ← mapM (fun v => evalExpr ((map_parameter m, Some v) :: env) (map_body m))
                elements;
      Ok (VArray vs)
  | VUndefined | VNull =>
      Throw (typeError "cannot read a property of null or undefined")
  | _ => Throw (typeError "not a function")
  end.

(** Awaiting a call of an emitted function that ends in a [map] call. *)
Definition callMapping (f : MappingFunctionDecl)
           (globals : list (string * option Value)) (actuals : list Value)
  : result Value :=
  let scope :=
    initialEnv (mkFunctionDecl (mfn_name f) (mfn_parameters f) (mfn_type f) (mfn_body f))
               globals actuals in
  c ← execBlock scope (mfn_body f);
  match c with
  | Return v => Ok v
  | Normal env => evalMapCall env (mfn_return f)
  end.

End WithOracle.

End Interp.

(** ** Identifier derivation ([drivers/utils.ts])

    The drivers and [app.ts] above take [argName] and [colName] as
    parameters, and every general statement below holds for any choice
    of them.  The module here gives them a concrete form for the worked
    examples only. *)

Module Utils.

(** Modelled from the spec: [drivers/utils.ts] is missing from the
    sources; this is the "target identifier casing convention" of spec
    4.3, read off the tests ([nullable_id] becomes [nullableId]): the
    first letter after each underscore is upper-cased. *)
Definition capitalize (s : string) : string :=
  Js.toUpperCase (Js.charAt0 s) +:+ Js.sliceFrom 1 s.

(** Modelled from the spec: [drivers/utils.ts] is missing from the
    sources; snake_case to camelCase as in [capitalize]. *)
Definition camelCase (s : string) : string :=
  match Js.split "_" s with
  | [] => EmptyString
  | first :: others => first +:+ Js.join EmptyString (map capitalize others)
  end.

(** Modelled from the spec: [drivers/utils.ts] is missing from the
    sources.  Spec 4.3: prefer the column's own name, converted to the
    target identifier casing convention, when present and non-empty;
    otherwise fall back to a positional synthetic name. *)
Definition fieldName (prefix : string) (index : nat) (column : option Column) : string :=
  match column with
  | Some c =>
      if String.eqb (col_name c) EmptyString
      then prefix +:+ Js.numToString (Z.of_nat index)
      else camelCase (col_name c)
  | None => prefix +:+ Js.numToString (Z.of_nat index)
  end.

(** Modelled from the spec: [argName] of the missing [drivers/utils.ts]
    ("argN" when the column has no name). *)
Definition argName : nat -> option Column -> string := fieldName "arg".

(** Modelled from the spec: [colName] of the missing [drivers/utils.ts]
    ("columnN" when the column has no name). *)
Definition colName : nat -> option Column -> string := fieldName "column".

End Utils.

(** ** Vocabulary of the statements *)

Definition isNullLiteral (t : TypeNode) : bool :=
  match t with
  | LiteralTypeNull => true
  | _ => false
  end.

(** The type is a union one of whose alternatives is [null]. *)
Definition hasNullAlternative (t : TypeNode) : bool :=
  match t with
  | UnionTypeNode ts => existsb isNullLiteral ts
  | _ => false
  end.

(** The number of array nesting levels at the top of a type. *)
Fixpoint arrayDepth (t : TypeNode) : nat :=
  match t with
  | ArrayTypeNode e => S (arrayDepth e)
  | _ => 0
  end.

(** The first alternative of a union, the type itself otherwise. *)
Definition underNull (t : TypeNode) : TypeNode :=
  match t with
  | UnionTypeNode (inner :: _) => inner
  | _ => t
  end.

(** Array nesting levels of a mapped type, looking under its null union. *)
Definition arrayLevels (t : TypeNode) : nat := arrayDepth (underNull t).

(** A keyword or a named reference: neither an array nor a union. *)
Definition isPlain (t : TypeNode) : bool :=
  match t with
  | KeywordTypeNode _ | TypeReferenceNode _ _ => true
  | _ => false
  end.

(** The type names the strict mapper has a rule for. *)
Definition classified (lowerTypeName : string) : bool :=
  oneOf lowerTypeName
    (PostgresTagged.booleanTypes ++ ["bytea"] ++ PostgresTagged.dateTypes ++
     PostgresTagged.numberTypes ++ PostgresTagged.jsonTypes ++ ["void"] ++
     PostgresTagged.stringTypes).

(** The wide-integer test as C10 words it: the [pg_catalog.] prefix is
    stripped whatever its letter case, and the rest is compared with the
    wide-integer names without regard to case. *)
Definition stripPgCatalogAnyCase (typeName : string) : string :=
  if Js.startsWith (Js.toLowerCase typeName) pgCatalog
  then Js.sliceFrom (String.length pgCatalog) typeName
  else typeName.

Definition isBigIntTypeAnyCase (column : Column) : bool :=
  match col_type column with
  | None => false
  | Some ty =>
      oneOf (Js.toLowerCase (stripPgCatalogAnyCase (id_name ty)))
            PostgresCommon.BIGINT_TYPES
  end.

(** [row[i]] and [Number(row[i])] *)
Definition rowAccess (i : nat) : Expr :=
  ElementAccessExpression (IdentifierExpr "row") (NumericLiteral (Z.of_nat i)).

Definition numberCall (i : nat) : Expr :=
  CallExpression (IdentifierExpr "Number") [rowAccess i].

(** [row[i] === null ? null : Number(row[i])] *)
Definition guardedNumberCall (i : nat) : Expr :=
  ConditionalExpression
    (BinaryExpression (rowAccess i) EqualsEqualsEqualsToken NullLiteral)
    NullLiteral
    (numberCall i).

(** The value an accessor must produce from the raw value [v] of a
    wide-integer column: [null] stays [null] when the column is
    nullable, anything else goes through [Number]. *)
Definition narrowed (jsNumber : Value -> Value) (notNull : bool) (v : Value) : Value :=
  if notNull then jsNumber v
  else match v with
       | VNull => VNull
       | _ => jsNumber v
       end.

(** The file name as C8 words it: the source filename with its
    extension, the text from its last dot on, replaced by the extension
    of the target language. *)
Fixpoint dropExtension (s : string) : string :=
  match s with
  | EmptyString => EmptyString
  | String c r =>
      if Ascii.eqb c "." && negb (Js.includes r ".") then EmptyString
      else String c (dropExtension r)
  end.

Definition replaceExtension (filename ext : string) : string :=
  dropExtension filename +:+ "." +:+ ext.

(** The (key, enum) pairs the enum catalog builder writes for one
    schema, in the order it writes them: each enum under its bare name
    and, off the default schema, under its qualified name. *)
Definition enumRegistrations (defaultSchema : string) (schema : Schema)
  : list (string * Enum) :=
  if App.isSystemSchema (schema_name schema) then []
  else flat_map
         (fun enumDef =>
            (enum_name enumDef, enumDef) ::
            (if negb (String.eqb (schema_name schema) defaultSchema)
             then [(schema_name schema +:+ "." +:+ enum_name enumDef, enumDef)]
             else []))
         (schema_enums schema).

Definition registrations (input : GenerateRequest) : list (string * Enum) :=
  flat_map (enumRegistrations (App.defaultSchemaOf input)) (App.schemasOf input).

(** The last value written under a key. *)
Fixpoint lastWrite (k : string) (writes : list (string * Enum)) : option Enum :=
  match writes with
  | [] => None
  | (k', e) :: r =>
      match lastWrite k r with
      | Some e' => Some e'
      | None => if String.eqb k' k then Some e else None
      end
  end.

(** The first value written under a key. *)
Definition firstWrite (k : string) (writes : list (string * Enum)) : option Enum :=
  JsMap.get k writes.

Definition insertPair (m : gmap string Enum) (p : string * Enum) : gmap string Enum :=
  <[p.1 := p.2]> m.

(** Two schemas that both define an enum called [status]. *)
Definition twoStatusCatalog : GenerateRequest :=
  mkRequest
    (Some (mkCatalog "public"
             [mkSchema "public" [mkEnum "status" ["active"; "inactive"]];
              mkSchema "audit" [mkEnum "status" ["archived"]]]))
    [].

(** How many times a name occurs in a list. *)
Definition occurrences (n : string) (names : list string) : nat :=
  length (List.filter (String.eqb n) names).

(** The text of a template span literal. *)
Definition spanText (lit : SpanLiteral) : string :=
  match lit with
  | TemplateMiddle text => text
  | TemplateTail text => text
  end.

(** The literal fragments of a template, in order. *)
Definition fragments (t : TemplateLiteral Expr) : list string :=
  match t with
  | NoSubstitutionTemplateLiteral text => [text]
  | TemplateExpression head spans => head :: map (fun span => spanText (snd span)) spans
  end.

(** The bound expressions of a template, in order. *)
Definition boundExpressions (t : TemplateLiteral Expr) : list Expr :=
  match t with
  | NoSubstitutionTemplateLiteral _ => []
  | TemplateExpression _ spans => map fst spans
  end.

(** The fragments with one marker put back after each fragment but the
    last. *)
Fixpoint reinsert (parts markers : list string) : string :=
  match parts, markers with
  | p :: ps, m :: ms => p +:+ m +:+ reinsert ps ms
  | p :: _, [] => p
  | [], _ => EmptyString
  end.

(** [args.<name>] *)
Definition argsField (name : string) : Expr :=
  PropertyAccessExpression (IdentifierExpr "args") name.

(** The matches lie in the text, left to right and without overlap,
    from offset [from] on. *)
Fixpoint placed (from : nat) (text : string) (ms : list RegExpMatch) : Prop :=
  match ms with
  | [] => True
  | m :: r =>
      from <= m_index m /\
      String.prefix (m_whole m) (Js.sliceFrom (m_index m) text) = true /\
      placed (m_index m + String.length (m_whole m)) text r
  end.

(** A marker is a dollar sign followed by its non-empty run of digits. *)
Definition isMarker (m : RegExpMatch) : Prop :=
  m_whole m = String "$" (m_group m) /\
  m_group m <> EmptyString /\
  forallb Js.isDigit (String.list_ascii_of_string (m_group m)) = true.

(** The row object the positional drivers build from the tuple [vals]:
    one property per column, read at the column's index and, by the
    shared PostgreSQL driver, narrowed when the column is wide. *)
Definition mappedRow (jsNumber : Value -> Value)
           (colName : nat -> option Column -> string)
           (columns : list Column) (vals : list Value) : Value :=
  Interp.objectOf
    (mapi (fun i col =>
             (colName i (Some col),
              if PostgresCommon.isBigIntType (Some col)
              then narrowed jsNumber (col_notNull col) (default VUndefined (vals !! i))
              else default VUndefined (vals !! i)))
          columns).

Definition castRow (colName : nat -> option Column -> string)
           (columns : list Column) (vals : list Value) : Value :=
  Interp.objectOf
    (mapi (fun i col => (colName i (Some col), default VUndefined (vals !! i))) columns).

(** Sample type identifiers used by the worked examples. *)
Definition typeNamed (name : string) : Identifier :=
  mkIdentifier EmptyString EmptyString name.

Definition textType : Identifier := typeNamed "text".

Definition sampleColumn (name type : string) (notNull : bool) : Column :=
  mkColumn name notNull false 0 (Some (typeNamed type)).

(** [-- name: DeleteAuthor :exec] of the example project, and the same
    statement with a [RETURNING] column. *)
Definition deleteAuthor : Query :=
  mkQuery "DELETE FROM authors WHERE id = $1" "DeleteAuthor" ":exec"
          [] [mkParameter 1 (Some (sampleColumn "id" "bigserial" true))] "query.sql".

Definition deleteAuthorReturning : Query :=
  mkQuery "DELETE FROM authors WHERE id = $1 RETURNING id" "DeleteAuthor" ":exec"
          [sampleColumn "id" "bigserial" true]
          [mkParameter 1 (Some (sampleColumn "id" "bigserial" true))] "query.sql".

Definition insertAuthorId : Query :=
  mkQuery "INSERT INTO authors (name) VALUES ($1)" "InsertAuthorId" ":execlastid"
          [] [] "query.sql".

Definition requestOf (queries : list Query) : GenerateRequest :=
  mkRequest (Some (mkCatalog "public" [])) queries.

(** The declarations [app.ts] builds for [deleteAuthorReturning]. *)
Definition deleteAuthorReturningNodes : list Node :=
  [ImportDeclaration true None "Sql" "postgres";
   InterfaceDeclaration "DeleteAuthorArgs" [("id", KeywordTypeNode NumberKeyword)];
   InterfaceDeclaration "DeleteAuthorRow" [("id", KeywordTypeNode NumberKeyword)];
   PostgresTagged.execDecl Utils.argName "deleteAuthor" (q_text deleteAuthorReturning)
     (Some "DeleteAuthorArgs") (q_params deleteAuthorReturning)].

(** [-- name: GetAuthor :one] of the example project. *)
Definition getAuthorText : string := "SELECT * FROM authors WHERE id = $1 LIMIT 1".

Definition getAuthorParams : list QueryParameter :=
  [mkParameter 1 (Some (sampleColumn "id" "bigserial" true))].

(** A stand-in for the TypeScript printer in the worked examples. *)
Definition samplePrinter (n : Node) : string :=
  match n with
  | ImportDeclaration _ _ _ _ => "import"
  | InterfaceDeclaration name _ => "interface " +:+ name
  | TypeAliasDeclaration name _ => "type " +:+ name
  | FunctionDeclaration f => "function " +:+ fn_name f
  end.

(** ** [drivers/postgres.ts], tagged-template form before the enum and
    strictness changes: every unlisted type is a [string] *)

Module PostgresTaggedPermissive.

Definition booleanTypes : list string := ["bool"; "boolean"].

Definition dateTypes : list string :=
  ["date"; "timestamp"; "timestamp without time zone"; "timestamptz";
   "timestamp with time zone"].

Definition numberTypes : list string :=
  ["float4"; "real"; "float8"; "float"; "double precision"; "int2";
   "smallint"; "int4"; "int"; "integer"; "int8"; "bigint"; "bigserial";
   "serial"; "serial2"; "serial4"; "serial8"; "smallserial"; "oid"].

Definition jsonTypes : list string := ["json"; "jsonb"].

(** The [switch (typeName)] of [columnType]; [typ] starts as [string]. *)
Definition baseType (typeName : string) : TypeNode :=
  if oneOf typeName booleanTypes then KeywordTypeNode BooleanKeyword
  else if String.eqb typeName "bytea" then TypeReferenceNode "Buffer" []
  else if oneOf typeName dateTypes then TypeReferenceNode "Date" []
  else if oneOf typeName numberTypes then KeywordTypeNode NumberKeyword
  else if oneOf typeName jsonTypes then KeywordTypeNode AnyKeyword
  else KeywordTypeNode StringKeyword.

Definition columnType (column : option Column) : TypeNode :=
  match column with
  | None => KeywordTypeNode AnyKeyword
  | Some c =>
      match col_type c with
      | None => KeywordTypeNode AnyKeyword
      | Some ty =>
          let typeName := Js.toLowerCase (stripPgCatalog (id_name ty)) in
          nullWrap c (arrayWrap c (baseType typeName))
      end
  end.

End PostgresTaggedPermissive.

(** The type names the strict mapper classifies and the shared
    PostgreSQL mapper has no case for. *)
Definition sharedMapperGaps : list string :=
  ["void"; "char"; "name"; "citext"; "macaddr"; "macaddr8"; "bit varying";
   "time without time zone"; "time with time zone"].

(** ** Further vocabulary *)

(** The distinct elements of a list, each at its first occurrence. *)
Definition firstSeen (l : list string) : list string :=
  fold_left (fun seen x => JsMap.add x seen) l [].

(** The queries of one source file, in request order. *)
Definition queriesOf (filename : string) (queries : list Query) : list Query :=
  List.filter (fun q => String.eqb (q_filename q) filename) queries.

(** The strict mapper gives the column a type. *)
Definition typeable (enumMap : gmap string Enum) (column : option Column) : Prop :=
  exists typ, PostgresTagged.columnType enumMap column = Ok typ.

(** What a query must satisfy for its emission to go through. *)
Definition accepted (argName colName : nat -> option Column -> string)
           (enumMap : gmap string Enum) (q : Query) : Prop :=
  q_name q <> EmptyString /\
  List.NoDup (mapi (fun i param => argName i (param_column param)) (q_params q)) /\
  Forall (fun param => typeable enumMap (param_column param)) (q_params q) /\
  List.NoDup (mapi (fun i column => colName i (Some column)) (q_columns q)) /\
  Forall (fun column => typeable enumMap (Some column)) (q_columns q) /\
  q_cmd q <> ":execlastid".


(** The enum names [getEnumName] reports for a list of columns, the
    falsy empty name left out. *)
Definition enumNames (enumMap : gmap string Enum) (columns : list (option Column))
  : list string :=
  List.filter (fun name => negb (String.eqb name EmptyString))
              (omap (PostgresTagged.getEnumName enumMap) columns).

(** The enum names of a query: those of its parameters, then those of
    its columns. *)
Definition enumNamesOf (enumMap : gmap string Enum) (q : Query) : list string :=
  enumNames enumMap (map param_column (q_params q)) ++
  enumNames enumMap (map Some (q_columns q)).

(** [for (const x of names) seen.add(x)] *)
Definition addAll (names seen : list string) : list string :=
  fold_left (fun seen x => JsMap.add x seen) names seen.

Definition isTypeAlias (n : Node) : bool :=
  match n with
  | TypeAliasDeclaration _ _ => true
  | _ => false
  end.


(** A [:many] query over a table with a [status] enum column. *)
Definition listByStatus : Query :=
  mkQuery "SELECT id, status FROM items WHERE status = $1" "ListByStatus" ":many"
          [sampleColumn "id" "int8" true; sampleColumn "status" "status" true]
          [mkParameter 1 (Some (sampleColumn "status" "status" true))] "items.sql".


(** The emission state with another cross-file enum set. *)
Definition withUsed (usedEnums : list string) (st : App.EmitState) : App.EmitState :=
  App.mkState (App.st_nodes st) (App.st_fileEnums st) usedEnums.


(** A request over two source files, with the [status] enums in its catalog. *)
Definition statusRequest : GenerateRequest :=
  mkRequest (req_catalog twoStatusCatalog) [deleteAuthor; listByStatus].


(** A result set of two rows, and the module binding of the query text
    the positional drivers read. *)
Definition twoAuthors : list (list (string * Value)) :=
  [[("id", VNumber 1); ("name", VString "Ada")];
   [("id", VNumber 2); ("name", VString "Grace")]].

Definition getAuthorGlobals : list (string * option Value) :=
  [("getAuthorQuery", Some (VString getAuthorText))].

Definition authorColumns : list Column :=
  [sampleColumn "id" "bigserial" true; sampleColumn "name" "text" true].


(** A template's spans as TypeScript requires them: every span but the
    last ends in a middle literal, the last one in the tail literal. *)
Definition isMiddle (span : Expr * SpanLiteral) : Prop :=
  exists text, snd span = TemplateMiddle text.

Definition wellFormedSpans (spans : list (Expr * SpanLiteral)) : Prop :=
  exists init e text,
    spans = init ++ [(e, TemplateTail text)] /\ Forall isMiddle init.


Definition isInterface (n : Node) : Prop :=
  exists name members, n = InterfaceDeclaration name members.

(** The name of the row type an emitted function returns over. *)
Definition rowTypeName (q : Query) : string :=
  match q_columns q with
  | [] => "void"
  | _ => q_name q +:+ "Row"
  end.

(** The promised type of an emitted function, by command. *)
Definition promisedType (q : Query) : TypeNode :=
  TypeReferenceNode "Promise"
    [if String.eqb (q_cmd q) ":exec" then KeywordTypeNode VoidKeyword
     else if String.eqb (q_cmd q) ":one"
          then UnionTypeNode [TypeReferenceNode (rowTypeName q) []; LiteralTypeNull]
          else ArrayTypeNode (TypeReferenceNode (rowTypeName q) [])].


(** The same statement, read from a source file called [query_sql]. *)
Definition deleteAuthorCopy : Query :=
  mkQuery (q_text deleteAuthor) (q_name deleteAuthor) (q_cmd deleteAuthor)
          (q_columns deleteAuthor) (q_params deleteAuthor) "query_sql".


(** The ASCII strings: every byte below 128.  On these the bytes are
    the characters of the JavaScript string. *)
Definition isAscii (s : string) : Prop :=
  Forall (fun c => nat_of_ascii c < 128) (String.list_ascii_of_string s).

Definition upperLetters : list ascii :=
  String.list_ascii_of_string "ABCDEFGHIJKLMNOPQRSTUVWXYZ".

Definition lowerLetters : list ascii :=
  String.list_ascii_of_string "abcdefghijklmnopqrstuvwxyz".

(** The character of [to] at the place [c] has in [from]; [c] itself
    when it does not occur in [from]. *)
Fixpoint translate (from to : list ascii) (c : ascii) : ascii :=
  match from, to with
  | f :: from', t :: to' => if Ascii.eqb c f then t else translate from' to' c
  | _, _ => c
  end.

(** Case mapping of an ASCII character, read off the alphabet. *)
Definition upperOf (c : ascii) : ascii := translate lowerLetters upperLetters c.

Definition lowerOf (c : ascii) : ascii := translate upperLetters lowerLetters c.

(** Pascal casing as one left-to-right scan: an underscore is dropped
    and raises the flag; a character met with the flag raised is
    upper-cased, any other is lower-cased. *)
Fixpoint pascalScan (upper : bool) (s : string) : string :=
  match s with
  | EmptyString => EmptyString
  | String c r =>
      if Ascii.eqb c "_" then pascalScan true r
      else String (if upper then upperOf c else lowerOf c) (pascalScan false r)
  end.




(** ** Markers, told from the text alone *)

(** The decimal digits: what [\d] matches. *)
Definition decimalDigits : list ascii :=
  ["0"; "1"; "2"; "3"; "4"; "5"; "6"; "7"; "8"; "9"]%char.

(** The text holds a marker at offset [i]: a dollar sign directly
    followed by a decimal digit. *)
Definition markerAt (text : string) (i : nat) : Prop :=
  exists pre d post,
    text = pre +:+ String "$" (String d post) /\
    String.length pre = i /\
    In d decimalDigits.

(** [m] is the marker the text holds at offset [m_index m]: the dollar
    sign with all the decimal digits that follow it, up to the first
    character that is no digit. *)
Definition markerOf (text : string) (m : RegExpMatch) : Prop :=
  exists pre post,
    text = pre +:+ m_whole m +:+ post /\
    String.length pre = m_index m /\
    m_whole m = String "$" (m_group m) /\
    m_group m <> EmptyString /\
    Forall (fun c => In c decimalDigits) (String.list_ascii_of_string (m_group m)) /\
    match post with
    | EmptyString => True
    | String c _ => ~ In c decimalDigits
    end.

(** [ms] are the markers of the text: all of them, each once, from
    left to right. *)
Definition markersOf (text : string) (ms : list RegExpMatch) : Prop :=
  Forall (markerOf text) ms /\
  StronglySorted lt (map m_index ms) /\
  forall i, markerAt text i <-> In i (map m_index ms).


(** The number a string of decimal digits denotes, read by the Standard
    Library's numerals; [0] for a string that holds another character. *)
Definition decimalValue (s : string) : Z :=
  match NilEmpty.uint_of_string s with
  | Some d => Z.of_uint d
  | None => 0%Z
  end.

(** The decimal numeral of an integer, printed by the Standard Library:
    no leading zero, a minus sign before a negative number. *)
Definition decimalNumeral (z : Z) : string :=
  NilZero.string_of_int (Z.to_int z).

(** A JavaScript array holds fewer than [2^32] elements. *)
Definition isArray {A : Type} (l : list A) : Prop :=
  (Z.of_nat (length l) < 2 ^ 32)%Z.


(** The queries of a request in the order [codegen] emits them: file
    by file in first-seen order of the filenames, and within a file in
    request order. *)
Definition emissionOrder (queries : list Query) : list Query :=
  flat_map (fun filename => queriesOf filename queries)
           (firstSeen (map q_filename queries)).




(** A [:many] query whose second column has a geometric type and whose
    third column has a type the strict mapper does not know. *)
Definition findPlaces : Query :=
  mkQuery "SELECT id, shape, tags FROM places" "FindPlaces" ":many"
          [sampleColumn "id" "int8" true; sampleColumn "shape" "polygon" true;
           sampleColumn "tags" "hstore" true]
          [] "places.sql".


(** * Properties *)

(** ** Strings *)

Lemma append_cons (c : ascii) (a b : string) : String c a +:+ b = String c (a +:+ b).
Proof. reflexivity. Qed.

Lemma append_nil_l (b : string) : EmptyString +:+ b = b.
Proof. reflexivity. Qed.

Lemma append_assoc (a b c : string) : (a +:+ b) +:+ c = a +:+ (b +:+ c).
Proof.
  induction a as [|x a IH]; [done|].
  by rewrite !append_cons, IH.
Qed.

Lemma append_nil_r (a : string) : a +:+ EmptyString = a.
Proof.
  induction a as [|x a IH]; [done|].
  by rewrite append_cons, IH.
Qed.

Lemma prefix_app (p r : string) : String.prefix p (p +:+ r) = true.
Proof.
  induction p as [|c p IH].
  - rewrite append_nil_l. by destruct r.
  - rewrite append_cons. simpl. destruct (ascii_dec c c); [apply IH | done].
Qed.

Lemma prefix_inv (p s : string) :
  String.prefix p s = true -> exists r, s = p +:+ r.
Proof.
  revert s. induction p as [|c p IH]; intros s H.
  - by exists s.
  - destruct s as [|d s]; simpl in H; [done|].
    destruct (ascii_dec c d) as [->|]; [|done].
    destruct (IH _ H) as [r ->]. by exists r.
Qed.

Lemma sliceFrom_app (p r : string) : Js.sliceFrom (String.length p) (p +:+ r) = r.
Proof.
  induction p as [|c p IH]; [done|].
  rewrite append_cons. simpl. apply IH.
Qed.

Lemma includes_prefix (s sub : string) :
  String.prefix sub s = true -> Js.includes s sub = true.
Proof. intros H. destruct s; simpl in *; rewrite H; done. Qed.

(** A string includes each of its factors. *)
Lemma includes_app (a sub b : string) : Js.includes (a +:+ sub +:+ b) sub = true.
Proof.
  induction a as [|c a IH].
  - rewrite append_nil_l. apply includes_prefix, prefix_app.
  - rewrite append_cons. simpl. rewrite IH. apply orb_true_r.
Qed.

Lemma includes_inv (s sub : string) :
  Js.includes s sub = true -> exists a b, s = a +:+ sub +:+ b.
Proof.
  induction s as [|c s IH]; simpl; intros H.
  - rewrite orb_false_r in H. destruct sub; [|done]. by exists EmptyString, EmptyString.
  - apply orb_true_iff in H as [H|H].
    + destruct (prefix_inv sub (String c s) H) as [r Hr].
      exists EmptyString, r. by rewrite Hr.
    + destruct (IH H) as (a & b & ->). by exists (String c a), b.
Qed.

Lemma includes_app_l (a b sub : string) :
  Js.includes a sub = true -> Js.includes (a +:+ b) sub = true.
Proof.
  intros (x & y & ->)%includes_inv. rewrite !append_assoc. apply includes_app.
Qed.

Lemma includes_app_r (a b sub : string) :
  Js.includes b sub = true -> Js.includes (a +:+ b) sub = true.
Proof.
  intros (x & y & ->)%includes_inv. rewrite <- append_assoc. apply includes_app.
Qed.

Lemma includes_trans (s t u : string) :
  Js.includes s t = true -> Js.includes t u = true -> Js.includes s u = true.
Proof.
  intros (a & b & ->)%includes_inv (a' & b' & ->)%includes_inv.
  apply includes_app_r, includes_app_l, includes_app.
Qed.

(** Locate a factor in a right-nested concatenation. *)
Ltac find_factor :=
  first [ apply includes_app | apply includes_app_r; find_factor ].

Lemma includes_refl (s : string) : Js.includes s s = true.
Proof.
  pose proof (includes_app EmptyString s EmptyString) as H.
  by rewrite append_nil_l, append_nil_r in H.
Qed.

(** ** The type mapper: nullability and arrays *)

Lemma arrayDepth_iter (n : nat) (t : TypeNode) :
  arrayDepth (Nat.iter n ArrayTypeNode t) = n + arrayDepth t.
Proof. induction n as [|n IH]; simpl; [done | by rewrite IH]. Qed.

Lemma hasNull_iter (n : nat) (t : TypeNode) :
  isPlain t = true -> hasNullAlternative (Nat.iter n ArrayTypeNode t) = false.
Proof. destruct n; simpl; [by destruct t | done]. Qed.

Lemma arrayDepth_plain (t : TypeNode) : isPlain t = true -> arrayDepth t = 0.
Proof. by destruct t. Qed.

Lemma common_baseType_plain (n : string) : isPlain (PostgresCommon.baseType n) = true.
Proof. unfold PostgresCommon.baseType. repeat case_match; done. Qed.

Lemma tagged_baseType_plain (o cn n : string) (t : TypeNode) :
  PostgresTagged.baseType o cn n = Ok t -> isPlain t = true.
Proof.
  unfold PostgresTagged.baseType. repeat case_match; intros ?; by simplify_eq.
Qed.

(** What [arrayWrap] does, by cases on the column's flags. *)
Lemma arrayWrap_levels (c : Column) (t : TypeNode) :
  exists n, arrayWrap c t = Nat.iter n ArrayTypeNode t
    /\ (col_isArray c = true -> col_arrayDims c = 0%Z -> n = 1)
    /\ (col_arrayDims c = 3%Z -> n = 3).
Proof.
  unfold arrayWrap.
  destruct (col_isArray c) eqn:Ha; simpl.
  - destruct (Z.eqb_spec (col_arrayDims c) 0) as [Hz|Hz].
    + exists 1. split; [done|]. split; [done|]. intros H3. rewrite H3 in Hz. done.
    + exists (Z.to_nat (col_arrayDims c)). split; [done|]. split; [done|].
      by intros ->.
  - destruct (Z.ltb_spec 0 (col_arrayDims c)) as [Hpos|Hneg].
    + destruct (Z.eqb_spec (col_arrayDims c) 0) as [Hz|Hz]; [lia|].
      exists (Z.to_nat (col_arrayDims c)). split; [done|]. split; [done|].
      by intros ->.
    + exists 0. split; [done|]. split; [done|]. intros H. rewrite H in Hneg. lia.
Qed.

(** A plain base type, wrapped in arrays and then in the null union. *)
Lemma wrapped_shape (c : Column) (base : TypeNode) :
  isPlain base = true ->
  let t := nullWrap c (arrayWrap c base) in
  (hasNullAlternative t = true <-> col_notNull c = false) /\
  (col_isArray c = true -> col_arrayDims c = 0%Z -> arrayLevels t = 1) /\
  (col_arrayDims c = 3%Z -> arrayLevels t = 3) /\
  (col_notNull c = false ->
   exists inner, t = UnionTypeNode [inner; LiteralTypeNull]
     /\ hasNullAlternative inner = false
     /\ arrayDepth inner = arrayLevels t).
Proof.
  intros Hp t. subst t.
  destruct (arrayWrap_levels c base) as (n & -> & H0 & H3).
  assert (Hd : arrayDepth (Nat.iter n ArrayTypeNode base) = n).
  { rewrite arrayDepth_iter, (arrayDepth_plain _ Hp). lia. }
  assert (Hu : underNull (Nat.iter n ArrayTypeNode base) = Nat.iter n ArrayTypeNode base).
  { destruct n; simpl; [by destruct base | done]. }
  unfold nullWrap, arrayLevels.
  destruct (col_notNull c) eqn:Hnn.
  - rewrite Hu, Hd, (hasNull_iter n base Hp). repeat split; try done; auto.
  - simpl. rewrite Hd. split; [|split; [|split]]; auto.
    + split; [done|]. intros _. apply orb_true_r.
    + intros _. eexists. split; [done|]. split; [by apply hasNull_iter | done].
Qed.

(** C6, as stated, fails: a column without a declared type maps to the
    bare [any] type, which has no null alternative although the column
    is nullable. *)
Lemma columnType_untyped_nullable_has_no_null :
  ~ (forall c : Column,
       hasNullAlternative (PostgresCommon.columnType (Some c)) = true
       <-> col_notNull c = false).
Proof.
  intros H.
  destruct (H (mkColumn "note" false false 0 None)) as [_ H'].
  specialize (H' eq_refl). discriminate H'.
Qed.

(** C6 (amended).  For every column with a declared type, in the shared
    positional driver and, whenever it returns, in the strict
    tagged-template driver: the mapped type has the null alternative
    exactly when [notNull] is false; [isArray] with [arrayDims = 0]
    gives exactly one array level and [arrayDims = 3] exactly three; and
    the null union, when present, sits outside the array wrapping. *)
Theorem columnType_null_and_array_levels
        (enumMap : gmap string Enum) (c : Column) (ty : Identifier) (t : TypeNode) :
  col_type c = Some ty ->
  t = PostgresCommon.columnType (Some c) \/
  PostgresTagged.columnType enumMap (Some c) = Ok t ->
  (hasNullAlternative t = true <-> col_notNull c = false) /\
  (col_isArray c = true -> col_arrayDims c = 0%Z -> arrayLevels t = 1) /\
  (col_arrayDims c = 3%Z -> arrayLevels t = 3) /\
  (col_notNull c = false ->
   exists inner, t = UnionTypeNode [inner; LiteralTypeNull]
     /\ hasNullAlternative inner = false
     /\ arrayDepth inner = arrayLevels t).
Proof.
  intros Hty [->|Hs].
  - unfold PostgresCommon.columnType. rewrite Hty.
    apply wrapped_shape, common_baseType_plain.
  - unfold PostgresTagged.columnType in Hs. rewrite Hty in Hs.
    case_bool_decide.
    + simplify_eq. by apply wrapped_shape.
    + destruct (PostgresTagged.baseType _ _ _) as [base|e] eqn:Hb; simpl in Hs; [|done].
      simplify_eq. eapply wrapped_shape, tagged_baseType_plain, Hb.
Qed.

Lemma columnType_null_and_array_levels_witness :
  arrayLevels
    (PostgresCommon.columnType
       (Some (mkColumn "tags" false true 0 (Some textType)))) = 1.
Proof.
  apply (columnType_null_and_array_levels ∅
           (mkColumn "tags" false true 0 (Some textType))
           textType _ eq_refl (or_introl eq_refl));
    reflexivity.
Defined.

(** ** The type mapper: totality and strictness *)

Lemma oneOf_app (s : string) (l1 l2 : list string) :
  oneOf s (l1 ++ l2) = oneOf s l1 || oneOf s l2.
Proof. apply existsb_app. Qed.

Lemma oneOf_singleton (s x : string) : oneOf s [x] = String.eqb s x.
Proof. unfold oneOf. simpl. apply orb_false_r. Qed.

(** The strict mapper follows [classified]. *)
Lemma tagged_baseType_classified (o cn n : string) :
  classified n = true -> exists t, PostgresTagged.baseType o cn n = Ok t.
Proof.
  unfold classified, PostgresTagged.baseType.
  rewrite !oneOf_app, !oneOf_singleton.
  intros H. repeat case_match; eauto; simpl in H; congruence.
Qed.

Lemma tagged_baseType_unclassified (o cn n : string) :
  classified n = false ->
  PostgresTagged.baseType o cn n =
    if oneOf n PostgresTagged.geometricTypes
    then Throw (JsError (PostgresTagged.geometricMessage o))
    else Throw (JsError (PostgresTagged.unrecognizedMessage o cn)).
Proof.
  unfold classified, PostgresTagged.baseType.
  rewrite !oneOf_app, !oneOf_singleton.
  intros H. repeat case_match; try done; simpl in H; congruence.
Qed.

(** C7, as stated, fails: the strict mapper does not raise on an absent
    column; it answers [any] like the permissive ones. *)
Lemma strict_columnType_absent_column_does_not_raise :
  ~ (exists e, PostgresTagged.columnType ∅ None = Throw e).
Proof. intros [e H]. discriminate H. Qed.

(** C7 (amended).  The permissive mappers are total functions, and in
    every driver, the strict one included, an absent column or a column
    with no declared type maps to [any].  The strict mapper raises
    exactly on a typed column whose unqualified lower-cased type is
    neither an enum nor classified; the message names the type as
    written, and also the column (or "unknown") except for the seven
    geometric types, whose message names the type only. *)
Theorem columnType_totality_and_strictness
        (enumMap : gmap string Enum) (column : option Column) :
  ((column = None \/ exists c, column = Some c /\ col_type c = None) ->
   PostgresCommon.columnType column = KeywordTypeNode AnyKeyword /\
   PostgresJs.columnType column = KeywordTypeNode AnyKeyword /\
   BunSqlite.columnType column = KeywordTypeNode AnyKeyword /\
   PostgresTagged.columnType enumMap column = Ok (KeywordTypeNode AnyKeyword)) /\
  (forall c ty,
     column = Some c -> col_type c = Some ty ->
     let lower := Js.toLowerCase (stripPgCatalog (id_name ty)) in
     (enumMap !! lower = None -> classified lower = false ->
      exists msg,
        PostgresTagged.columnType enumMap column = Throw (JsError msg) /\
        Js.includes msg (id_name ty) = true /\
        (oneOf lower PostgresTagged.geometricTypes = false ->
         Js.includes msg (PostgresTagged.nameOrUnknown (col_name c)) = true) /\
        (oneOf lower PostgresTagged.geometricTypes = true ->
         msg = PostgresTagged.geometricMessage (id_name ty))) /\
     (is_Some (enumMap !! lower) \/ classified lower = true ->
      exists t, PostgresTagged.columnType enumMap column = Ok t)).
Proof.
  split.
  - intros [->|(c & -> & Hc)]; [done|].
    unfold PostgresJs.columnType, PostgresCommon.columnType, BunSqlite.columnType,
      PostgresTagged.columnType.
    by rewrite Hc.
  - intros c ty -> Hty lower. unfold PostgresTagged.columnType. rewrite Hty.
    fold lower. split.
    + intros Hnone Hun.
      rewrite bool_decide_eq_false_2 by (rewrite Hnone; by intros [? ?]).
      rewrite (tagged_baseType_unclassified _ _ _ Hun).
      destruct (oneOf lower PostgresTagged.geometricTypes) eqn:Hg; simpl.
      * eexists. split; [done|]. split; [|done].
        unfold PostgresTagged.geometricMessage. find_factor.
      * eexists. split; [done|]. unfold PostgresTagged.unrecognizedMessage.
        split; [|split; [|done]]; [|intros _]; find_factor.
    + intros [He|Hc].
      * rewrite bool_decide_eq_true_2 by done. eauto.
      * case_bool_decide; [eauto|].
        destruct (tagged_baseType_classified (id_name ty) (col_name c) lower Hc) as [t ->].
        simpl. eauto.
Qed.

Lemma columnType_totality_and_strictness_witness :
  exists msg,
    PostgresTagged.columnType ∅
      (Some (mkColumn "location" true false 0 (Some (typeNamed "hstore"))))
    = Throw (JsError msg)
    /\ Js.includes msg "hstore" = true.
Proof.
  destruct (columnType_totality_and_strictness ∅
              (Some (mkColumn "location" true false 0 (Some (typeNamed "hstore")))))
    as [_ H].
  destruct (H _ _ eq_refl eq_refl) as [H1 _].
  destruct (H1 eq_refl eq_refl) as (msg & Hm & Hi & _).
  exists msg. split; [exact Hm | exact Hi].
Defined.

(** ** Row accessors of the positional driver *)

Lemma toLowerCase_length (s : string) : String.length (Js.toLowerCase s) = String.length s.
Proof. induction s as [|c s IH]; simpl; [done | by rewrite IH]. Qed.

Lemma append_length (a b : string) :
  String.length (a +:+ b) = String.length a + String.length b.
Proof.
  induction a as [|c a IH]; [done|].
  rewrite append_cons. simpl. by rewrite IH.
Qed.

Lemma oneOf_In (s : string) (l : list string) : oneOf s l = true <-> In s l.
Proof.
  unfold oneOf. rewrite existsb_exists. split.
  - intros (x & Hx & ->%String.eqb_eq). done.
  - intros H. exists s. split; [done | apply String.eqb_refl].
Qed.

(** A name that lower-cases to a wide-integer name carries no prefix. *)
Lemma bigint_name_unqualified (n : string) :
  In (Js.toLowerCase n) PostgresCommon.BIGINT_TYPES -> stripPgCatalog n = n.
Proof.
  intros Hin. unfold stripPgCatalog, Js.startsWith.
  destruct (String.prefix pgCatalog n) eqn:Hp; [|done].
  exfalso. apply prefix_inv in Hp as [r ->].
  assert (Hlen : 11 <= String.length (Js.toLowerCase (pgCatalog +:+ r))).
  { rewrite toLowerCase_length, append_length. simpl. lia. }
  remember (Js.toLowerCase (pgCatalog +:+ r)) as lowered eqn:Hl. clear Hl.
  simpl in Hin. destruct Hin as [H|[H|[H|[H|[]]]]]; rewrite <- H in Hlen; simpl in Hlen; lia.
Qed.

(** The wide-integer test of the code, told by the shape of the name. *)
Lemma isBigIntType_iff (col : Column) :
  PostgresCommon.isBigIntType (Some col) = true <->
  exists ty n,
    col_type col = Some ty /\
    (id_name ty = n \/ id_name ty = pgCatalog +:+ n) /\
    In (Js.toLowerCase n) PostgresCommon.BIGINT_TYPES.
Proof.
  unfold PostgresCommon.isBigIntType. split.
  - destruct (col_type col) as [ty|]; [|done].
    destruct (String.eqb_spec (id_name ty) EmptyString) as [|Hne]; [done|].
    intros H%oneOf_In. exists ty.
    unfold stripPgCatalog, Js.startsWith in H.
    destruct (String.prefix pgCatalog (id_name ty)) eqn:Hp.
    + apply prefix_inv in Hp as [r Hr]. exists r.
      rewrite Hr, sliceFrom_app in H. auto.
    + exists (id_name ty). auto.
  - intros (ty & n & -> & Hn & Hin).
    assert (Hstrip : stripPgCatalog (id_name ty) = n).
    { destruct Hn as [->| ->]; [by apply bigint_name_unqualified|].
      unfold stripPgCatalog, Js.startsWith. by rewrite prefix_app, sliceFrom_app. }
    destruct (String.eqb_spec (id_name ty) EmptyString) as [He|_].
    + exfalso. destruct Hn as [Hn|Hn]; rewrite He in Hn; [|done].
      subst n. simpl in Hin. intuition discriminate.
    + rewrite Hstrip. by apply oneOf_In.
Qed.

Section RowAccess.

Variable db : list (list (string * Value)).
Variable jsNumber : Value -> Value.
Variable env : list (string * option Value).
Variable vals : list Value.

Hypothesis row_bound : JsMap.get "row" env = Some (Some (VArray vals)).
Hypothesis Number_global : JsMap.get "Number" env = None.

Lemma rowAccess_eval (i : nat) :
  Interp.evalExpr db jsNumber env (rowAccess i) = Ok (default VUndefined (vals !! i)).
Proof.
  simpl. unfold Interp.lookup. rewrite row_bound. simpl.
  destruct (Z.leb_spec 0 (Z.of_nat i)); [|lia]. by rewrite Nat2Z.id.
Qed.

Lemma numberCall_eval (i : nat) :
  Interp.evalExpr db jsNumber env (numberCall i)
  = Ok (jsNumber (default VUndefined (vals !! i))).
Proof.
  unfold numberCall. cbn [Interp.evalExpr mapM]. rewrite rowAccess_eval.
  unfold Interp.lookup. rewrite Number_global. done.
Qed.

(** What a row accessor evaluates to. *)
Lemma createRowAccessExpression_eval (col : Column) (i : nat) :
  Interp.evalExpr db jsNumber env (PostgresCommon.createRowAccessExpression col i)
  = Ok (if PostgresCommon.isBigIntType (Some col)
        then narrowed jsNumber (col_notNull col) (default VUndefined (vals !! i))
        else default VUndefined (vals !! i)).
Proof.
  unfold PostgresCommon.createRowAccessExpression.
  fold (rowAccess i). fold (numberCall i). fold (guardedNumberCall i).
  destruct (PostgresCommon.isBigIntType (Some col)); simpl negb; cbv iota.
  - unfold narrowed. destruct (col_notNull col); [apply numberCall_eval|].
    unfold guardedNumberCall. cbn [Interp.evalExpr]. rewrite rowAccess_eval.
    cbn [mbind result_bind]. fold (numberCall i). rewrite numberCall_eval.
    by destruct (default VUndefined (vals !! i)).
  - apply rowAccess_eval.
Qed.

End RowAccess.

(** C10, as stated, fails: an upper-case [PG_CATALOG.] prefix is not
    stripped, so the column is read without conversion. *)
Lemma rowAccess_uppercase_prefix_not_narrowed :
  ~ (forall (col : Column) (i : nat),
       isBigIntTypeAnyCase col = true -> col_notNull col = true ->
       PostgresCommon.createRowAccessExpression col i = numberCall i).
Proof.
  intros H.
  specialize (H (mkColumn "id" true false 0 (Some (typeNamed "PG_CATALOG.int8"))) 2
                eq_refl eq_refl).
  discriminate H.
Qed.

(** C10 (amended).  In the positional-array driver a result column is
    wide exactly when its type name is [n] or ["pg_catalog." ++ n]
    (prefix in this exact case) with [n], lower-cased, one of int8,
    bigint, bigserial, serial8.  For a wide column the accessor is
    [Number(row[i])], guarded as [row[i] === null ? null : Number(row[i])]
    when the column is nullable; every other column is read as [row[i]].
    Run on a row, the accessor yields the raw value for other columns,
    and for wide ones its [Number] conversion, [null] staying [null]
    when nullable. *)
Theorem createRowAccessExpression_narrows
        (db : list (list (string * Value))) (jsNumber : Value -> Value)
        (env : list (string * option Value)) (vals : list Value)
        (col : Column) (i : nat) :
  JsMap.get "row" env = Some (Some (VArray vals)) ->
  JsMap.get "Number" env = None ->
  let v := default VUndefined (vals !! i) in
  let wide :=
    exists ty n,
      col_type col = Some ty /\
      (id_name ty = n \/ id_name ty = pgCatalog +:+ n) /\
      In (Js.toLowerCase n) PostgresCommon.BIGINT_TYPES in
  (wide -> col_notNull col = true ->
   PostgresCommon.createRowAccessExpression col i = numberCall i) /\
  (wide -> col_notNull col = false ->
   PostgresCommon.createRowAccessExpression col i = guardedNumberCall i) /\
  (~ wide -> PostgresCommon.createRowAccessExpression col i = rowAccess i) /\
  Interp.evalExpr db jsNumber env (PostgresCommon.createRowAccessExpression col i) =
    Ok (if PostgresCommon.isBigIntType (Some col)
        then narrowed jsNumber (col_notNull col) v
        else v) /\
  (PostgresCommon.isBigIntType (Some col) = true <-> wide).
Proof.
  intros Hrow Hnum v wide.
  pose proof (isBigIntType_iff col) as Hiff. fold wide in Hiff.
  pose proof (createRowAccessExpression_eval db jsNumber env vals Hrow Hnum col i) as Hev.
  fold v in Hev.
  split; [|split; [|split; [|split; [exact Hev | exact Hiff]]]];
    unfold PostgresCommon.createRowAccessExpression;
    fold (rowAccess i); fold (numberCall i); fold (guardedNumberCall i).
  - intros Hw%Hiff Hnn. by rewrite Hw, Hnn.
  - intros Hw%Hiff Hnn. by rewrite Hw, Hnn.
  - intros Hw. destruct (PostgresCommon.isBigIntType (Some col)); [|done].
    exfalso. by apply Hw, Hiff.
Qed.

Lemma createRowAccessExpression_narrows_witness :
  Interp.evalExpr [] (fun _ => VNumber 7)
    [("row", Some (VArray [VString "7"; VNull]))]
    (PostgresCommon.createRowAccessExpression
       (mkColumn "parent_id" false false 0 (Some (typeNamed "pg_catalog.INT8"))) 1)
  = Ok VNull.
Proof.
  apply (createRowAccessExpression_narrows [] (fun _ => VNumber 7)
           [("row", Some (VArray [VString "7"; VNull]))] [VString "7"; VNull]
           (mkColumn "parent_id" false false 0 (Some (typeNamed "pg_catalog.INT8"))) 1
           eq_refl eq_refl).
Defined.

(** ** Insertion-ordered maps *)

Lemma JsMap_get_set_eq {V : Type} (k : string) (v : V) (m : list (string * V)) :
  JsMap.get k (JsMap.set k v m) = Some v.
Proof.
  induction m as [|[k' v'] m IH]; simpl.
  - by rewrite String.eqb_refl.
  - destruct (String.eqb_spec k' k) as [->|Hne]; simpl.
    + by rewrite String.eqb_refl.
    + destruct (String.eqb_spec k' k); [done | apply IH].
Qed.

Lemma JsMap_get_set_ne {V : Type} (k k' : string) (v : V) (m : list (string * V)) :
  k <> k' -> JsMap.get k' (JsMap.set k v m) = JsMap.get k' m.
Proof.
  intros Hne. induction m as [|[k0 v0] m IH]; simpl.
  - destruct (String.eqb_spec k k'); [done | done].
  - destruct (String.eqb_spec k0 k) as [->|Hne0]; simpl.
    + destruct (String.eqb_spec k k'); [done | done].
    + destruct (String.eqb_spec k0 k'); [done | apply IH].
Qed.

Lemma JsMap_get_In {V : Type} (k : string) (v : V) (m : list (string * V)) :
  JsMap.get k m = Some v -> In (k, v) m.
Proof.
  induction m as [|[k' v'] m IH]; simpl; [done|].
  destruct (String.eqb_spec k' k) as [->|Hne]; intros H.
  - left. congruence.
  - right. by apply IH.
Qed.

(** ** Loops that may throw *)

Lemma foldM_app {A S : Type} (f : S -> A -> result S) (l1 l2 : list A) (s : S) :
  App.foldM f (l1 ++ l2) s = App.foldM f l1 s ≫= App.foldM f l2.
Proof.
  revert s. induction l1 as [|x l1 IH]; intros s; simpl; [done|].
  destruct (f s x); simpl; [apply IH | done].
Qed.

(** A step that throws from every state aborts the whole loop. *)
Lemma foldM_aborts {A S : Type} (f : S -> A -> result S) (l : list A) (x : A) (s : S) :
  In x l -> (forall s', exists e, f s' x = Throw e) -> exists e, App.foldM f l s = Throw e.
Proof.
  intros Hin Hx. revert s. induction l as [|y l IH]; intros s; [done|].
  simpl. destruct Hin as [->|Hin].
  - destruct (Hx s) as [e ->]. by exists e.
  - destruct (f s y) as [s'|e]; simpl; [by apply IH | by exists e].
Qed.

(** ** Grouping queries by file *)

Lemma groupStep_get_eq (m : list (string * list Query)) (q : Query) :
  JsMap.get (q_filename q) (App.groupStep m q)
  = Some (default [] (JsMap.get (q_filename q) m) ++ [q]).
Proof.
  unfold App.groupStep, JsMap.has.
  destruct (JsMap.get (q_filename q) m) as [qs|] eqn:Hg.
  - rewrite Hg. by rewrite JsMap_get_set_eq.
  - rewrite JsMap_get_set_eq. by rewrite JsMap_get_set_eq.
Qed.

Lemma groupStep_get_ne (m : list (string * list Query)) (q : Query) (fn : string) :
  q_filename q <> fn -> JsMap.get fn (App.groupStep m q) = JsMap.get fn m.
Proof.
  intros Hne. unfold App.groupStep, JsMap.has.
  destruct (JsMap.get (q_filename q) m) as [qs|] eqn:Hg.
  - rewrite Hg. by rewrite JsMap_get_set_ne.
  - rewrite JsMap_get_set_eq. by rewrite !JsMap_get_set_ne.
Qed.

Lemma groupStep_keeps (m : list (string * list Query)) (q q0 : Query) (l : list Query) :
  JsMap.get (q_filename q0) m = Some l -> In q0 l ->
  exists l', JsMap.get (q_filename q0) (App.groupStep m q) = Some l' /\ In q0 l'.
Proof.
  intros Hg Hin.
  destruct (decide (q_filename q = q_filename q0)) as [Heq|Hne].
  - rewrite <- Heq, groupStep_get_eq, Heq, Hg. simpl.
    eexists. split; [done|]. apply in_or_app. by left.
  - rewrite groupStep_get_ne by done. eauto.
Qed.

Lemma group_fold_keeps (qs : list Query) (m : list (string * list Query))
      (q0 : Query) (l : list Query) :
  JsMap.get (q_filename q0) m = Some l -> In q0 l ->
  exists l', JsMap.get (q_filename q0) (fold_left App.groupStep qs m) = Some l' /\ In q0 l'.
Proof.
  revert m l. induction qs as [|q qs IH]; intros m l Hg Hin; simpl; [eauto|].
  destruct (groupStep_keeps m q q0 l Hg Hin) as (l' & Hg' & Hin').
  by apply (IH _ l').
Qed.

(** Every query is listed in the group of its file. *)
Lemma groupQueries_In (queries : list Query) (q : Query) :
  In q queries ->
  exists qs, In (q_filename q, qs) (App.groupQueries queries) /\ In q qs.
Proof.
  intros Hin.
  assert (H : forall m, exists l,
             JsMap.get (q_filename q) (fold_left App.groupStep queries m) = Some l /\ In q l).
  { induction queries as [|q' queries IH]; [done|]. intros m. simpl.
    destruct Hin as [->|Hin]; [|by apply IH].
    eapply group_fold_keeps; [apply groupStep_get_eq|].
    apply in_or_app. right. by left. }
  destruct (H []) as (l & Hg & Hl). exists l. split; [|done].
  by apply JsMap_get_In.
Qed.

(** ** Output files: name and header *)

Lemma printNode_from_header (printer : Node -> string) (nodes : list Node) (out : string) :
  String.prefix App.header out = true ->
  String.prefix App.header
    (fold_left (fun output node => (output +:+ printer node) +:+ newline +:+ newline)
               nodes out) = true.
Proof.
  revert out. induction nodes as [|n nodes IH]; intros out Hp; simpl; [done|].
  apply IH. apply prefix_inv in Hp as [r ->].
  rewrite !append_assoc. apply prefix_app.
Qed.

Lemma printNode_header (printer : Node -> string) (nodes : list Node) :
  String.prefix App.header (App.printNode printer nodes) = true.
Proof.
  apply printNode_from_header.
  pose proof (prefix_app App.header EmptyString) as H. by rewrite append_nil_r in H.
Qed.

Lemma replace_absent (s pat rep : string) :
  Js.includes s pat = false -> Js.replace s pat rep = s.
Proof.
  induction s as [|c s IH]; simpl; intros H.
  - apply orb_false_iff in H as [H _]. by rewrite H.
  - apply orb_false_iff in H as [Hp Hi]. rewrite Hp. by rewrite IH.
Qed.

Lemma prefix_dot (c : ascii) (s : string) :
  String.prefix "." (String c s) = Ascii.eqb c ".".
Proof.
  change (String.prefix "." (String c s))
    with (if ascii_dec "." c then String.prefix EmptyString s else false).
  destruct (ascii_dec "." c) as [<-|Hne].
  - by destruct s.
  - symmetry. apply Ascii.eqb_neq. congruence.
Qed.

Lemma includes_cons_dot (c : ascii) (s : string) :
  Js.includes (String c s) "." = Ascii.eqb c "." || Js.includes s ".".
Proof.
  change (Js.includes (String c s) ".")
    with (String.prefix "." (String c s) || Js.includes s ".").
  by rewrite prefix_dot.
Qed.

(** The output name, told by the position of the first dot. *)
Lemma outputName_first_dot (a b : string) :
  Js.includes a "." = false ->
  App.outputName (a +:+ "." +:+ b) = (a +:+ "_" +:+ b) +:+ ".ts".
Proof.
  intros Ha. unfold App.outputName. f_equal.
  induction a as [|c a IH].
  - rewrite !append_nil_l. by destruct b.
  - rewrite (append_cons c a ("." +:+ b)), (append_cons c a ("_" +:+ b)).
    rewrite includes_cons_dot in Ha.
    apply orb_false_iff in Ha as [Hc Ha].
    change (Js.replace (String c (a +:+ "." +:+ b)) "." "_")
      with (if String.prefix "." (String c (a +:+ "." +:+ b))
            then "_" +:+ Js.sliceFrom 1 (String c (a +:+ "." +:+ b))
            else String c (Js.replace (a +:+ "." +:+ b) "." "_")).
    rewrite prefix_dot, Hc. f_equal. by apply IH.
Qed.

Lemma outputName_no_dot (a : string) :
  Js.includes a "." = false -> App.outputName a = a +:+ ".ts".
Proof. intros Ha. unfold App.outputName. by rewrite replace_absent. Qed.

Section FileNames.

Variables argName colName : nat -> option Column -> string.
Variable printer : Node -> string.

Lemma emitFile_files (enumMap : gmap string Enum)
      (groups : list (string * list Query)) (acc : list File * list string)
      (files : list File) (used : list string) :
  App.foldM (App.emitFile argName colName printer enumMap) groups acc = Ok (files, used) ->
  exists new,
    files = fst acc ++ new /\
    Forall2 (fun f entry =>
               file_name f = App.outputName (fst entry) /\
               String.prefix App.header (file_contents f) = true)
            new groups.
Proof.
  revert acc. induction groups as [|[fn qs] groups IH]; intros [fs us] H; simpl in H.
  - simplify_eq. exists []. split; [by rewrite app_nil_r | constructor].
  - destruct (App.fileNodes argName colName enumMap us fn qs) as [[nodes us']|e] eqn:Hn;
      simpl in H; [|done].
    destruct (IH _ H) as (new & -> & HF). simpl.
    exists (mkFile (App.outputName fn) (App.printNode printer nodes) :: new).
    split; [by rewrite <- app_assoc|].
    constructor; [|done]. split; [done | apply printNode_header].
Qed.

End FileNames.

(** C8, as stated, fails: the file generated for [query.sql] is named
    [query_sql.ts], not [query.ts]. *)
Lemma codegen_output_name_keeps_extension :
  ~ (forall (input : GenerateRequest) (files : list File) (q : Query),
       App.codegen Utils.argName Utils.colName samplePrinter input = Ok files ->
       In q (req_queries input) ->
       exists f, In f files /\ file_name f = replaceExtension (q_filename q) "ts").
Proof.
  intros H.
  destruct (H (requestOf [deleteAuthor]) _ deleteAuthor eq_refl (or_introl eq_refl))
    as (f & Hin & Hname).
  destruct Hin as [<-|[]]. vm_compute in Hname. discriminate Hname.
Qed.

(** C8 (amended).  Whenever generation succeeds, every input query
    filename has a generated file whose name is that filename with its
    first dot (if any) replaced by an underscore, followed by [.ts], and
    whose content begins with the fixed header comment. *)
Theorem codegen_file_names_and_header
        (argName colName : nat -> option Column -> string) (printer : Node -> string)
        (input : GenerateRequest) (files : list File) (q : Query) :
  App.codegen argName colName printer input = Ok files ->
  In q (req_queries input) ->
  (exists f,
     In f files /\
     file_name f = App.outputName (q_filename q) /\
     String.prefix ("// Code generated by sqlc. DO NOT EDIT." +:+ newline +:+ newline)
                   (file_contents f) = true) /\
  (forall a b, Js.includes a "." = false ->
               App.outputName (a +:+ "." +:+ b) = (a +:+ "_" +:+ b) +:+ ".ts") /\
  (forall a, Js.includes a "." = false -> App.outputName a = a +:+ ".ts").
Proof.
  intros Hc Hq. split; [|split; [apply outputName_first_dot | apply outputName_no_dot]].
  unfold App.codegen in Hc.
  destruct (App.foldM _ _ _) as [[fs used]|e] eqn:Hf; simpl in Hc; [|done].
  simplify_eq.
  apply emitFile_files in Hf as (new & -> & HF). simpl in *.
  destruct (groupQueries_In _ _ Hq) as (qs & Hin & _).
  apply list_elem_of_In in Hin.
  destruct (proj1 (list_elem_of_lookup _ _) Hin) as [i Hi].
  destruct (Forall2_lookup_r _ _ _ _ _ HF Hi) as (f & Hfi & Hname & Hhead).
  exists f. split; [|done].
  apply list_elem_of_In, list_elem_of_lookup. eauto.
Qed.

Lemma codegen_file_names_and_header_witness :
  exists f,
    In f [mkFile "query_sql.ts"
            (App.printNode samplePrinter
               [ImportDeclaration true None "Sql" "postgres";
                InterfaceDeclaration "DeleteAuthorArgs" [("id", KeywordTypeNode NumberKeyword)];
                PostgresTagged.execDecl Utils.argName "deleteAuthor" (q_text deleteAuthor)
                  (Some "DeleteAuthorArgs") (q_params deleteAuthor)])] /\
    file_name f = App.outputName "query.sql".
Proof.
  destruct (codegen_file_names_and_header Utils.argName Utils.colName samplePrinter
              (requestOf [deleteAuthor]) _ deleteAuthor eq_refl (or_introl eq_refl))
    as [(f & Hin & Hname & _) _].
  exists f. split; [exact Hin | exact Hname].
Defined.

(** ** Declarations emitted for one query *)

Section EmitQuery.

Variables argName colName : nat -> option Column -> string.

Lemma recordEnums_nodes (enumMap : gmap string Enum) (columns : list (option Column))
      (st : App.EmitState) :
  App.st_nodes (App.recordEnums enumMap columns st) = App.st_nodes st.
Proof.
  unfold App.recordEnums. revert st.
  induction columns as [|c columns IH]; intros st; simpl; [done|].
  rewrite IH. destruct (PostgresTagged.getEnumName enumMap c); [|done].
  by destruct (String.eqb _ _).
Qed.

(** What [emitArgs] adds: nothing, or the [Args] interface. *)
Lemma emitArgs_nodes (enumMap : gmap string Enum) (filename : string) (q : Query)
      (st st' : App.EmitState) (iface : option string) :
  App.emitArgs argName enumMap filename q st = Ok (iface, st') ->
  (q_params q = [] /\ iface = None /\ App.st_nodes st' = App.st_nodes st) \/
  (q_params q <> [] /\ iface = Some (q_name q +:+ "Args") /\
   exists ms, App.st_nodes st' =
              App.st_nodes st ++ [InterfaceDeclaration (q_name q +:+ "Args") ms]).
Proof.
  unfold App.emitArgs. destruct (q_params q) as [|p ps] eqn:Hp.
  - simpl. intros H. simplify_eq. by left.
  - rewrite <- Hp. replace (0 <? length (q_params q))%nat with true
      by (rewrite Hp; done).
    destruct (assertUniqueNames _) as [[]|e]; simpl; [|done].
    destruct (App.members _ _ _) as [ms|e]; simpl; [|done].
    intros H. simplify_eq. right. split; [by rewrite Hp|]. split; [done|].
    exists ms. simpl. by rewrite recordEnums_nodes.
Qed.

(** What [emitRow] adds: nothing, or the [Row] interface. *)
Lemma emitRow_nodes (enumMap : gmap string Enum) (filename : string) (q : Query)
      (st st' : App.EmitState) (iface : option string) :
  App.emitRow colName enumMap filename q st = Ok (iface, st') ->
  (q_columns q = [] /\ iface = None /\ App.st_nodes st' = App.st_nodes st) \/
  (q_columns q <> [] /\ iface = Some (q_name q +:+ "Row") /\
   exists ms, length ms = length (q_columns q) /\
              App.st_nodes st' =
              App.st_nodes st ++ [InterfaceDeclaration (q_name q +:+ "Row") ms]).
Proof.
  unfold App.emitRow. destruct (q_columns q) as [|c cs] eqn:Hc.
  - simpl. intros H. simplify_eq. by left.
  - rewrite <- Hc. replace (0 <? length (q_columns q))%nat with true
      by (rewrite Hc; done).
    destruct (assertUniqueNames _) as [[]|e]; simpl; [|done].
    destruct (App.members _ _ _) as [ms|e] eqn:Hm; simpl; [|done].
    intros H. simplify_eq. right. split; [by rewrite Hc|]. split; [done|].
    exists ms. simpl. rewrite recordEnums_nodes. split; [|done].
    clear -Hm. unfold App.members in Hm.
    assert (Hlen : forall {A B : Type} (f : A -> result B) l r,
               mapM f l = Ok r -> length r = length l).
    { intros A B f l. induction l as [|x l IH]; intros r Hr; simpl in Hr.
      - by simplify_eq.
      - destruct (f x); simpl in Hr; [|done].
        destruct (mapM f l) eqn:Hl; simpl in Hr; [|done].
        simplify_eq. simpl. f_equal. by apply IH. }
    apply Hlen in Hm. by rewrite Hm, length_imap, length_map.
Qed.

(** What [emitFunction] adds: nothing, or one function declaration. *)
Lemma emitFunction_nodes (lowerName : string) (argIface returnIface : option string)
      (q : Query) (st st' : App.EmitState) :
  App.emitFunction argName lowerName argIface returnIface q st = Ok st' ->
  exists fs, App.st_nodes st' = App.st_nodes st ++ fs /\
             Forall (fun n => exists f, n = FunctionDeclaration f) fs /\
             (q_cmd q = ":exec" ->
              fs = [PostgresTagged.execDecl argName lowerName (q_text q) argIface
                      (q_params q)]).
Proof.
  unfold App.emitFunction.
  destruct (String.eqb_spec (q_cmd q) ":exec") as [He|He].
  { intros H. simplify_eq. eexists. split; [done|].
    split; [|done]. repeat constructor. unfold PostgresTagged.execDecl. eauto. }
  destruct (String.eqb_spec (q_cmd q) ":execlastid"); [done|].
  destruct (String.eqb_spec (q_cmd q) ":one").
  { intros H. simplify_eq. eexists. split; [done|].
    split; [|done]. repeat constructor. unfold PostgresTagged.oneDecl. eauto. }
  destruct (String.eqb_spec (q_cmd q) ":many").
  { intros H. simplify_eq. eexists. split; [done|].
    split; [|done]. repeat constructor. unfold PostgresTagged.manyDecl. eauto. }
  intros H. simplify_eq. exists []. split; [by rewrite app_nil_r|]. split; [constructor|done].
Qed.

Lemma Args_is_not_Row (name : string) : name +:+ "Args" <> name +:+ "Row".
Proof. intros H. apply (inj (String.app name)) in H. discriminate H. Qed.

End EmitQuery.

(** C2, as stated, fails: an [:exec] query that returns a column gets
    its [Row] interface like any other query. *)
Lemma exec_query_with_columns_gets_row_interface :
  ~ (forall (enumMap : gmap string Enum) (filename : string) (q : Query)
            (st st' : App.EmitState),
       App.emitQuery Utils.argName Utils.colName enumMap filename st q = Ok st' ->
       q_cmd q = ":exec" ->
       forall ms, ~ In (InterfaceDeclaration (q_name q +:+ "Row") ms) (App.st_nodes st')).
Proof.
  intros H.
  assert (Hrun : App.emitQuery Utils.argName Utils.colName ∅ "query.sql"
                   (App.mkState PostgresTagged.preamble [] []) deleteAuthorReturning
                 = Ok (App.mkState deleteAuthorReturningNodes [] []))
    by (vm_compute; reflexivity).
  apply (H _ _ _ _ _ Hrun eq_refl [("id", KeywordTypeNode NumberKeyword)]).
  right. right. by left.
Qed.

(** C2 (amended).  For every query whose emission succeeds, whatever its
    command kind and [:exec] included, the declarations added for it
    contain a result interface [<QueryName>Row] exactly when its Column
    list is non-empty; the interface has one member per column.  For
    [:exec] the last declaration added is the [execDecl] function, whose
    return type is [Promise<void>]. *)
Theorem emitQuery_row_interface
        (argName colName : nat -> option Column -> string)
        (enumMap : gmap string Enum) (filename : string) (q : Query)
        (st st' : App.EmitState) :
  App.emitQuery argName colName enumMap filename st q = Ok st' ->
  exists added,
    App.st_nodes st' = App.st_nodes st ++ added /\
    ((exists ms, In (InterfaceDeclaration (q_name q +:+ "Row") ms) added)
     <-> q_columns q <> []) /\
    (forall ms, In (InterfaceDeclaration (q_name q +:+ "Row") ms) added ->
                length ms = length (q_columns q)) /\
    (q_cmd q = ":exec" ->
     exists before f,
       added = before ++ [FunctionDeclaration f] /\
       fn_type f = TypeReferenceNode "Promise" [KeywordTypeNode VoidKeyword]).
Proof.
  unfold App.emitQuery. intros H.
  destruct (App.lowerFirst (q_name q)) as [lowerName|e]; simpl in H; [|done].
  destruct (App.emitArgs _ _ _ _ _) as [[argIface st1]|e] eqn:Ha; simpl in H; [|done].
  destruct (App.emitRow _ _ _ _ _) as [[returnIface st2]|e] eqn:Hr; simpl in H; [|done].
  apply emitArgs_nodes in Ha. apply emitRow_nodes in Hr.
  apply emitFunction_nodes in H as (fs & Hfs & Hfun & Hexec).
  assert (HnoF : forall name ms, ~ In (InterfaceDeclaration name ms) fs).
  { intros name ms Hin. rewrite Forall_forall in Hfun.
    apply list_elem_of_In in Hin. destruct (Hfun _ Hin) as [f Hf]. done. }
  assert (Hargs : exists args, App.st_nodes st1 = App.st_nodes st ++ args /\
            forall ms, ~ In (InterfaceDeclaration (q_name q +:+ "Row") ms) args).
  { destruct Ha as [(_ & _ & ->)|(_ & _ & ms & ->)].
    - exists []. split; [by rewrite app_nil_r | by intros ? []].
    - eexists. split; [done|]. intros ms' [Heq|[]].
      injection Heq as Heq _. by apply Args_is_not_Row in Heq. }
  destruct Hargs as (args & Hst1 & Hno).
  destruct Hr as [(Hc & _ & Hst2)|(Hc & _ & ms & Hlen & Hst2)].
  - exists (args ++ fs). rewrite Hfs, Hst2, Hst1, <- app_assoc.
    split; [done|]. split; [|split].
    + split; [|done]. intros (ms & [Hin|Hin]%in_app_or); [by apply Hno in Hin|].
      by apply HnoF in Hin.
    + intros ms [Hin|Hin]%in_app_or; [by apply Hno in Hin | by apply HnoF in Hin].
    + intros He. specialize (Hexec He). subst fs.
      exists args. eexists. split; [done|]. done.
  - exists (args ++ [InterfaceDeclaration (q_name q +:+ "Row") ms] ++ fs).
    rewrite Hfs, Hst2, Hst1, <- !app_assoc.
    split; [done|]. split; [|split].
    + split; [done|]. intros _. exists ms. apply in_or_app. right. by left.
    + intros ms' [Hin|[Hin|Hin]]%in_app_or; [by apply Hno in Hin | | by apply HnoF in Hin].
      by simplify_eq.
    + intros He. specialize (Hexec He). subst fs.
      exists (args ++ [InterfaceDeclaration (q_name q +:+ "Row") ms]). eexists.
      split; [by rewrite <- app_assoc | done].
Qed.

Lemma emitQuery_row_interface_witness :
  exists added,
    deleteAuthorReturningNodes = PostgresTagged.preamble ++ added /\
    ((exists ms, In (InterfaceDeclaration "DeleteAuthorRow" ms) added)
     <-> q_columns deleteAuthorReturning <> []).
Proof.
  assert (Hrun : App.emitQuery Utils.argName Utils.colName ∅ "query.sql"
                   (App.mkState PostgresTagged.preamble [] []) deleteAuthorReturning
                 = Ok (App.mkState deleteAuthorReturningNodes [] []))
    by (vm_compute; reflexivity).
  destruct (emitQuery_row_interface Utils.argName Utils.colName ∅ "query.sql"
              deleteAuthorReturning (App.mkState PostgresTagged.preamble [] []) _ Hrun)
    as (added & Hnodes & Hiff & _).
  exists added. split; [exact Hnodes | exact Hiff].
Defined.

(** ** Error propagation *)

(** [mapM] stops at the first element that throws. *)
Lemma mapM_first_error {A B : Type} (f : A -> result B) (l1 l2 : list A) (x : A) (e : exn) :
  Forall (fun y => exists b, f y = Ok b) l1 -> f x = Throw e ->
  mapM f (l1 ++ x :: l2) = Throw e.
Proof.
  intros Hok Hx. induction Hok as [|y l1 [b Hb] _ IH]; simpl.
  - by rewrite Hx.
  - rewrite Hb. simpl. by rewrite IH.
Qed.

Lemma imap_pair_app {A : Type} (l1 l2 : list A) :
  imap pair (l1 ++ l2) = imap pair l1 ++ imap (fun i x => (length l1 + i, x)) l2.
Proof. by rewrite imap_app. Qed.

(** The members of an interface fail with the error of the first
    column the mapper rejects. *)
Lemma members_first_error (enumMap : gmap string Enum)
      (name : nat -> option Column -> string)
      (cs1 cs2 : list (option Column)) (c : option Column) (e : exn) :
  Forall (fun c' => exists t, PostgresTagged.columnType enumMap c' = Ok t) cs1 ->
  PostgresTagged.columnType enumMap c = Throw e ->
  App.members enumMap name (cs1 ++ c :: cs2) = Throw e.
Proof.
  intros Hok Hc. unfold App.members. rewrite imap_pair_app. simpl.
  apply mapM_first_error; [|by rewrite Hc].
  apply Forall_forall. intros [i c'] Hin.
  apply list_elem_of_lookup in Hin as [j Hj].
  rewrite list_lookup_imap in Hj.
  destruct (cs1 !! j) as [c''|] eqn:Hl; simpl in Hj; [|done]. simplify_eq.
  rewrite Forall_forall in Hok.
  destruct (Hok c') as [t Ht]; [by eapply list_elem_of_lookup_2|].
  rewrite Ht. simpl. eauto.
Qed.

Section Propagation.

Variables argName colName : nat -> option Column -> string.
Variable printer : Node -> string.

(** A query on which [emitQuery] throws from every state makes
    [fileNodes] throw from every state. *)
Lemma fileNodes_aborts (enumMap : gmap string Enum) (used : list string)
      (filename : string) (qs : list Query) (q : Query) :
  In q qs ->
  (forall st, exists e, App.emitQuery argName colName enumMap filename st q = Throw e) ->
  exists e, App.fileNodes argName colName enumMap used filename qs = Throw e.
Proof.
  intros Hin Hq. unfold App.fileNodes.
  destruct (foldM_aborts (App.emitQuery argName colName enumMap filename) qs q
              (App.mkState PostgresTagged.preamble [] used) Hin Hq) as [e ->].
  by exists e.
Qed.

Lemma codegen_aborts (input : GenerateRequest) (q : Query) :
  In q (req_queries input) ->
  (forall st, exists e,
      App.emitQuery argName colName (App.buildEnumMap input) (q_filename q) st q = Throw e) ->
  exists e, App.codegen argName colName printer input = Throw e.
Proof.
  intros Hin Hq. unfold App.codegen.
  destruct (groupQueries_In _ _ Hin) as (qs & Hg & Hqs).
  destruct (foldM_aborts (App.emitFile argName colName printer (App.buildEnumMap input))
              (App.groupQueries (req_queries input)) (q_filename q, qs) ([], []) Hg)
    as [e He].
  - intros [files used]. simpl.
    destruct (fileNodes_aborts (App.buildEnumMap input) used (q_filename q) qs q Hqs Hq)
      as [e ->].
    by exists e.
  - rewrite He. by exists e.
Qed.

End Propagation.

(** C9, as stated, fails: the unsupported-operation error of
    [:execlastid] reaches the caller as raised, without the query's name
    or filename around it. *)
Lemma execlastid_error_is_not_wrapped :
  ~ (forall (input : GenerateRequest) (e : exn),
       App.codegen Utils.argName Utils.colName samplePrinter input = Throw e ->
       exists q e0, In q (req_queries input) /\
                    e = App.wrapError (q_name q) (q_filename q) e0).
Proof.
  intros H.
  assert (Hrun : App.codegen Utils.argName Utils.colName samplePrinter
                   (requestOf [insertAuthorId])
                 = Throw (JsError "postgres driver does not support :execlastid"))
    by (vm_compute; reflexivity).
  destruct (H _ _ Hrun) as (q & e0 & _ & Hw).
  unfold App.wrapError in Hw. discriminate Hw.
Qed.

(** ** The enum catalog builder *)

Lemma fold_left_flat_map {A B S : Type} (f : S -> B -> S) (g : A -> list B)
      (l : list A) (s : S) :
  fold_left f (flat_map g l) s = fold_left (fun s a => fold_left f (g a) s) l s.
Proof.
  revert s. induction l as [|a l IH]; intros s; simpl; [done|].
  by rewrite fold_left_app, IH.
Qed.

Lemma registerSchema_writes (d : string) (m : gmap string Enum) (s : Schema) :
  App.registerSchema d m s = fold_left insertPair (enumRegistrations d s) m.
Proof.
  unfold App.registerSchema, enumRegistrations.
  destruct (App.isSystemSchema (schema_name s)); [done|].
  rewrite fold_left_flat_map. revert m.
  induction (schema_enums s) as [|e es IH]; intros m; simpl; [done|].
  rewrite <- IH. f_equal. unfold App.registerEnum, insertPair.
  by destruct (negb _).
Qed.

(** The builder performs the writes of [registrations], in order. *)
Lemma buildEnumMap_writes (input : GenerateRequest) :
  App.buildEnumMap input = fold_left insertPair (registrations input) ∅.
Proof.
  unfold App.buildEnumMap, registrations. rewrite fold_left_flat_map.
  generalize (∅ : gmap string Enum).
  induction (App.schemasOf input) as [|s ss IH]; intros m; simpl; [done|].
  by rewrite registerSchema_writes, IH.
Qed.

Lemma lookup_writes (k : string) (writes : list (string * Enum)) (m : gmap string Enum) :
  fold_left insertPair writes m !! k =
    match lastWrite k writes with
    | Some e => Some e
    | None => m !! k
    end.
Proof.
  revert m. induction writes as [|[k' e] writes IH]; intros m; simpl; [done|].
  rewrite IH. destruct (lastWrite k writes); [done|].
  unfold insertPair. simpl.
  destruct (String.eqb_spec k' k) as [->|Hne].
  - by rewrite lookup_insert_eq.
  - by rewrite lookup_insert_ne.
Qed.

Lemma lastWrite_last (k : string) (e : Enum) (l1 l2 : list (string * Enum)) :
  ~ In k (map fst l2) -> lastWrite k (l1 ++ (k, e) :: l2) = Some e.
Proof.
  intros Hno.
  assert (H2 : lastWrite k l2 = None).
  { induction l2 as [|[k' e'] l2 IH]; simpl; [done|].
    rewrite IH by (intros ?; apply Hno; by right).
    destruct (String.eqb_spec k' k) as [->|]; [|done].
    exfalso. apply Hno. by left. }
  induction l1 as [|[k' e'] l1 IH]; simpl.
  - by rewrite H2, String.eqb_refl.
  - by rewrite IH.
Qed.

Lemma lastWrite_In (k : string) (e : Enum) (l : list (string * Enum)) :
  lastWrite k l = Some e -> In (k, e) l.
Proof.
  induction l as [|[k' e'] l IH]; simpl; [done|].
  destruct (lastWrite k l) as [e''|].
  - intros H. simplify_eq. right. by apply IH.
  - destruct (String.eqb_spec k' k) as [->|]; [|done].
    intros H. simplify_eq. by left.
Qed.

Lemma In_lastWrite (k : string) (e : Enum) (l : list (string * Enum)) :
  In (k, e) l -> is_Some (lastWrite k l).
Proof.
  induction l as [|[k' e'] l IH]; simpl; [done|].
  intros [Heq|Hin].
  - simplify_eq. destruct (lastWrite k l); [done|]. by rewrite String.eqb_refl.
  - destruct (IH Hin) as [x ->]. done.
Qed.

Lemma In_registrations (input : GenerateRequest) (k : string) (e : Enum) :
  In (k, e) (registrations input) <->
  exists s, In s (App.schemasOf input) /\
            App.isSystemSchema (schema_name s) = false /\
            In e (schema_enums s) /\
            (k = enum_name e \/
             (schema_name s <> App.defaultSchemaOf input /\
              k = schema_name s +:+ "." +:+ enum_name e)).
Proof.
  unfold registrations. rewrite in_flat_map. split.
  - intros (s & Hs & Hin). exists s. split; [done|].
    unfold enumRegistrations in Hin.
    destruct (App.isSystemSchema (schema_name s)); [done|]. split; [done|].
    apply in_flat_map in Hin as (e' & He' & [Heq|Hin]).
    + simplify_eq. auto.
    + destruct (String.eqb_spec (schema_name s) (App.defaultSchemaOf input)); [done|].
      destruct Hin as [Heq|[]]. simplify_eq. auto.
  - intros (s & Hs & Hsys & He & Hk). exists s. split; [done|].
    unfold enumRegistrations. rewrite Hsys. apply in_flat_map. exists e. split; [done|].
    destruct Hk as [->|[Hne ->]]; [by left|]. right.
    destruct (String.eqb_spec (schema_name s) (App.defaultSchemaOf input)); [done|].
    by left.
Qed.

(** C3, as stated, fails: when two schemas define an enum of the same
    bare name, the bare key holds the definition written last. *)
Lemma bare_enum_key_is_not_first_write_wins :
  ~ (forall (input : GenerateRequest) (k : string),
       App.buildEnumMap input !! k = firstWrite k (registrations input)).
Proof.
  intros H. specialize (H twoStatusCatalog "status").
  vm_compute in H. discriminate H.
Qed.

(** C3 (amended).  For every catalog the enum catalog builder registers
    each enum of every non-system schema under its bare name and, when
    its schema is not the default schema, also under [schema.name]; a
    schema that is the default one contributes bare names only; every
    key of the map comes from such a registration; a key written more
    than once holds the definition written last (last-write-wins); and
    an empty catalog yields an empty map. *)
Theorem buildEnumMap_registers (input : GenerateRequest) :
  let enumMap := App.buildEnumMap input in
  (forall s e,
     In s (App.schemasOf input) -> App.isSystemSchema (schema_name s) = false ->
     In e (schema_enums s) ->
     In (enum_name e, e) (registrations input) /\
     is_Some (enumMap !! enum_name e) /\
     (schema_name s <> App.defaultSchemaOf input ->
      In (schema_name s +:+ "." +:+ enum_name e, e) (registrations input) /\
      is_Some (enumMap !! (schema_name s +:+ "." +:+ enum_name e)))) /\
  (forall s,
     schema_name s = App.defaultSchemaOf input ->
     App.isSystemSchema (schema_name s) = false ->
     enumRegistrations (App.defaultSchemaOf input) s
     = map (fun e => (enum_name e, e)) (schema_enums s)) /\
  (forall k e,
     enumMap !! k = Some e ->
     exists s, In s (App.schemasOf input) /\
               App.isSystemSchema (schema_name s) = false /\
               In e (schema_enums s) /\
               (k = enum_name e \/
                (schema_name s <> App.defaultSchemaOf input /\
                 k = schema_name s +:+ "." +:+ enum_name e))) /\
  (forall k, enumMap !! k = lastWrite k (registrations input)) /\
  (forall k e before after,
     registrations input = before ++ (k, e) :: after ->
     ~ In k (map fst after) ->
     enumMap !! k = Some e) /\
  (App.schemasOf input = [] -> enumMap = ∅).
Proof.
  intros enumMap.
  assert (Hlook : forall k, enumMap !! k = lastWrite k (registrations input)).
  { intros k. subst enumMap. rewrite buildEnumMap_writes, lookup_writes.
    by destruct (lastWrite k (registrations input)). }
  split; [|split; [|split; [|split; [|split]]]].
  - intros s e Hs Hsys He.
    assert (Hbare : In (enum_name e, e) (registrations input)).
    { apply In_registrations. exists s. auto. }
    split; [done|]. split.
    { rewrite Hlook. by eapply In_lastWrite. }
    intros Hne.
    assert (Hq : In (schema_name s +:+ "." +:+ enum_name e, e) (registrations input)).
    { apply In_registrations. exists s. auto 10. }
    split; [done|]. rewrite Hlook. by eapply In_lastWrite.
  - intros s Hd Hsys. unfold enumRegistrations. rewrite Hsys, Hd, String.eqb_refl. simpl.
    induction (schema_enums s) as [|e es IH]; simpl; [done | by rewrite IH].
  - intros k e Hk. rewrite Hlook in Hk. by apply lastWrite_In, In_registrations in Hk.
  - done.
  - intros k e before after Hreg Hno. rewrite Hlook, Hreg. by apply lastWrite_last.
  - intros Hempty. subst enumMap. unfold App.buildEnumMap. by rewrite Hempty.
Qed.

Lemma buildEnumMap_registers_witness :
  App.buildEnumMap twoStatusCatalog !! "status" = Some (mkEnum "status" ["archived"]).
Proof.
  destruct (buildEnumMap_registers twoStatusCatalog) as (_ & _ & _ & _ & Hlast & _).
  apply (Hlast "status" (mkEnum "status" ["archived"])
           [("status", mkEnum "status" ["active"; "inactive"])]
           [("audit.status", mkEnum "status" ["archived"])]).
  - reflexivity.
  - simpl. intros [H|[]]. discriminate H.
Defined.

(** ** The uniqueness validator *)

Lemma JsMap_has_In {V : Type} (k : string) (m : list (string * V)) :
  JsMap.has k m = true <-> In k (map fst m).
Proof.
  unfold JsMap.has. induction m as [|[k' v] m IH]; simpl; [done|].
  destruct (String.eqb_spec k' k) as [->|Hne].
  - split; [by left | done].
  - rewrite IH. split; [by right | by intros [?|?]].
Qed.

Lemma JsMap_set_keys {V : Type} (k : string) (v : V) (m : list (string * V)) :
  map fst (JsMap.set k v m) = if JsMap.has k m then map fst m else map fst m ++ [k].
Proof.
  unfold JsMap.has. induction m as [|[k' v'] m IH]; simpl; [done|].
  destruct (String.eqb_spec k' k) as [->|Hne]; simpl; [done|].
  rewrite IH. by destruct (JsMap.get k m).
Qed.

Lemma JsMap_set_NoDup {V : Type} (k : string) (v : V) (m : list (string * V)) :
  List.NoDup (map fst m) -> List.NoDup (map fst (JsMap.set k v m)).
Proof.
  intros Hnd. rewrite JsMap_set_keys. destruct (JsMap.has k m) eqn:Hh; [done|].
  apply List.NoDup_app; [done | repeat constructor; by intros [] |].
  intros x Hx [<-|[]]. apply JsMap_has_In in Hx. congruence.
Qed.

Lemma JsMap_In_get {V : Type} (k : string) (v : V) (m : list (string * V)) :
  List.NoDup (map fst m) -> In (k, v) m -> JsMap.get k m = Some v.
Proof.
  induction m as [|[k' v'] m IH]; simpl; [done|].
  intros [Hnotin Hnd]%List.NoDup_cons_iff [Heq|Hin].
  - simplify_eq. by rewrite String.eqb_refl.
  - destruct (String.eqb_spec k' k) as [->|Hne]; [|by apply IH].
    exfalso. apply Hnotin. apply in_map_iff. by exists (k, v).
Qed.

Lemma occurrences_snoc (n x : string) (names : list string) :
  occurrences n (names ++ [x]) = occurrences n names + (if String.eqb n x then 1 else 0).
Proof.
  unfold occurrences. rewrite List.filter_app, length_app. simpl.
  by destruct (String.eqb n x).
Qed.

Lemma countNames_snoc (names : list string) (x : string) :
  countNames (names ++ [x])
  = JsMap.set x (default 0 (JsMap.get x (countNames names)) + 1) (countNames names).
Proof. unfold countNames. by rewrite fold_left_app. Qed.

(** The counting loop counts. *)
Lemma countNames_get (names : list string) (n : string) :
  JsMap.get n (countNames names)
  = if Nat.eqb (occurrences n names) 0 then None else Some (occurrences n names).
Proof.
  induction names as [|x names IH] using rev_ind; [done|].
  rewrite countNames_snoc, occurrences_snoc.
  destruct (String.eqb_spec n x) as [->|Hne].
  - rewrite JsMap_get_set_eq, IH.
    destruct (Nat.eqb_spec (occurrences x names) 0) as [->|Hz]; simpl; [done|].
    destruct (Nat.eqb_spec (occurrences x names + 1) 0); [lia | done].
  - rewrite JsMap_get_set_ne by done. by rewrite IH, Nat.add_0_r.
Qed.

Lemma countNames_NoDup (names : list string) : List.NoDup (map fst (countNames names)).
Proof.
  induction names as [|x names IH] using rev_ind; [constructor|].
  rewrite countNames_snoc. by apply JsMap_set_NoDup.
Qed.

Lemma filter_keys_NoDup {V : Type} (f : string * V -> bool) (m : list (string * V)) :
  List.NoDup (map fst m) -> List.NoDup (map fst (List.filter f m)).
Proof.
  induction m as [|[k v] m IH]; simpl; [done|].
  intros [Hnotin Hnd]%List.NoDup_cons_iff.
  destruct (f (k, v)); simpl; [|by apply IH].
  constructor; [|by apply IH].
  intros Hin. apply Hnotin. apply in_map_iff in Hin as ([k' v'] & Hk & Hin).
  simpl in Hk. subst k'. apply List.filter_In in Hin as [Hin _].
  apply in_map_iff. by exists (k, v').
Qed.

(** The names kept by the filter are the repeated ones. *)
Lemma repeated_In (names : list string) (n : string) :
  In n (map fst (List.filter (fun entry => (1 <? snd entry)%nat) (countNames names)))
  <-> 1 < occurrences n names.
Proof.
  rewrite in_map_iff. split.
  - intros ([k c] & Hk & [Hin Hc]%List.filter_In). simpl in *. subst k.
    apply Nat.ltb_lt in Hc.
    apply JsMap_In_get in Hin; [|apply countNames_NoDup].
    rewrite countNames_get in Hin.
    destruct (Nat.eqb (occurrences n names) 0); [done|]. by simplify_eq.
  - intros Hocc. exists (n, occurrences n names). split; [done|].
    apply List.filter_In. split; [|by apply Nat.ltb_lt].
    apply JsMap_get_In. rewrite countNames_get.
    destruct (Nat.eqb_spec (occurrences n names) 0); [lia | done].
Qed.

Lemma duplicateNames_In (names : list string) (n : string) :
  In n (duplicateNames names) <-> 1 < occurrences n names.
Proof.
  rewrite <- repeated_In. unfold duplicateNames.
  rewrite <- !list_elem_of_In. by rewrite merge_sort_Permutation.
Qed.

Lemma duplicateNames_NoDup (names : list string) : List.NoDup (duplicateNames names).
Proof.
  unfold duplicateNames. apply NoDup_ListNoDup.
  rewrite merge_sort_Permutation. apply NoDup_ListNoDup.
  apply filter_keys_NoDup, countNames_NoDup.
Qed.

Lemma duplicateNames_sorted (names : list string) :
  StronglySorted String.le (duplicateNames names).
Proof. unfold duplicateNames. apply StronglySorted_merge_sort; apply _. Qed.

Lemma occurrences_cons (n x : string) (names : list string) :
  occurrences n (x :: names) = (if String.eqb n x then 1 else 0) + occurrences n names.
Proof. unfold occurrences. simpl. by destruct (String.eqb n x). Qed.

Lemma occurrences_In (n : string) (names : list string) :
  In n names <-> 0 < occurrences n names.
Proof.
  induction names as [|x names IH]; simpl; [unfold occurrences; simpl; lia|].
  rewrite occurrences_cons. destruct (String.eqb_spec n x) as [->|Hne].
  - split; [lia | by left].
  - rewrite IH. split; [intros [?|?]; [congruence | done] | by right].
Qed.

(** A list has no duplicate exactly when no name occurs twice. *)
Lemma NoDup_occurrences (names : list string) :
  List.NoDup names <-> forall n, occurrences n names <= 1.
Proof.
  induction names as [|x names IH].
  - split; [intros _ n; unfold occurrences; simpl; lia | constructor].
  - rewrite List.NoDup_cons_iff, IH. split.
    + intros [Hnotin Hle] n. rewrite occurrences_cons.
      destruct (String.eqb_spec n x) as [->|]; [|apply Hle].
      rewrite occurrences_In in Hnotin. lia.
    + intros Hle. split.
      * rewrite occurrences_In. specialize (Hle x).
        rewrite occurrences_cons, String.eqb_refl in Hle. lia.
      * intros n. specialize (Hle n). rewrite occurrences_cons in Hle. lia.
Qed.

Lemma repeated_or_NoDup (names : list string) :
  List.NoDup names \/ exists n, 1 < occurrences n names.
Proof.
  induction names as [|x names [IH|[n Hn]]].
  - left. constructor.
  - destruct (in_dec String.string_dec x names) as [Hin|Hnotin].
    + right. exists x. rewrite occurrences_cons, String.eqb_refl.
      apply occurrences_In in Hin. lia.
    + left. by constructor.
  - right. exists n. rewrite occurrences_cons. lia.
Qed.

Lemma join_includes (sep x : string) (l : list string) :
  In x l -> Js.includes (Js.join sep l) x = true.
Proof.
  unfold Js.join. induction l as [|y l IH]; [done|].
  intros [->|Hin].
  - destruct l as [|z l]; simpl; [apply includes_refl|].
    apply includes_app_l, includes_refl.
  - specialize (IH Hin). destruct l as [|z l]; [done|].
    change (String.concat sep (y :: z :: l))
      with (y +:+ sep +:+ String.concat sep (z :: l)).
    by do 2 apply includes_app_r.
Qed.

(** C5.  On a name list with a repeated element [assertUniqueNames]
    throws an error whose message contains the list of the repeated
    names, each once and in sorted order, hence every repeated name, as
    well as the query name, the source filename and the remediation
    guidance; on a list with no repeated element it does not throw. *)
Theorem assertUniqueNames_spec (options : UniqueNamesOptions) :
  let names := opt_names options in
  let duplicates := duplicateNames names in
  ((forall n, In n duplicates <-> 1 < occurrences n names) /\
   List.NoDup duplicates /\
   StronglySorted String.le duplicates) /\
  (List.NoDup names -> assertUniqueNames options = Ok tt) /\
  (~ List.NoDup names ->
   exists msg,
     assertUniqueNames options = Throw (JsError msg) /\
     Js.includes msg (duplicateList duplicates) = true /\
     (forall n, 1 < occurrences n names -> Js.includes msg ("- " +:+ n) = true) /\
     Js.includes msg (opt_queryName options) = true /\
     Js.includes msg (opt_fileName options) = true /\
     Js.includes msg remediation = true /\
     Js.includes msg "sqlc.arg/sqlc.narg" = true /\
     Js.includes msg "column aliases" = true).
Proof.
  intros names duplicates.
  split; [|split].
  - split; [apply duplicateNames_In|].
    split; [apply duplicateNames_NoDup | apply duplicateNames_sorted].
  - intros Hnd. unfold assertUniqueNames. fold names. fold duplicates.
    destruct duplicates as [|d ds] eqn:Hd; [done|].
    exfalso. assert (Hin : In d duplicates) by (rewrite Hd; by left).
    apply duplicateNames_In in Hin.
    apply NoDup_occurrences with (n := d) in Hnd. fold names in Hnd. lia.
  - intros Hdup. destruct (repeated_or_NoDup names) as [Hnd|[n Hn]]; [done|].
    assert (Hin : In n duplicates) by (by apply duplicateNames_In).
    unfold assertUniqueNames. fold names. fold duplicates.
    destruct duplicates as [|d ds] eqn:Hd; [done|]. simpl Nat.eqb. cbv iota.
    rewrite <- Hd in *. clear Hd d ds.
    eexists. split; [done|].
    assert (Hlist : Js.includes (ambiguousMessage options duplicates)
                      (duplicateList duplicates) = true).
    { unfold ambiguousMessage. apply join_includes. simpl. auto. }
    split; [done|]. split; [|split; [|split; [|split; [|split]]]].
    + intros n' Hn'. eapply includes_trans; [exact Hlist|].
      unfold duplicateList. apply join_includes, in_map_iff.
      exists n'. split; [done|]. by apply duplicateNames_In.
    + unfold ambiguousMessage. eapply includes_trans.
      * apply join_includes. left. done.
      * find_factor.
    + unfold ambiguousMessage. eapply includes_trans.
      * apply join_includes. left. done.
      * find_factor.
    + unfold ambiguousMessage. apply join_includes. simpl. auto 10.
    + unfold ambiguousMessage. eapply includes_trans.
      * apply join_includes. do 5 right. left. done.
      * vm_compute. reflexivity.
    + unfold ambiguousMessage. eapply includes_trans.
      * apply join_includes. do 5 right. left. done.
      * vm_compute. reflexivity.
Qed.

Lemma assertUniqueNames_spec_witness :
  assertUniqueNames (mkOptions ColumnKind "ListUsers" "users.sql" ["id"; "createdAt"]) = Ok tt
  /\ exists msg,
       assertUniqueNames
         (mkOptions ArgumentKind "GetJobRunStats" "scheduled_job_runs.sql"
                    ["startedAt"; "startedAt"])
       = Throw (JsError msg)
       /\ Js.includes msg "- startedAt" = true
       /\ Js.includes msg "GetJobRunStats" = true
       /\ Js.includes msg "scheduled_job_runs.sql" = true.
Proof.
  split.
  - apply (assertUniqueNames_spec
             (mkOptions ColumnKind "ListUsers" "users.sql" ["id"; "createdAt"])).
    simpl. repeat constructor; simpl; intuition discriminate.
  - destruct (assertUniqueNames_spec
                (mkOptions ArgumentKind "GetJobRunStats" "scheduled_job_runs.sql"
                           ["startedAt"; "startedAt"]))
      as (_ & _ & Hthrow).
    destruct Hthrow as (msg & Hm & _ & Hn & Hq & Hf & _).
    + simpl. intros Hnd. apply List.NoDup_cons_iff in Hnd as [Hnotin _].
      apply Hnotin. by left.
    + exists msg. split; [exact Hm|]. split; [|split; [exact Hq | exact Hf]].
      apply Hn. vm_compute. lia.
Defined.

(** ** The positional-parameter rewriter *)

Lemma sliceTo_nil (n : nat) : Js.sliceTo n EmptyString = EmptyString.
Proof. by destruct n. Qed.

Lemma sliceFrom_nil (n : nat) : Js.sliceFrom n EmptyString = EmptyString.
Proof. by destruct n. Qed.

Lemma sliceTo_sliceFrom (n : nat) (s : string) : Js.sliceTo n s +:+ Js.sliceFrom n s = s.
Proof.
  revert s. induction n as [|n IH]; intros [|c s]; try done.
  simpl. by rewrite append_cons, IH.
Qed.

Lemma sliceTo_slice (a b : nat) (s : string) :
  a <= b -> Js.sliceTo a s +:+ Js.slice a b s = Js.sliceTo b s.
Proof.
  unfold Js.slice. revert s b. induction a as [|a IH]; intros s b Hab.
  - rewrite Nat.sub_0_r. by destruct s.
  - destruct s as [|c s]; [by rewrite ?sliceFrom_nil, ?sliceTo_nil|].
    destruct b as [|b]; [lia|]. simpl. rewrite append_cons. f_equal.
    apply IH. lia.
Qed.

Lemma sliceTo_app (w c : string) : Js.sliceTo (String.length w) (w +:+ c) = w.
Proof.
  induction w as [|x w IH]; [by destruct c|].
  rewrite append_cons. simpl. by rewrite IH.
Qed.

Lemma sliceTo_marker (i : nat) (s w : string) :
  String.prefix w (Js.sliceFrom i s) = true ->
  Js.sliceTo i s +:+ w = Js.sliceTo (i + String.length w) s.
Proof.
  revert s. induction i as [|i IH]; intros s Hp.
  - simpl in Hp. apply prefix_inv in Hp as [c ->].
    simpl. rewrite sliceTo_app. by destruct (w +:+ c).
  - destruct s as [|c s].
    + destruct w; [|done]. by rewrite !sliceTo_nil.
    + simpl in *. rewrite append_cons. f_equal. by apply IH.
Qed.

Lemma takeDigits_split (s : string) :
  s = takeDigits s +:+ Js.sliceFrom (String.length (takeDigits s)) s.
Proof.
  induction s as [|c s IH]; [done|]. simpl.
  destruct (Js.isDigit c); [|done].
  simpl. rewrite append_cons. by f_equal.
Qed.

Lemma takeDigits_digits (s : string) :
  forallb Js.isDigit (String.list_ascii_of_string (takeDigits s)) = true.
Proof.
  induction s as [|c s IH]; [done|]. simpl.
  destruct (Js.isDigit c) eqn:Hc; [|done]. simpl. by rewrite Hc.
Qed.

Lemma digit_not_dollar (c : ascii) : Js.isDigit c = true -> Ascii.eqb c "$" = false.
Proof.
  intros Hd. destruct (Ascii.eqb_spec c "$") as [->|]; [|done].
  vm_compute in Hd. discriminate Hd.
Qed.

(** Resuming right after the dollar sign or after the whole match finds
    the same matches: the digits in between hold no marker. *)
Lemma matchAllFrom_skip_digits (pos : nat) (s : string) :
  matchAllFrom pos s
  = matchAllFrom (pos + String.length (takeDigits s))
                 (Js.sliceFrom (String.length (takeDigits s)) s).
Proof.
  revert pos. induction s as [|c s IH]; intros pos; [by rewrite Nat.add_0_r|].
  simpl takeDigits. destruct (Js.isDigit c) eqn:Hc.
  - simpl. rewrite (digit_not_dollar c Hc). rewrite IH. f_equal. lia.
  - simpl String.length. by rewrite Nat.add_0_r.
Qed.

(** The matches, as the regular expression engine finds them: after a
    match the search resumes behind it. *)
Lemma matchAllFrom_marker (pos : nat) (s ds : string) :
  takeDigits s = ds -> ds <> EmptyString ->
  matchAllFrom pos (String "$" s)
  = mkMatch pos (String "$" ds) ds
      :: matchAllFrom (pos + String.length (String "$" ds))
                      (Js.sliceFrom (String.length ds) s).
Proof.
  intros Hds Hne. simpl. rewrite Hds.
  destruct ds as [|d ds]; [done|]. f_equal.
  rewrite matchAllFrom_skip_digits, Hds. f_equal. simpl. lia.
Qed.

Lemma matchAllFrom_other (pos : nat) (c : ascii) (s : string) :
  Ascii.eqb c "$" = false \/ takeDigits s = EmptyString ->
  matchAllFrom pos (String c s) = matchAllFrom (S pos) s.
Proof.
  intros [Hc|Hd]; simpl.
  - by rewrite Hc.
  - rewrite Hd. by destruct (Ascii.eqb c "$").
Qed.

Lemma placed_weaken (from from' : nat) (text : string) (ms : list RegExpMatch) :
  from' <= from -> placed from text ms -> placed from' text ms.
Proof. destruct ms as [|m ms]; [done|]. simpl. intros ? (? & ? & ?). repeat split; [lia|done..]. Qed.

Lemma sliceFrom_pre (pre s : string) : Js.sliceFrom (String.length pre) (pre +:+ s) = s.
Proof. apply sliceFrom_app. Qed.

Lemma matchAllFrom_placed (n : nat) (s pre : string) :
  String.length s <= n ->
  placed (String.length pre) (pre +:+ s) (matchAllFrom (String.length pre) s)
  /\ Forall isMarker (matchAllFrom (String.length pre) s).
Proof.
  revert s pre. induction n as [|n IH]; intros s pre Hlen.
  { destruct s; [done | simpl in Hlen; lia]. }
  destruct s as [|c s]; [done|].
  assert (Hnext : placed (String.length pre) (pre +:+ String c s)
                    (matchAllFrom (S (String.length pre)) s)
                  /\ Forall isMarker (matchAllFrom (S (String.length pre)) s)).
  { destruct (IH s (pre +:+ String c EmptyString)) as [Hp Hm]; [simpl in Hlen; lia|].
    rewrite append_length in Hp, Hm. simpl in Hp, Hm. rewrite Nat.add_1_r in Hp, Hm.
    rewrite append_assoc in Hp. split; [|done].
    eapply placed_weaken; [|exact Hp]. lia. }
  destruct (Ascii.eqb_spec c "$") as [->|Hc];
    [|rewrite matchAllFrom_other; [done | left; by apply Ascii.eqb_neq]].
  destruct (takeDigits s) as [|d ds] eqn:Hds;
    [rewrite matchAllFrom_other; [done | by right]|].
  rewrite (matchAllFrom_marker (String.length pre) s (String d ds) Hds) by done.
  pose proof (takeDigits_split s) as Hsplit. rewrite Hds in Hsplit.
  destruct (IH (Js.sliceFrom (String.length (String d ds)) s)
               (pre +:+ String "$" (String d ds))) as [Hp Hmk].
  { apply (f_equal String.length) in Hsplit. rewrite append_length in Hsplit.
    simpl in *. lia. }
  rewrite append_length in Hp, Hmk. rewrite append_assoc in Hp.
  rewrite append_cons in Hp. rewrite <- Hsplit in Hp.
  split.
  - simpl. split; [lia|]. split; [|exact Hp].
    rewrite sliceFrom_pre. rewrite Hsplit at 1.
    rewrite <- append_cons. apply prefix_app.
  - constructor; [|exact Hmk]. split; [done|]. split; [done|].
    rewrite <- Hds. apply takeDigits_digits.
Qed.

Lemma matchAll_placed (text : string) :
  placed 0 text (matchAll text) /\ Forall isMarker (matchAll text).
Proof. apply (matchAllFrom_placed (String.length text) text EmptyString). lia. Qed.

Lemma reinsert_push (parts ws : list string) (p w t : string) :
  length parts = length ws ->
  reinsert ((parts ++ [p]) ++ [t]) (ws ++ [w]) = reinsert (parts ++ [p +:+ w +:+ t]) ws.
Proof.
  revert ws. induction parts as [|p0 parts IH]; intros [|w0 ws] Hlen; try done.
  simpl in *. rewrite IH by lia. done.
Qed.

Lemma mapi_from_fst {A B : Type} (g : nat -> A -> B) (j : nat) (l : list A) :
  map fst (mapi_from j (fun i x => (x, g i x)) l) = l.
Proof. revert j. induction l as [|x l IH]; intros j; simpl; [done | by rewrite IH]. Qed.

Lemma mapi_from_texts (parts : list string) (f : nat -> bool) (j : nat) (l : list Expr) :
  length l + j + 1 = length parts ->
  map (fun span : Expr * SpanLiteral => spanText (snd span))
      (mapi_from j (fun i expr =>
                      (expr, if f i then TemplateTail (nth (i + 1) parts EmptyString)
                             else TemplateMiddle (nth (i + 1) parts EmptyString))) l)
  = drop (j + 1) parts.
Proof.
  revert j. induction l as [|x l IH]; intros j Hlen; simpl.
  - rewrite drop_ge; [done | simpl in Hlen; lia].
  - rewrite IH by (simpl in Hlen; lia).
    assert (Hl : is_Some (parts !! (j + 1))) by (apply lookup_lt_is_Some; simpl in Hlen; lia).
    destruct Hl as [y Hy]. rewrite (drop_S _ _ _ Hy).
    rewrite nth_lookup, Hy. simpl. replace (S j + 1) with (S (j + 1)) by lia.
    by destruct (f j).
Qed.

Section Rewriter.

Variable argName : nat -> option Column -> string.

Lemma scan_fold (text : string) (params : list QueryParameter) (ms : list RegExpMatch) :
  forall (parts : list string) (exprs : list Expr) (last : nat) (ws : list string),
    placed last text ms ->
    length parts = length ws ->
    (forall t, reinsert (parts ++ [t]) ws = Js.sliceTo last text +:+ t) ->
    exists parts' last',
      fold_left (PostgresTagged.scanStep argName text params) ms (parts, exprs, last)
      = (parts', exprs ++ map (PostgresTagged.boundExpression argName params) ms, last')
      /\ length parts' = length (ws ++ map m_whole ms)
      /\ (forall t, reinsert (parts' ++ [t]) (ws ++ map m_whole ms)
                    = Js.sliceTo last' text +:+ t).
Proof.
  induction ms as [|m ms IH]; intros parts exprs last ws Hpl Hlen Hinv.
  - exists parts, last. simpl. by rewrite !app_nil_r.
  - destruct Hpl as (Hle & Hpre & Hpl). simpl fold_left.
    destruct (IH (parts ++ [Js.slice last (m_index m) text])
                 (exprs ++ [PostgresTagged.boundExpression argName params m])
                 (m_index m + String.length (m_whole m))
                 (ws ++ [m_whole m]) Hpl) as (parts' & last' & Hfold & Hlen' & Hinv').
    + rewrite !length_app. simpl. lia.
    + intros t. rewrite reinsert_push by done. rewrite Hinv.
      rewrite <- !append_assoc. rewrite sliceTo_slice by done.
      by rewrite (sliceTo_marker _ _ _ Hpre).
    + exists parts', last'. rewrite Hfold. simpl map.
      rewrite <- !app_assoc in *. simpl in *. done.
Qed.

(** The loop of the rewriter: its fragments put back around the
    markers give the text, and its expressions are the bindings of the
    markers. *)
Lemma scanTemplate_spec (text : string) (params : list QueryParameter) :
  exists parts,
    PostgresTagged.scanTemplate argName text params
    = (parts, map (PostgresTagged.boundExpression argName params) (matchAll text))
    /\ length parts = S (length (matchAll text))
    /\ reinsert parts (map m_whole (matchAll text)) = text.
Proof.
  destruct (matchAll_placed text) as [Hpl _].
  destruct (scan_fold text params (matchAll text) [] [] 0 [] Hpl eq_refl)
    as (parts' & last' & Hfold & Hlen & Hinv).
  { intros t. simpl. by destruct text. }
  simpl in *. exists (parts' ++ [Js.sliceFrom last' text]).
  unfold PostgresTagged.scanTemplate. rewrite Hfold.
  split; [done|]. split.
  - rewrite length_app, Hlen, length_map. simpl. lia.
  - rewrite Hinv. apply sliceTo_sliceFrom.
Qed.

(** The template built from the loop's output carries exactly its
    fragments and expressions. *)
Lemma buildTaggedTemplate_template (text : string) (params : list QueryParameter) :
  exists template,
    PostgresTagged.buildTaggedTemplate argName text params
    = TaggedTemplateExpression (IdentifierExpr "sql") [] template
    /\ (fragments template, boundExpressions template)
       = PostgresTagged.scanTemplate argName text params
    /\ (matchAll text = [] -> template = NoSubstitutionTemplateLiteral text).
Proof.
  destruct (scanTemplate_spec text params) as (parts & Hscan & Hlen & Hre).
  unfold PostgresTagged.buildTaggedTemplate. rewrite Hscan.
  destruct (matchAll text) as [|m ms] eqn:Hm.
  - simpl. eexists. split; [done|]. split; [|done].
    destruct parts as [|p [|? ?]]; simpl in Hlen; try lia.
    simpl in Hre. by subst p.
  - simpl Nat.eqb. cbv iota. eexists. split; [done|]. split; [|done].
    destruct parts as [|p parts]; [simpl in Hlen; lia|].
    unfold fragments, boundExpressions, mapi.
    rewrite (mapi_from_fst (fun i _ =>
               if Nat.eqb i (length (map (PostgresTagged.boundExpression argName params)
                                         (m :: ms)) - 1)
               then TemplateTail (nth (i + 1) (p :: parts) EmptyString)
               else TemplateMiddle (nth (i + 1) (p :: parts) EmptyString))).
    rewrite (mapi_from_texts (p :: parts)
               (fun i => Nat.eqb i (length (map (PostgresTagged.boundExpression argName
                                                   params) (m :: ms)) - 1))).
    + simpl. by rewrite drop_0.
    + rewrite length_map. simpl in *. lia.
Qed.

End Rewriter.

(** A text has no match exactly when no dollar sign in it is followed
    by a digit. *)
Lemma matchAllFrom_nil_iff (pos : nat) (s : string) :
  matchAllFrom pos s = [] <->
  forall a d r, s = a +:+ String "$" (String d r) -> Js.isDigit d = false.
Proof.
  revert pos. induction s as [|c s IH]; intros pos.
  - split; [|done]. intros _ [|? ?] d r H; discriminate H.
  - split.
    + intros Hnil [|x a] d r Heq.
      * rewrite append_nil_l in Heq. injection Heq as -> ->.
        simpl in Hnil. destruct (Js.isDigit d); [done | done].
      * rewrite append_cons in Heq. injection Heq as -> ->.
        assert (Hrest : matchAllFrom (S pos) (a +:+ String "$" (String d r)) = []).
        { simpl in Hnil. destruct (Ascii.eqb x "$"); [|done].
          by destruct (takeDigits _). }
        by apply (IH (S pos)) with (a := a) (r := r).
    + intros Hno.
      assert (Hrest : matchAllFrom (S pos) s = []).
      { apply IH. intros a d r ->. apply (Hno (String c a) d r). by rewrite append_cons. }
      simpl. rewrite Hrest. destruct (Ascii.eqb_spec c "$") as [->|]; [|done].
      destruct s as [|d r]; [done|]. simpl.
      by rewrite (Hno EmptyString d r eq_refl).
Qed.

(** ** What the emitted [:one] functions return *)

Lemma mapM_map {A B C : Type} (f : B -> result C) (g : A -> B) (l : list A) :
  mapM f (map g l) = mapM (fun x => f (g x)) l.
Proof. induction l as [|x l IH]; simpl; [done | by rewrite IH]. Qed.

Lemma mapM_ext {A B : Type} (f g : A -> result B) (l : list A) :
  (forall x, f x = g x) -> mapM f l = mapM g l.
Proof. intros H. induction l as [|x l IH]; simpl; [done | by rewrite H, IH]. Qed.

Lemma mapM_pure {A B : Type} (f : A -> result B) (g : A -> B) (l : list A) :
  (forall x, In x l -> f x = Ok (g x)) -> mapM f l = Ok (map g l).
Proof.
  induction l as [|x l IH]; intros H; simpl; [done|].
  rewrite (H x) by (by left). simpl. rewrite IH; [done|].
  intros y Hy. apply H. by right.
Qed.

Lemma mapi_from_map {A B C : Type} (f : nat -> A -> B) (g : B -> C) (j : nat) (l : list A) :
  mapi_from j (fun i x => g (f i x)) l = map g (mapi_from j f l).
Proof. revert j. induction l as [|x l IH]; intros j; simpl; [done | by rewrite IH]. Qed.

Section OneDecl.

Variable db : list (list (string * Value)).
Variable jsNumber : Value -> Value.
Variable argName : nat -> option Column -> string.

(** Reading fields of the [args] object never fails. *)
Lemma argsFields_eval (env : list (string * option Value)) (a : list (string * Value))
      (names : list string) :
  JsMap.get "args" env = Some (Some (VObject a)) ->
  mapM (Interp.evalExpr db jsNumber env) (map argsField names)
  = Ok (map (fun n => default VUndefined (JsMap.get n a)) names).
Proof.
  intros Hargs. rewrite mapM_map. apply mapM_pure. intros n _.
  unfold argsField. cbn [Interp.evalExpr]. unfold Interp.lookup. by rewrite Hargs.
Qed.

Lemma boundExpression_argsField (params : list QueryParameter) (m : RegExpMatch) :
  exists name, PostgresTagged.boundExpression argName params m = argsField name.
Proof.
  unfold PostgresTagged.boundExpression.
  destruct (PostgresTagged.paramAt _ _); unfold argsField; eauto.
Qed.

(** The tagged template is a pending query whenever [sql] is the client
    and [args] an object. *)
Lemma taggedTemplate_eval (env : list (string * option Value)) (a : list (string * Value))
      (queryText returnIface : string) (params : list QueryParameter) :
  JsMap.get "sql" env = Some (Some VClient) ->
  JsMap.get "args" env = Some (Some (VObject a)) ->
  Interp.evalExpr db jsNumber env
    (PostgresTagged.addTypeArgument
       (PostgresTagged.buildTaggedTemplate argName queryText params) returnIface true)
  = Ok VQuery.
Proof.
  intros Hsql Hargs.
  destruct (buildTaggedTemplate_template argName queryText params)
    as (template & -> & Hscan & _).
  destruct (scanTemplate_spec argName queryText params) as (parts & Hparts & _).
  rewrite Hparts in Hscan. injection Hscan as _ Hexprs.
  simpl PostgresTagged.addTypeArgument. cbn [Interp.evalExpr].
  unfold Interp.lookup. rewrite Hsql. cbn [mbind result_bind].
  destruct template as [text|head spans]; [done|].
  simpl in Hexprs.
  assert (Hnames : exists names, map fst spans = map argsField names).
  { rewrite Hexprs. clear. induction (matchAll queryText) as [|m ms [names IH]].
    - by exists [].
    - destruct (boundExpression_argsField params m) as [name Hn].
      exists (name :: names). simpl. by rewrite Hn, IH. }
  destruct Hnames as [names Hnames].
  rewrite <- (mapM_map (Interp.evalExpr db jsNumber env) fst), Hnames.
  by rewrite (argsFields_eval env a names Hargs).
Qed.

Lemma funcParamsDecl_with_args (iface : string) (params : list QueryParameter) :
  iface <> EmptyString -> params <> [] ->
  PostgresTagged.funcParamsDecl (Some iface) params
  = [("sql", TypeReferenceNode "Sql" []); ("args", TypeReferenceNode iface [])].
Proof.
  intros Hi Hp. unfold PostgresTagged.funcParamsDecl.
  destruct (String.eqb_spec iface EmptyString); [done|].
  by destruct params.
Qed.

End OneDecl.

Section GuardedOneDecl.

Variable db : list (list (string * Value)).
Variable jsNumber : Value -> Value.
Variables argName colName : nat -> option Column -> string.

Lemma argAccesses_argsFields (params : list QueryParameter) :
  PostgresCommon.argAccesses argName params
  = map argsField (mapi (fun i param => argName i (param_column param)) params).
Proof.
  unfold PostgresCommon.argAccesses, mapi.
  by rewrite <- (mapi_from_map (fun i param => argName i (param_column param)) argsField).
Qed.

Lemma sqlite_argAccesses_argsFields (params : list QueryParameter) :
  BunSqlite.argAccesses argName params
  = map argsField (mapi (fun i param => argName i (param_column param)) params).
Proof.
  unfold BunSqlite.argAccesses, mapi.
  by rewrite <- (mapi_from_map (fun i param => argName i (param_column param)) argsField).
Qed.

(** [rows.length !== 1] holds unless there is exactly one row. *)
Lemma length_is_one {A : Type} (l : list A) :
  Interp.strictEquals (VNumber (Z.of_nat (length l))) (VNumber 1)
  = match l with [_] => true | _ => false end.
Proof.
  destruct l as [|x [|y l]]; [done..|].
  unfold Interp.strictEquals. apply Z.eqb_neq. simpl length. lia.
Qed.

Lemma common_funcParamsDecl_with_args (iface : string) (params : list QueryParameter) :
  iface <> EmptyString -> params <> [] ->
  PostgresCommon.funcParamsDecl (Some iface) params
  = [("sql", TypeReferenceNode "SQL" []); ("args", TypeReferenceNode iface [])].
Proof.
  intros Hi Hp. unfold PostgresCommon.funcParamsDecl.
  destruct (String.eqb_spec iface EmptyString); [done|].
  by destruct params.
Qed.

Lemma sqlite_funcParamsDecl_with_args (iface : string) (params : list QueryParameter) :
  iface <> EmptyString -> params <> [] ->
  BunSqlite.funcParamsDecl (Some iface) params
  = [("database", TypeReferenceNode "Database" []); ("args", TypeReferenceNode iface [])].
Proof.
  intros Hi Hp. unfold BunSqlite.funcParamsDecl.
  destruct (String.eqb_spec iface EmptyString); [done|].
  by destruct params.
Qed.

(** X9.  For a query with parameters whose text constant is bound in
    the module, the [:one] function of the class-form postgres.js driver
    guards the row count: it returns the row when there is exactly one,
    [null] otherwise. *)
Lemma postgresJs_oneDecl_guarded
      (funcName queryName iface returnIface : string)
      (params : list QueryParameter) (columns : list Column)
      (globals : list (string * option Value)) (args : list (string * Value))
      (qv : Value) :
  iface <> EmptyString -> params <> [] ->
  queryName <> "rows" -> queryName <> "sql" -> queryName <> "args" ->
  JsMap.get queryName globals = Some (Some qv) ->
  Interp.call db jsNumber
    (PostgresJs.oneDecl argName funcName queryName (Some iface) returnIface params columns)
    globals [VClient; VObject args]
  = Ok (match db with
        | [row] => VObject row
        | _ => VNull
        end).
Proof.
  intros Hi Hp Hr Hs Ha Hq.
  assert (Er : String.eqb "rows" queryName = false) by (apply String.eqb_neq; congruence).
  assert (Es : String.eqb "sql" queryName = false) by (apply String.eqb_neq; congruence).
  assert (Ea : String.eqb "args" queryName = false) by (apply String.eqb_neq; congruence).
  unfold Interp.call, PostgresJs.oneDecl, Interp.initialEnv, PostgresJs.funcParamsDecl.
  cbn [fn_body fn_parameters Interp.declaredNames omap list_omap].
  rewrite (common_funcParamsDecl_with_args iface params Hi Hp).
  cbn [Interp.bindParameters map app Interp.execBlock Interp.execStmt Interp.evalExpr mapM].
  match goal with |- context [Interp.lookup "sql" ?e] => set (env0 := e) end.
  assert (L1 : Interp.lookup "sql" env0 = Ok VClient) by reflexivity.
  assert (L2 : Interp.lookup queryName env0 = Ok qv).
  { unfold Interp.lookup, env0. cbn [JsMap.get]. by rewrite Er, Es, Ea, Hq. }
  assert (L3 : JsMap.get "args" env0 = Some (Some (VObject args))) by reflexivity.
  rewrite L1, L2. cbn [mbind result_bind].
  rewrite argAccesses_argsFields, (argsFields_eval db jsNumber env0 args _ L3).
  subst env0.
  cbn [mbind result_bind Interp.callMethod String.eqb Ascii.eqb Bool.eqb Interp.await
       Interp.declare JsMap.set].
  unfold Interp.lookup. cbn [JsMap.get String.eqb Ascii.eqb Bool.eqb].
  cbn [mbind result_bind Interp.rowsAsObjects Interp.getProperty String.eqb Ascii.eqb
       Bool.eqb].
  rewrite length_is_one.
  destruct db as [|row [|row' rest]]; done.
Qed.

Lemma mapM_mapi_from {A B C : Type} (F : B -> result C) (f : nat -> A -> B)
      (g : nat -> A -> C) (j : nat) (l : list A) :
  (forall i x, F (f i x) = Ok (g i x)) ->
  mapM F (mapi_from j f l) = Ok (mapi_from j g l).
Proof.
  intros H. revert j. induction l as [|x l IH]; intros j; simpl; [done|].
  by rewrite H, IH.
Qed.

(** The row object of the shared PostgreSQL driver evaluates to the
    mapped row. *)
Lemma common_rowObject_eval (env : list (string * option Value)) (vals : list Value)
      (columns : list Column) :
  JsMap.get "row" env = Some (Some (VArray vals)) ->
  JsMap.get "Number" env = None ->
  Interp.evalExpr db jsNumber env (PostgresCommon.rowObject colName columns)
  = Ok (mappedRow jsNumber colName columns vals).
Proof.
  intros Hrow Hnum. unfold PostgresCommon.rowObject, mappedRow, mapi.
  cbn [Interp.evalExpr].
  rewrite (mapM_mapi_from _ _
             (fun i col =>
                (colName i (Some col),
                 if PostgresCommon.isBigIntType (Some col)
                 then narrowed jsNumber (col_notNull col) (default VUndefined (vals !! i))
                 else default VUndefined (vals !! i)))); [done|].
  intros i col. cbn [fst snd].
  by rewrite (createRowAccessExpression_eval db jsNumber env vals Hrow Hnum).
Qed.

(** A type assertion has no effect at run time. *)
Lemma as_eval (env : list (string * option Value)) (e : Expr) (t : TypeNode) :
  Interp.evalExpr db jsNumber env (AsExpression e t) = Interp.evalExpr db jsNumber env e.
Proof. reflexivity. Qed.

Lemma sqlite_rowObject_eval (env : list (string * option Value)) (vals : list Value)
      (columns : list Column) :
  JsMap.get "row" env = Some (Some (VArray vals)) ->
  Interp.evalExpr db jsNumber env (BunSqlite.rowObject colName columns)
  = Ok (castRow colName columns vals).
Proof.
  intros Hrow. unfold BunSqlite.rowObject, castRow, mapi.
  cbn [Interp.evalExpr].
  rewrite (mapM_mapi_from _ _
             (fun i col => (colName i (Some col), default VUndefined (vals !! i))));
    [done|].
  intros i col. cbn [fst snd].
  rewrite as_eval. fold (rowAccess i).
  by rewrite (rowAccess_eval db jsNumber env vals Hrow).
Qed.

End GuardedOneDecl.

Section GuardedPositionalDrivers.

Variable jsNumber : Value -> Value.
Variables argName colName : nat -> option Column -> string.

(** X7.  The shared PostgreSQL driver (Bun SQL and postgres.js over
    positional rows) guards the row count: it returns the mapped row
    when there is exactly one row, [null] otherwise. *)
Lemma common_oneDecl_guarded
      (db : list (list (string * Value)))
      (funcName queryName iface returnIface : string)
      (params : list QueryParameter) (columns : list Column)
      (globals : list (string * option Value)) (args : list (string * Value))
      (qv : Value) :
  iface <> EmptyString -> params <> [] ->
  ~ In queryName ["rows"; "row"; "sql"; "args"] ->
  JsMap.get queryName globals = Some (Some qv) ->
  JsMap.get "Number" globals = None ->
  Interp.call db jsNumber
    (PostgresCommon.oneDecl argName colName funcName queryName (Some iface) returnIface
                            params columns)
    globals [VClient; VObject args]
  = Ok (match db with
        | [row] => mappedRow jsNumber colName columns (map snd row)
        | _ => VNull
        end).
Proof.
  intros Hi Hp Hnot Hq Hnum.
  assert (Er : String.eqb "rows" queryName = false)
    by (apply String.eqb_neq; intros <-; apply Hnot; simpl; auto).
  assert (Ew : String.eqb "row" queryName = false)
    by (apply String.eqb_neq; intros <-; apply Hnot; simpl; auto).
  assert (Es : String.eqb "sql" queryName = false)
    by (apply String.eqb_neq; intros <-; apply Hnot; simpl; auto).
  assert (Ea : String.eqb "args" queryName = false)
    by (apply String.eqb_neq; intros <-; apply Hnot; simpl; auto).
  unfold Interp.call, PostgresCommon.oneDecl, Interp.initialEnv.
  cbn [fn_body fn_parameters Interp.declaredNames omap list_omap].
  rewrite (common_funcParamsDecl_with_args iface params Hi Hp).
  cbn [Interp.bindParameters map app Interp.execBlock Interp.execStmt Interp.evalExpr mapM].
  match goal with |- context [Interp.lookup "sql" ?e] => set (env0 := e) end.
  assert (L1 : Interp.lookup "sql" env0 = Ok VClient) by reflexivity.
  assert (L2 : Interp.lookup queryName env0 = Ok qv).
  { unfold Interp.lookup, env0. cbn [JsMap.get]. by rewrite Er, Ew, Es, Ea, Hq. }
  assert (L3 : JsMap.get "args" env0 = Some (Some (VObject args))) by reflexivity.
  rewrite L1, L2. cbn [mbind result_bind].
  rewrite argAccesses_argsFields, (argsFields_eval db jsNumber env0 args _ L3).
  subst env0.
  cbn [mbind result_bind Interp.callMethod String.eqb Ascii.eqb Bool.eqb Interp.await
       Interp.declare JsMap.set].
  unfold Interp.lookup. cbn [JsMap.get String.eqb Ascii.eqb Bool.eqb].
  cbn [mbind result_bind Interp.rowsAsTuples Interp.getProperty String.eqb Ascii.eqb
       Bool.eqb].
  rewrite length_is_one.
  destruct db as [|row [|row' rest]]; [done| |done].
  cbn [map negb Interp.truthy mbind result_bind Interp.rowsAsTuples].
  unfold Interp.lookup. cbn [JsMap.get String.eqb Ascii.eqb Bool.eqb].
  cbn [mbind result_bind Interp.getElement Interp.rowsAsTuples map Z.leb Z.compare
       Z.to_nat lookup list_lookup default from_option id Interp.declare JsMap.set
       String.eqb Ascii.eqb Bool.eqb].
  unfold Interp.lookup. cbn [JsMap.get String.eqb Ascii.eqb Bool.eqb].
  change (Z.to_nat 0) with 0%nat.
  cbn [lookup list_lookup from_option id mbind result_bind Interp.truthy negb].
  rewrite (common_rowObject_eval _ jsNumber colName _ (map snd row)); [done | reflexivity |].
  cbn [JsMap.get String.eqb Ascii.eqb Bool.eqb]. exact Hnum.
Qed.

(** X8.  For a query with parameters whose text constant is bound in
    the module, the [:one] function of the Bun SQLite driver guards the
    row count: it returns the row object, one property per column read
    by position, when there is exactly one row, [null] otherwise. *)
Lemma sqlite_oneDecl_guarded
      (db : list (list (string * Value)))
      (funcName queryName iface returnIface : string)
      (params : list QueryParameter) (columns : list Column)
      (globals : list (string * option Value)) (args : list (string * Value))
      (qv : Value) :
  iface <> EmptyString -> params <> [] ->
  ~ In queryName ["stmt"; "rows"; "row"; "database"; "args"] ->
  JsMap.get queryName globals = Some (Some qv) ->
  Interp.call db jsNumber
    (BunSqlite.oneDecl argName colName funcName queryName (Some iface) returnIface
                       params columns)
    globals [VClient; VObject args]
  = Ok (match db with
        | [row] => castRow colName columns (map snd row)
        | _ => VNull
        end).
Proof.
  intros Hi Hp Hnot Hq.
  assert (Et : String.eqb "stmt" queryName = false)
    by (apply String.eqb_neq; intros <-; apply Hnot; simpl; auto).
  assert (Er : String.eqb "rows" queryName = false)
    by (apply String.eqb_neq; intros <-; apply Hnot; simpl; auto).
  assert (Ew : String.eqb "row" queryName = false)
    by (apply String.eqb_neq; intros <-; apply Hnot; simpl; auto).
  assert (Es : String.eqb "database" queryName = false)
    by (apply String.eqb_neq; intros <-; apply Hnot; simpl; auto).
  assert (Ea : String.eqb "args" queryName = false)
    by (apply String.eqb_neq; intros <-; apply Hnot; simpl; auto 10).
  unfold Interp.call, BunSqlite.oneDecl, Interp.initialEnv.
  cbn [fn_body fn_parameters Interp.declaredNames omap list_omap].
  rewrite (sqlite_funcParamsDecl_with_args iface params Hi Hp).
  cbn [Interp.bindParameters map app Interp.execBlock Interp.execStmt Interp.evalExpr mapM].
  match goal with |- context [Interp.lookup "database" ?e] => set (env0 := e) end.
  assert (L1 : Interp.lookup "database" env0 = Ok VClient) by reflexivity.
  assert (L2 : Interp.lookup queryName env0 = Ok qv).
  { unfold Interp.lookup, env0. cbn [JsMap.get]. by rewrite Et, Er, Ew, Es, Ea, Hq. }
  rewrite L1, L2. subst env0.
  cbn [mbind result_bind Interp.callMethod String.eqb Ascii.eqb Bool.eqb
       Interp.declare JsMap.set].
  match goal with |- context [Interp.lookup "stmt" ?e] => set (env1 := e) end.
  assert (L3 : Interp.lookup "stmt" env1 = Ok VStatement) by reflexivity.
  assert (L4 : JsMap.get "args" env1 = Some (Some (VObject args))) by reflexivity.
  rewrite L3. cbn [mbind result_bind].
  rewrite sqlite_argAccesses_argsFields, (argsFields_eval db jsNumber env1 args _ L4).
  subst env1.
  cbn [mbind result_bind Interp.callMethod String.eqb Ascii.eqb Bool.eqb
       Interp.declare JsMap.set].
  unfold Interp.lookup. cbn [JsMap.get String.eqb Ascii.eqb Bool.eqb].
  cbn [mbind result_bind Interp.rowsAsTuples Interp.getProperty String.eqb Ascii.eqb
       Bool.eqb].
  rewrite length_is_one.
  destruct db as [|row [|row' rest]]; [done| |done].
  cbn [map negb Interp.truthy mbind result_bind Interp.rowsAsTuples].
  unfold Interp.lookup. cbn [JsMap.get String.eqb Ascii.eqb Bool.eqb].
  cbn [mbind result_bind Interp.getElement Interp.rowsAsTuples map Z.leb Z.compare
       Z.to_nat lookup list_lookup default from_option id Interp.declare JsMap.set
       String.eqb Ascii.eqb Bool.eqb].
  unfold Interp.lookup. cbn [JsMap.get String.eqb Ascii.eqb Bool.eqb].
  change (Z.to_nat 0) with 0%nat.
  cbn [lookup list_lookup from_option id mbind result_bind Interp.truthy negb].
  by rewrite (sqlite_rowObject_eval _ jsNumber colName _ (map snd row)).
Qed.

End GuardedPositionalDrivers.

(** C1, at the tagged-template driver: the emitted [:one] function
    returns the first row of whatever result set comes back, and [null]
    only when there is none.  On two rows or more it therefore returns
    a row, where C1 asks for [null]. *)
Theorem tagged_oneDecl_returns_first_row
        (argName : nat -> option Column -> string) (jsNumber : Value -> Value)
        (funcName queryText iface returnIface : string)
        (params : list QueryParameter) (columns : list Column)
        (globals : list (string * option Value)) (args : list (string * Value))
        (db : list (list (string * Value))) :
  iface <> EmptyString -> params <> [] ->
  Interp.call db jsNumber
    (PostgresTagged.oneDecl argName funcName queryText (Some iface) returnIface
                            params columns)
    globals [VClient; VObject args]
  = Ok (match db with
        | [] => VNull
        | row :: _ => VObject row
        end).
Proof.
  intros Hi Hp. unfold Interp.call, PostgresTagged.oneDecl, Interp.initialEnv.
  cbn [fn_body fn_parameters Interp.declaredNames omap list_omap].
  rewrite (funcParamsDecl_with_args iface params Hi Hp).
  cbn [Interp.bindParameters map app Interp.execBlock Interp.execStmt Interp.evalExpr].
  rewrite (taggedTemplate_eval db jsNumber argName _ args) by done.
  cbn [mbind result_bind Interp.await Interp.declare JsMap.set String.eqb Ascii.eqb Bool.eqb].
  unfold Interp.lookup. cbn [JsMap.get String.eqb Ascii.eqb Bool.eqb].
  cbn [mbind result_bind Interp.rowsAsObjects Interp.getElement].
  destruct db as [|row rest]; done.
Qed.

Lemma tagged_oneDecl_returns_first_row_witness :
  Interp.call [[("id", VNumber 1); ("name", VString "Ada")];
             [("id", VNumber 2); ("name", VString "Grace")]]
    (fun v => v)
    (PostgresTagged.oneDecl Utils.argName "getAuthor" getAuthorText (Some "GetAuthorArgs")
                            "GetAuthorRow" getAuthorParams [])
    [] [VClient; VObject [("id", VNumber 1)]]
  = Ok (VObject [("id", VNumber 1); ("name", VString "Ada")]).
Proof.
  apply (tagged_oneDecl_returns_first_row Utils.argName (fun v => v) "getAuthor"
           getAuthorText "GetAuthorArgs" "GetAuthorRow" getAuthorParams [] []
           [("id", VNumber 1)]
           [[("id", VNumber 1); ("name", VString "Ada")];
            [("id", VNumber 2); ("name", VString "Grace")]]);
    discriminate.
Defined.

(** ** Grouping, in full *)

Lemma JsMap_add_keys {V : Type} (k : string) (m : list (string * V)) :
  JsMap.add k (map fst m) = if JsMap.has k m then map fst m else map fst m ++ [k].
Proof.
  unfold JsMap.add. destruct (JsMap.has k m) eqn:Hh.
  - apply JsMap_has_In in Hh.
    replace (existsb (String.eqb k) (map fst m)) with true; [done|].
    symmetry. apply existsb_exists. exists k. split; [done | apply String.eqb_refl].
  - replace (existsb (String.eqb k) (map fst m)) with false; [done|].
    symmetry. apply not_true_is_false. intros (x & Hx & ->%String.eqb_eq)%existsb_exists.
    apply JsMap_has_In in Hx. congruence.
Qed.

Lemma groupStep_keys (m : list (string * list Query)) (q : Query) :
  map fst (App.groupStep m q) = JsMap.add (q_filename q) (map fst m).
Proof.
  rewrite JsMap_add_keys. unfold App.groupStep.
  destruct (JsMap.has (q_filename q) m) eqn:Hh.
  - unfold JsMap.has in Hh. destruct (JsMap.get (q_filename q) m) eqn:Hg; [|done].
    rewrite JsMap_set_keys. unfold JsMap.has. by rewrite Hg.
  - rewrite JsMap_get_set_eq, JsMap_set_keys.
    replace (JsMap.has (q_filename q) (JsMap.set (q_filename q) [] m)) with true
      by (unfold JsMap.has; by rewrite JsMap_get_set_eq).
    by rewrite JsMap_set_keys, Hh.
Qed.

Lemma groupQueries_snoc (queries : list Query) (q : Query) :
  App.groupQueries (queries ++ [q]) = App.groupStep (App.groupQueries queries) q.
Proof. unfold App.groupQueries. by rewrite fold_left_app. Qed.

Lemma firstSeen_snoc (l : list string) (x : string) :
  firstSeen (l ++ [x]) = JsMap.add x (firstSeen l).
Proof. unfold firstSeen. by rewrite fold_left_app. Qed.

Lemma groupQueries_keys (queries : list Query) :
  map fst (App.groupQueries queries) = firstSeen (map q_filename queries).
Proof.
  induction queries as [|q queries IH] using rev_ind; [done|].
  rewrite groupQueries_snoc, groupStep_keys, IH, map_app.
  change (map q_filename [q]) with [q_filename q]. by rewrite firstSeen_snoc.
Qed.

Lemma JsMap_add_NoDup (x : string) (l : list string) :
  List.NoDup l -> List.NoDup (JsMap.add x l).
Proof.
  intros Hnd. unfold JsMap.add. destruct (existsb (String.eqb x) l) eqn:He; [done|].
  apply List.NoDup_app; [done | repeat constructor; by intros [] |].
  intros y Hy [Heq|[]]. subst y.
  assert (existsb (String.eqb x) l = true); [|congruence].
  apply existsb_exists. exists x. split; [done | apply String.eqb_refl].
Qed.

Lemma JsMap_add_In (x y : string) (l : list string) :
  In y (JsMap.add x l) <-> y = x \/ In y l.
Proof.
  unfold JsMap.add. destruct (existsb (String.eqb x) l) eqn:He.
  - apply existsb_exists in He as (z & Hz & ->%String.eqb_eq).
    split; [by right | by intros [->|?]].
  - rewrite in_app_iff. simpl. split; [intros [?|[->|[]]]; auto | intros [->|?]; auto].
Qed.

Lemma firstSeen_NoDup (l : list string) : List.NoDup (firstSeen l).
Proof.
  induction l as [|x l IH] using rev_ind; [constructor|].
  rewrite firstSeen_snoc. by apply JsMap_add_NoDup.
Qed.

Lemma firstSeen_In (l : list string) (x : string) : In x (firstSeen l) <-> In x l.
Proof.
  induction l as [|y l IH] using rev_ind; [done|].
  rewrite firstSeen_snoc, JsMap_add_In, IH, in_app_iff. simpl.
  intuition congruence.
Qed.

Lemma groupQueries_get (queries : list Query) (filename : string) :
  JsMap.get filename (App.groupQueries queries)
  = match queriesOf filename queries with
    | [] => None
    | qs => Some qs
    end.
Proof.
  induction queries as [|q queries IH] using rev_ind; [done|].
  rewrite groupQueries_snoc. unfold queriesOf in *. rewrite List.filter_app. simpl.
  destruct (String.eqb_spec (q_filename q) filename) as [<-|Hne].
  - rewrite groupStep_get_eq, IH.
    destruct (List.filter _ queries); simpl; [done|]. done.
  - rewrite groupStep_get_ne by done. by rewrite IH, app_nil_r.
Qed.

Lemma groupQueries_keys_NoDup (queries : list Query) :
  List.NoDup (map fst (App.groupQueries queries)).
Proof. rewrite groupQueries_keys. apply firstSeen_NoDup. Qed.

Lemma groupQueries_entry (queries : list Query) (filename : string) (qs : list Query) :
  In (filename, qs) (App.groupQueries queries)
  <-> qs = queriesOf filename queries /\ qs <> [].
Proof.
  split.
  - intros Hin. apply JsMap_In_get in Hin; [|apply groupQueries_keys_NoDup].
    rewrite groupQueries_get in Hin.
    destruct (queriesOf filename queries) eqn:Hq; [done|]. by simplify_eq.
  - intros [-> Hne]. apply JsMap_get_In. rewrite groupQueries_get.
    by destruct (queriesOf filename queries).
Qed.

(** X1.  [querymap] lists the distinct filenames of the request in
    first-seen order, each once; looking a filename up gives exactly the
    queries of that file, in request order; so every query sits in the
    group of its file and in no other, and no group is empty. *)
Theorem groupQueries_partition (queries : list Query) :
  let groups := App.groupQueries queries in
  map fst groups = firstSeen (map q_filename queries) /\
  List.NoDup (map fst groups) /\
  (forall filename qs,
     In (filename, qs) groups <->
     qs = queriesOf filename queries /\ qs <> []) /\
  (forall q filename qs,
     In q queries -> In (filename, qs) groups ->
     (In q qs <-> filename = q_filename q)).
Proof.
  intros groups.
  split; [apply groupQueries_keys|].
  split; [apply groupQueries_keys_NoDup|]. split; [apply groupQueries_entry|].
  intros q filename qs Hq [-> _]%groupQueries_entry. unfold queriesOf.
  rewrite List.filter_In.
  split.
  - intros [_ H%String.eqb_eq]. done.
  - intros ->. split; [done | apply String.eqb_refl].
Qed.

Lemma groupQueries_partition_witness :
  In deleteAuthor (queriesOf "query.sql" [deleteAuthor; insertAuthorId]).
Proof.
  destruct (groupQueries_partition [deleteAuthor; insertAuthorId]) as (_ & _ & Hent & Hin).
  apply (Hin deleteAuthor "query.sql" (queriesOf "query.sql" [deleteAuthor; insertAuthorId])).
  - left. reflexivity.
  - apply Hent. split; [reflexivity | discriminate].
  - reflexivity.
Defined.

(** ** When a run succeeds *)

Lemma assertUniqueNames_Ok_iff (options : UniqueNamesOptions) :
  assertUniqueNames options = Ok tt <-> List.NoDup (opt_names options).
Proof.
  unfold assertUniqueNames.
  destruct (duplicateNames (opt_names options)) as [|d ds] eqn:Hd; simpl.
  - split; [intros _ | done].
    destruct (repeated_or_NoDup (opt_names options)) as [Hnd|[n Hn]]; [done|].
    apply duplicateNames_In in Hn. by rewrite Hd in Hn.
  - split; [done|]. intros Hnd. exfalso.
    assert (Hin : In d (duplicateNames (opt_names options))) by (rewrite Hd; by left).
    apply duplicateNames_In in Hin.
    apply NoDup_occurrences with (n := d) in Hnd. lia.
Qed.

Lemma mapM_imap_Ok_iff {A B C : Type} (f : B -> result C) (g : nat -> A -> B)
      (P : A -> Prop) (l : list A) :
  (forall i x, (exists y, f (g i x) = Ok y) <-> P x) ->
  (exists l', mapM f (imap g l) = Ok l') <-> Forall P l.
Proof.
  revert g. induction l as [|x l IH]; intros g Hg; simpl.
  - split; [constructor | eauto].
  - rewrite Forall_cons, <- (Hg 0%nat x), <- (IH (g ∘ S)) by (intros i y; apply Hg).
    destruct (f (g 0%nat x)) as [y|e]; simpl.
    + destruct (mapM f (imap (g ∘ S) l)) as [ys|e]; simpl.
      * split; eauto.
      * split; [intros [? ?]; done | intros [_ [? ?]]; done].
    + split; [intros [? ?]; done | intros [[? ?] _]; done].
Qed.

Lemma members_Ok_iff (enumMap : gmap string Enum) (name : nat -> option Column -> string)
      (columns : list (option Column)) :
  (exists ms, App.members enumMap name columns = Ok ms)
  <-> Forall (typeable enumMap) columns.
Proof.
  unfold App.members. apply mapM_imap_Ok_iff. intros i c. unfold typeable.
  destruct (PostgresTagged.columnType enumMap c) as [t|e]; simpl.
  - split; eauto.
  - split; intros [? ?]; done.
Qed.

Lemma foldM_Ok_iff {A S : Type} (f : S -> A -> result S) (P : A -> Prop) (l : list A) (s : S) :
  (forall s x, (exists s', f s x = Ok s') <-> P x) ->
  (exists s', App.foldM f l s = Ok s') <-> Forall P l.
Proof.
  intros Hf. revert s. induction l as [|x l IH]; intros s; simpl.
  - split; [constructor | eauto].
  - rewrite Forall_cons, <- (Hf s x). destruct (f s x) as [s1|e]; simpl.
    + rewrite IH. split; [eauto | tauto].
    + split; [intros [? ?]; done | intros [[? ?] _]; done].
Qed.

Section Acceptance.

Variables argName colName : nat -> option Column -> string.
Variable printer : Node -> string.
Variable enumMap : gmap string Enum.

Lemma emitArgs_Ok_iff (filename : string) (q : Query) (st : App.EmitState) :
  (exists r, App.emitArgs argName enumMap filename q st = Ok r) <->
  List.NoDup (mapi (fun i param => argName i (param_column param)) (q_params q)) /\
  Forall (fun param => typeable enumMap (param_column param)) (q_params q).
Proof.
  unfold App.emitArgs. destruct (q_params q) as [|p ps] eqn:Hp.
  - simpl. split; [intros _; split; constructor | eauto].
  - rewrite <- Hp. replace (0 <? length (q_params q))%nat with true by (by rewrite Hp).
    rewrite <- (List.Forall_map param_column (typeable enumMap)).
    rewrite <- (members_Ok_iff enumMap argName).
    rewrite <- (assertUniqueNames_Ok_iff
                  (mkOptions ArgumentKind (q_name q) filename
                     (mapi (fun i param => argName i (param_column param)) (q_params q)))).
    destruct (assertUniqueNames _) as [[]|e]; simpl.
    + destruct (App.members _ _ _) as [ms|e]; simpl.
      * split; eauto.
      * split; [intros [? ?]; done | intros [_ [? ?]]; done].
    + split; [intros [? ?]; done | intros [? _]; done].
Qed.

Lemma emitRow_Ok_iff (filename : string) (q : Query) (st : App.EmitState) :
  (exists r, App.emitRow colName enumMap filename q st = Ok r) <->
  List.NoDup (mapi (fun i column => colName i (Some column)) (q_columns q)) /\
  Forall (fun column => typeable enumMap (Some column)) (q_columns q).
Proof.
  unfold App.emitRow. destruct (q_columns q) as [|c cs] eqn:Hc.
  - simpl. split; [intros _; split; constructor | eauto].
  - rewrite <- Hc. replace (0 <? length (q_columns q))%nat with true by (by rewrite Hc).
    rewrite <- (List.Forall_map Some (typeable enumMap)).
    rewrite <- (members_Ok_iff enumMap colName).
    rewrite <- (assertUniqueNames_Ok_iff
                  (mkOptions ColumnKind (q_name q) filename
                     (mapi (fun i column => colName i (Some column)) (q_columns q)))).
    destruct (assertUniqueNames _) as [[]|e]; simpl.
    + destruct (App.members _ _ _) as [ms|e]; simpl.
      * split; eauto.
      * split; [intros [? ?]; done | intros [_ [? ?]]; done].
    + split; [intros [? ?]; done | intros [? _]; done].
Qed.

Lemma emitFunction_Ok_iff (lowerName : string) (argIface returnIface : option string)
      (q : Query) (st : App.EmitState) :
  (exists st', App.emitFunction argName lowerName argIface returnIface q st = Ok st')
  <-> q_cmd q <> ":execlastid".
Proof.
  unfold App.emitFunction.
  destruct (String.eqb_spec (q_cmd q) ":exec") as [He|He].
  { rewrite He. split; [done | eauto]. }
  destruct (String.eqb_spec (q_cmd q) ":execlastid").
  { simpl. split; [intros [? ?]; done | done]. }
  split; [done | intros _].
  destruct (String.eqb (q_cmd q) ":one"); [eauto|].
  destruct (String.eqb (q_cmd q) ":many"); eauto.
Qed.

Lemma emitQuery_Ok_iff (filename : string) (q : Query) (st : App.EmitState) :
  (exists st', App.emitQuery argName colName enumMap filename st q = Ok st')
  <-> accepted argName colName enumMap q.
Proof.
  unfold App.emitQuery, accepted.
  pose proof (emitArgs_Ok_iff filename q st) as Ha.
  destruct (q_name q) as [|c r] eqn:Hn; simpl.
  { split; [intros [? ?]; done | intros [? _]; done]. }
  destruct (App.emitArgs _ _ _ _ _) as [[argIface st1]|e]; simpl.
  - pose proof (emitRow_Ok_iff filename q st1) as Hr.
    destruct (App.emitRow _ _ _ _ _) as [[returnIface st2]|e]; simpl.
    + rewrite (emitFunction_Ok_iff (String (Js.lowerChar c) r) argIface returnIface q st2).
      destruct Ha as [[Ha1 Ha2] _]; [eauto|]. destruct Hr as [[Hr1 Hr2] _]; [eauto|].
      split; [intros H; repeat split; done | tauto].
    + split; [intros [? ?]; done|]. intros (_ & _ & _ & Hr1 & Hr2 & _).
      destruct Hr as [_ [? ?]]; done.
  - split; [intros [? ?]; done|]. intros (_ & Ha1 & Ha2 & _).
    destruct Ha as [_ [? ?]]; done.
Qed.

Lemma emitFile_Ok_iff (acc : list File * list string) (entry : string * list Query) :
  (exists acc', App.emitFile argName colName printer enumMap acc entry = Ok acc')
  <-> Forall (accepted argName colName enumMap) (snd entry).
Proof.
  destruct acc as [files used], entry as [filename queries]. simpl.
  unfold App.fileNodes.
  rewrite <- (foldM_Ok_iff (App.emitQuery argName colName enumMap filename) _ queries
                (App.mkState PostgresTagged.preamble [] used))
    by (intros; apply emitQuery_Ok_iff).
  destruct (App.foldM _ _ _) as [st|e]; simpl.
  - split; eauto.
  - split; intros [? ?]; done.
Qed.

End Acceptance.

(** X3.  A run succeeds exactly when every query of the request has a
    non-empty name, pairwise distinct derived argument names, pairwise
    distinct derived column names, a type the strict mapper classifies
    for each of its parameters and columns, and a command other than
    [:execlastid]. *)
Theorem codegen_succeeds_iff
        (argName colName : nat -> option Column -> string) (printer : Node -> string)
        (input : GenerateRequest) :
  (exists files, App.codegen argName colName printer input = Ok files)
  <-> Forall (accepted argName colName (App.buildEnumMap input)) (req_queries input).
Proof.
  unfold App.codegen.
  transitivity (exists acc, App.foldM (App.emitFile argName colName printer
                                         (App.buildEnumMap input))
                              (App.groupQueries (req_queries input)) ([], []) = Ok acc).
  { destruct (App.foldM _ _ _) as [[files used]|e]; simpl.
    - split; eauto.
    - split; intros [? ?]; done. }
  rewrite (foldM_Ok_iff _ (fun entry => Forall (accepted argName colName
                                                  (App.buildEnumMap input)) (snd entry)))
    by (intros; apply emitFile_Ok_iff).
  rewrite !Forall_forall. split.
  - intros H q Hq%list_elem_of_In.
    destruct (groupQueries_In _ _ Hq) as (qs & Hin & Hqs).
    apply list_elem_of_In in Hin. specialize (H _ Hin). simpl in H.
    rewrite Forall_forall in H. apply H. by apply list_elem_of_In.
  - intros H [filename qs] [-> _]%list_elem_of_In%groupQueries_entry. simpl.
    apply Forall_forall. intros q Hq%list_elem_of_In. apply H, list_elem_of_In.
    unfold queriesOf in Hq. by apply List.filter_In in Hq as [Hq _].
Qed.

(** ** The enum declarations of a file *)

Lemma addAll_app (a b seen : list string) :
  addAll (a ++ b) seen = addAll b (addAll a seen).
Proof. unfold addAll. by rewrite fold_left_app. Qed.

Lemma recordEnums_fileEnums (enumMap : gmap string Enum) (columns : list (option Column))
      (st : App.EmitState) :
  App.st_fileEnums (App.recordEnums enumMap columns st)
  = addAll (enumNames enumMap columns) (App.st_fileEnums st).
Proof.
  unfold App.recordEnums, enumNames, addAll. revert st.
  induction columns as [|c columns IH]; intros st; simpl; [done|].
  rewrite IH. destruct (PostgresTagged.getEnumName enumMap c) as [name|]; simpl; [|done].
  by destruct (String.eqb name EmptyString).
Qed.

Lemma enumNames_In (enumMap : gmap string Enum) (columns : list (option Column))
      (name : string) :
  In name (enumNames enumMap columns) <->
  name <> EmptyString /\
  exists c, In c columns /\ PostgresTagged.getEnumName enumMap c = Some name.
Proof.
  unfold enumNames. rewrite List.filter_In, negb_true_iff, String.eqb_neq.
  rewrite <- list_elem_of_In, list_elem_of_omap.
  setoid_rewrite list_elem_of_In. tauto.
Qed.

Lemma getEnumName_Some (enumMap : gmap string Enum) (c : option Column) (name : string) :
  PostgresTagged.getEnumName enumMap c = Some name -> is_Some (enumMap !! name).
Proof.
  unfold PostgresTagged.getEnumName. destruct c as [c|]; [|done].
  destruct (col_type c) as [ty|]; [|done]. case_bool_decide; [|done].
  intros ?. by simplify_eq.
Qed.

Lemma enumNodesOf_declared (enumMap : gmap string Enum) (names : list string) :
  (forall name, In name names -> is_Some (enumMap !! name)) ->
  Forall2 (fun decl name =>
             exists enumDef, enumMap !! name = Some enumDef /\
                             decl = App.enumTypeDecl name enumDef)
          (App.enumNodesOf enumMap names) names.
Proof.
  unfold App.enumNodesOf. induction names as [|name names IH]; intros H; simpl.
  - constructor.
  - destruct (H name) as [enumDef Hd]; [by left|]. rewrite Hd. simpl.
    constructor; [eauto|]. apply IH. intros n Hn. apply H. by right.
Qed.

Section FileEnums.

Variables argName colName : nat -> option Column -> string.
Variable enumMap : gmap string Enum.

Lemma emitArgs_fileEnums (filename : string) (q : Query) (st st' : App.EmitState)
      (iface : option string) :
  App.emitArgs argName enumMap filename q st = Ok (iface, st') ->
  App.st_fileEnums st'
  = addAll (enumNames enumMap (map param_column (q_params q))) (App.st_fileEnums st).
Proof.
  unfold App.emitArgs. destruct (0 <? length (q_params q))%nat eqn:Hlen.
  - destruct (assertUniqueNames _) as [[]|e]; simpl; [|done].
    destruct (App.members _ _ _) as [ms|e]; simpl; [|done].
    intros H. simplify_eq. simpl. apply recordEnums_fileEnums.
  - intros H. simplify_eq. by destruct (q_params q).
Qed.

Lemma emitRow_fileEnums (filename : string) (q : Query) (st st' : App.EmitState)
      (iface : option string) :
  App.emitRow colName enumMap filename q st = Ok (iface, st') ->
  App.st_fileEnums st'
  = addAll (enumNames enumMap (map Some (q_columns q))) (App.st_fileEnums st).
Proof.
  unfold App.emitRow. destruct (0 <? length (q_columns q))%nat eqn:Hlen.
  - destruct (assertUniqueNames _) as [[]|e]; simpl; [|done].
    destruct (App.members _ _ _) as [ms|e]; simpl; [|done].
    intros H. simplify_eq. simpl. apply recordEnums_fileEnums.
  - intros H. simplify_eq. by destruct (q_columns q).
Qed.

Lemma emitFunction_fileEnums (lowerName : string) (argIface returnIface : option string)
      (q : Query) (st st' : App.EmitState) :
  App.emitFunction argName lowerName argIface returnIface q st = Ok st' ->
  App.st_fileEnums st' = App.st_fileEnums st.
Proof.
  unfold App.emitFunction. repeat case_match; intros ?; by simplify_eq.
Qed.

(** One query adds its enum names to the file's set, and declarations
    none of which is a type alias to the file's nodes. *)
Lemma emitQuery_effect (filename : string) (q : Query) (st st' : App.EmitState) :
  App.emitQuery argName colName enumMap filename st q = Ok st' ->
  App.st_fileEnums st' = addAll (enumNamesOf enumMap q) (App.st_fileEnums st) /\
  exists added, App.st_nodes st' = App.st_nodes st ++ added /\
                Forall (fun n => isTypeAlias n = false) added.
Proof.
  unfold App.emitQuery. intros H.
  destruct (App.lowerFirst (q_name q)) as [lowerName|e]; simpl in H; [|done].
  destruct (App.emitArgs _ _ _ _ _) as [[argIface st1]|e] eqn:Ha; simpl in H; [|done].
  destruct (App.emitRow _ _ _ _ _) as [[returnIface st2]|e] eqn:Hr; simpl in H; [|done].
  split.
  - apply emitArgs_fileEnums in Ha. apply emitRow_fileEnums in Hr.
    apply emitFunction_fileEnums in H.
    unfold enumNamesOf. by rewrite addAll_app, H, Hr, Ha.
  - apply emitArgs_nodes in Ha. apply emitRow_nodes in Hr.
    apply emitFunction_nodes in H as (fs & H & Hfs & _).
    assert (Hfs' : Forall (fun n => isTypeAlias n = false) fs).
    { eapply Forall_impl; [exact Hfs|]. by intros n [f ->]. }
    rewrite H.
    destruct Ha as [(_ & _ & Ha)|(_ & _ & ms & Ha)],
             Hr as [(_ & _ & Hr)|(_ & _ & ms' & _ & Hr)]; rewrite Hr, Ha.
    + by exists fs.
    + exists (InterfaceDeclaration (q_name q +:+ "Row") ms' :: fs).
      split; [by rewrite <- app_assoc | by constructor].
    + exists (InterfaceDeclaration (q_name q +:+ "Args") ms :: fs).
      split; [by rewrite <- app_assoc | by constructor].
    + exists (InterfaceDeclaration (q_name q +:+ "Args") ms ::
              InterfaceDeclaration (q_name q +:+ "Row") ms' :: fs).
      split; [by rewrite <- !app_assoc | by repeat constructor].
Qed.

Lemma emitQueries_effect (filename : string) (queries : list Query)
      (st st' : App.EmitState) :
  App.foldM (App.emitQuery argName colName enumMap filename) queries st = Ok st' ->
  App.st_fileEnums st'
  = addAll (flat_map (enumNamesOf enumMap) queries) (App.st_fileEnums st) /\
  exists added, App.st_nodes st' = App.st_nodes st ++ added /\
                Forall (fun n => isTypeAlias n = false) added.
Proof.
  revert st. induction queries as [|q queries IH]; intros st H; simpl in H.
  - simplify_eq. split; [done|]. exists []. by rewrite app_nil_r.
  - destruct (App.emitQuery _ _ _ _ _ _) as [st1|e] eqn:Hq; simpl in H; [|done].
    apply emitQuery_effect in Hq as (Hq1 & a1 & Hq2 & Hq3).
    apply IH in H as (H1 & a2 & H2 & H3). split.
    + simpl. by rewrite addAll_app, H1, Hq1.
    + exists (a1 ++ a2). split; [by rewrite H2, Hq2, app_assoc|].
      by apply Forall_app.
Qed.

End FileEnums.

(** X4.  The declarations of a generated file are the import, then one
    type alias per enum named by a parameter or a column of the file's
    queries (each enum once, in the order of first use, built from the
    enum the map holds under that name), then the interfaces and
    functions of the queries, none of which is a type alias. *)
Theorem fileNodes_enum_declarations
        (argName colName : nat -> option Column -> string)
        (enumMap : gmap string Enum) (used used' : list string)
        (filename : string) (queries : list Query) (nodes : list Node) :
  App.fileNodes argName colName enumMap used filename queries = Ok (nodes, used') ->
  let names := firstSeen (flat_map (enumNamesOf enumMap) queries) in
  (forall name,
     In name names <->
     name <> EmptyString /\
     exists q c, In q queries /\
                 In c (map param_column (q_params q) ++ map Some (q_columns q)) /\
                 PostgresTagged.getEnumName enumMap c = Some name) /\
  List.NoDup names /\
  exists decls rest,
    nodes = PostgresTagged.preamble ++ decls ++ rest /\
    Forall2 (fun decl name =>
               exists enumDef, enumMap !! name = Some enumDef /\
                               decl = App.enumTypeDecl name enumDef)
            decls names /\
    Forall (fun n => isTypeAlias n = false) rest.
Proof.
  intros H names.
  assert (Hin : forall name,
             In name names <->
             name <> EmptyString /\
             exists q c, In q queries /\
                         In c (map param_column (q_params q) ++ map Some (q_columns q)) /\
                         PostgresTagged.getEnumName enumMap c = Some name).
  { intros name. subst names. rewrite firstSeen_In, in_flat_map. split.
    - intros (q & Hq & Hn). unfold enumNamesOf in Hn.
      apply in_app_or in Hn as [Hn|Hn]; apply enumNames_In in Hn as (Hne & c & Hc & Hg);
        (split; [done|]); exists q, c; rewrite in_app_iff; auto.
    - intros (Hne & q & c & Hq & Hc & Hg). exists q. split; [done|].
      unfold enumNamesOf. rewrite in_app_iff, !enumNames_In.
      apply in_app_or in Hc as [Hc|Hc]; [left | right]; eauto. }
  split; [done|]. split; [apply firstSeen_NoDup|].
  unfold App.fileNodes in H.
  destruct (App.foldM _ _ _) as [st|e] eqn:Hf; simpl in H; [|done].
  simplify_eq.
  apply emitQueries_effect in Hf as (Hnames & rest & Hnodes & Hrest). simpl in *.
  exists (App.enumNodesOf enumMap names), rest.
  split; [|split; [|done]].
  - rewrite Hnodes, Hnames. by unfold App.splice.
  - apply enumNodesOf_declared. intros name (_ & q & c & _ & _ & Hg)%Hin.
    by apply getEnumName_Some in Hg.
Qed.

Lemma fileNodes_enum_declarations_witness :
  List.NoDup (firstSeen (flat_map (enumNamesOf (App.buildEnumMap twoStatusCatalog))
                                  [listByStatus])).
Proof.
  assert (Hrun : exists nodes used',
             App.fileNodes Utils.argName Utils.colName (App.buildEnumMap twoStatusCatalog)
               [] "items.sql" [listByStatus] = Ok (nodes, used')).
  { vm_compute. eauto. }
  destruct Hrun as (nodes & used' & Hrun).
  apply (fileNodes_enum_declarations _ _ _ _ _ _ _ _ Hrun).
Defined.

Lemma toLowerCase_nonempty (s : string) :
  s <> EmptyString -> Js.toLowerCase s <> EmptyString.
Proof. by destruct s. Qed.

(** A file declares every enum name its set holds. *)
Lemma fileNodes_declares
      (argName colName : nat -> option Column -> string)
      (enumMap : gmap string Enum) (used used' : list string)
      (filename : string) (queries : list Query) (nodes : list Node)
      (name : string) (enumDef : Enum) :
  App.fileNodes argName colName enumMap used filename queries = Ok (nodes, used') ->
  In name (flat_map (enumNamesOf enumMap) queries) ->
  enumMap !! name = Some enumDef ->
  In (App.enumTypeDecl name enumDef) nodes.
Proof.
  intros H Hin Hd. unfold App.fileNodes in H.
  destruct (App.foldM _ _ _) as [st|e] eqn:Hf; simpl in H; [|done].
  simplify_eq.
  apply emitQueries_effect in Hf as (Hnames & _). simpl in Hnames.
  unfold App.splice. rewrite !in_app_iff. right. left.
  unfold App.enumNodesOf. apply list_elem_of_In, list_elem_of_omap.
  exists name. split; [|by rewrite Hd].
  apply list_elem_of_In. rewrite Hnames. by apply firstSeen_In.
Qed.

(** X5.  In a generated file every reference to an enum type has its
    declaration: a parameter or column whose type name is non-empty,
    does not start with [pg_catalog.] and, lowercased, is a key of the
    enum map, is typed by a reference to the Pascal-cased name, and
    the file holds the type alias of that very name, the union of the
    enum's values. *)
Theorem enum_reference_is_declared
        (argName colName : nat -> option Column -> string)
        (enumMap : gmap string Enum) (used used' : list string)
        (filename : string) (queries : list Query) (nodes : list Node)
        (q : Query) (c : Column) (ty : Identifier) (enumDef : Enum) :
  App.fileNodes argName colName enumMap used filename queries = Ok (nodes, used') ->
  In q queries ->
  In (Some c) (map param_column (q_params q) ++ map Some (q_columns q)) ->
  col_type c = Some ty ->
  id_name ty <> EmptyString ->
  Js.startsWith (id_name ty) pgCatalog = false ->
  enumMap !! Js.toLowerCase (id_name ty) = Some enumDef ->
  let alias := pascalCase (Js.toLowerCase (id_name ty)) in
  PostgresTagged.columnType enumMap (Some c)
  = Ok (nullWrap c (arrayWrap c (TypeReferenceNode alias []))) /\
  In (TypeAliasDeclaration alias
        (UnionTypeNode (map LiteralTypeString (enum_vals enumDef)))) nodes.
Proof.
  intros H Hq Hc Hty Hne Hpre Hd alias. split.
  - unfold PostgresTagged.columnType. rewrite Hty. unfold stripPgCatalog.
    rewrite Hpre. rewrite bool_decide_eq_true_2; [done | by rewrite Hd].
  - apply (fileNodes_declares _ _ _ _ _ _ _ _ _ enumDef H); [|done].
    apply in_flat_map. exists q. split; [done|].
    unfold enumNamesOf. rewrite in_app_iff, !enumNames_In.
    assert (Hg : PostgresTagged.getEnumName enumMap (Some c)
                 = Some (Js.toLowerCase (id_name ty))).
    { unfold PostgresTagged.getEnumName. rewrite Hty.
      rewrite bool_decide_eq_true_2; [done | by rewrite Hd]. }
    apply toLowerCase_nonempty in Hne.
    apply in_app_or in Hc as [Hc|Hc]; [left | right]; eauto.
Qed.

Lemma enum_reference_is_declared_witness :
  exists nodes,
    In (TypeAliasDeclaration "Status"
          (UnionTypeNode [LiteralTypeString "archived"])) nodes.
Proof.
  assert (Hrun : exists nodes used',
             App.fileNodes Utils.argName Utils.colName (App.buildEnumMap twoStatusCatalog)
               [] "items.sql" [listByStatus] = Ok (nodes, used')).
  { vm_compute. eauto. }
  destruct Hrun as (nodes & used' & Hrun). exists nodes.
  apply (enum_reference_is_declared _ _ _ _ _ _ _ _ listByStatus
           (sampleColumn "status" "status" true) (typeNamed "status")
           (mkEnum "status" ["archived"]) Hrun).
  - left. reflexivity.
  - right. right. left. reflexivity.
  - reflexivity.
  - discriminate.
  - reflexivity.
  - vm_compute. reflexivity.
Defined.

(** X6.  The two enum tests of the strict driver differ on qualified
    names: [columnType] looks the name up with the [pg_catalog.] prefix
    stripped, [getEnumName] with the prefix kept.  So a column typed
    [pg_catalog.<n>], where the enum map holds the lowercased [<n>] but
    not the lowercased full name, is typed by a reference to the enum
    while no enum name is reported for it. *)
Theorem qualified_enum_is_referenced_but_not_reported
        (enumMap : gmap string Enum) (c : Column) (ty : Identifier) (n : string) :
  col_type c = Some ty ->
  id_name ty = pgCatalog +:+ n ->
  is_Some (enumMap !! Js.toLowerCase n) ->
  enumMap !! Js.toLowerCase (id_name ty) = None ->
  PostgresTagged.columnType enumMap (Some c)
  = Ok (nullWrap c (arrayWrap c (TypeReferenceNode (pascalCase (Js.toLowerCase n)) []))) /\
  PostgresTagged.getEnumName enumMap (Some c) = None.
Proof.
  intros Hty Hname Hn Hfull. split.
  - unfold PostgresTagged.columnType. rewrite Hty.
    replace (stripPgCatalog (id_name ty)) with n.
    + by rewrite bool_decide_eq_true_2.
    + rewrite Hname. unfold stripPgCatalog, Js.startsWith.
      rewrite prefix_app. symmetry. apply sliceFrom_app.
  - unfold PostgresTagged.getEnumName. rewrite Hty.
    rewrite bool_decide_eq_false_2; [done|]. rewrite Hfull. by intros [? ?].
Qed.

Lemma qualified_enum_is_referenced_but_not_reported_witness :
  PostgresTagged.getEnumName (App.buildEnumMap twoStatusCatalog)
    (Some (sampleColumn "status" "pg_catalog.status" true)) = None.
Proof.
  apply (qualified_enum_is_referenced_but_not_reported
           (App.buildEnumMap twoStatusCatalog)
           (sampleColumn "status" "pg_catalog.status" true)
           (typeNamed "pg_catalog.status") "status").
  - reflexivity.
  - reflexivity.
  - vm_compute. eauto.
  - vm_compute. reflexivity.
Defined.

(** ** The cross-file enum set has no effect on the output *)

Section UsedEnums.

Variables argName colName : nat -> option Column -> string.
Variable printer : Node -> string.
Variable enumMap : gmap string Enum.

Lemma recordEnums_withUsed (columns : list (option Column)) (u : list string)
      (st : App.EmitState) :
  App.recordEnums enumMap columns (withUsed u st)
  = withUsed (addAll (enumNames enumMap columns) u) (App.recordEnums enumMap columns st).
Proof.
  unfold App.recordEnums, enumNames, addAll. revert u st.
  induction columns as [|c columns IH]; intros u st; simpl; [done|].
  destruct (PostgresTagged.getEnumName enumMap c) as [name|]; simpl; [|apply IH].
  destruct (String.eqb name EmptyString); simpl; [apply IH|].
  apply (IH (JsMap.add name u)
            (App.mkState (App.st_nodes st) (JsMap.add name (App.st_fileEnums st))
                         (JsMap.add name (App.st_usedEnums st)))).
Qed.

Lemma emitArgs_withUsed (filename : string) (q : Query) (st st' : App.EmitState)
      (iface : option string) (u : list string) :
  App.emitArgs argName enumMap filename q st = Ok (iface, st') ->
  exists u', App.emitArgs argName enumMap filename q (withUsed u st)
             = Ok (iface, withUsed u' st').
Proof.
  unfold App.emitArgs. destruct (0 <? length (q_params q))%nat.
  - destruct (assertUniqueNames _) as [[]|e]; simpl; [|done].
    destruct (App.members _ _ _) as [ms|e]; simpl; [|done].
    intros ?. simplify_eq. rewrite recordEnums_withUsed. eauto.
  - intros ?. simplify_eq. eauto.
Qed.

Lemma emitRow_withUsed (filename : string) (q : Query) (st st' : App.EmitState)
      (iface : option string) (u : list string) :
  App.emitRow colName enumMap filename q st = Ok (iface, st') ->
  exists u', App.emitRow colName enumMap filename q (withUsed u st)
             = Ok (iface, withUsed u' st').
Proof.
  unfold App.emitRow. destruct (0 <? length (q_columns q))%nat.
  - destruct (assertUniqueNames _) as [[]|e]; simpl; [|done].
    destruct (App.members _ _ _) as [ms|e]; simpl; [|done].
    intros ?. simplify_eq. rewrite recordEnums_withUsed. eauto.
  - intros ?. simplify_eq. eauto.
Qed.

Lemma emitFunction_withUsed (lowerName : string) (argIface returnIface : option string)
      (q : Query) (st st' : App.EmitState) (u : list string) :
  App.emitFunction argName lowerName argIface returnIface q st = Ok st' ->
  App.emitFunction argName lowerName argIface returnIface q (withUsed u st)
  = Ok (withUsed u st').
Proof.
  unfold App.emitFunction. repeat case_match; intros ?; by simplify_eq.
Qed.

Lemma emitQuery_withUsed (filename : string) (q : Query) (st st' : App.EmitState)
      (u : list string) :
  App.emitQuery argName colName enumMap filename st q = Ok st' ->
  exists u', App.emitQuery argName colName enumMap filename (withUsed u st) q
             = Ok (withUsed u' st').
Proof.
  unfold App.emitQuery. intros H.
  destruct (App.lowerFirst (q_name q)) as [lowerName|e]; simpl in *; [|done].
  destruct (App.emitArgs _ _ _ _ st) as [[argIface st1]|e] eqn:Ha; simpl in H; [|done].
  destruct (App.emitRow _ _ _ _ st1) as [[returnIface st2]|e] eqn:Hr; simpl in H; [|done].
  destruct (emitArgs_withUsed _ _ _ _ _ u Ha) as [u1 ->]. simpl.
  destruct (emitRow_withUsed _ _ _ _ _ u1 Hr) as [u2 ->]. simpl.
  exists u2. by apply emitFunction_withUsed.
Qed.

Lemma emitQueries_withUsed (filename : string) (queries : list Query)
      (st st' : App.EmitState) (u : list string) :
  App.foldM (App.emitQuery argName colName enumMap filename) queries st = Ok st' ->
  exists u', App.foldM (App.emitQuery argName colName enumMap filename) queries
               (withUsed u st) = Ok (withUsed u' st').
Proof.
  revert st u. induction queries as [|q queries IH]; intros st u H; simpl in *.
  - simplify_eq. eauto.
  - destruct (App.emitQuery _ _ _ _ st q) as [st1|e] eqn:Hq; simpl in H; [|done].
    destruct (emitQuery_withUsed _ _ _ _ u Hq) as [u1 ->]. simpl. by apply IH.
Qed.

Lemma fileNodes_withUsed (filename : string) (queries : list Query)
      (used used' u : list string) (nodes : list Node) :
  App.fileNodes argName colName enumMap used filename queries = Ok (nodes, used') ->
  exists u', App.fileNodes argName colName enumMap u filename queries = Ok (nodes, u').
Proof.
  unfold App.fileNodes. intros H.
  destruct (App.foldM _ _ _) as [st|e] eqn:Hf; simpl in H; [|done]. simplify_eq.
  destruct (emitQueries_withUsed _ _ _ _ u Hf) as [u' Hu].
  change (withUsed u (App.mkState PostgresTagged.preamble [] used))
    with (App.mkState PostgresTagged.preamble [] u) in Hu.
  rewrite Hu. simpl. eauto.
Qed.

Lemma emitFiles_contents (groups : list (string * list Query))
      (acc : list File * list string) (files : list File) (used : list string) :
  App.foldM (App.emitFile argName colName printer enumMap) groups acc = Ok (files, used) ->
  exists new,
    files = fst acc ++ new /\
    Forall2 (fun f entry =>
               file_name f = App.outputName (fst entry) /\
               exists nodes u,
                 App.fileNodes argName colName enumMap [] (fst entry) (snd entry)
                 = Ok (nodes, u) /\
                 file_contents f = App.printNode printer nodes)
            new groups.
Proof.
  revert acc. induction groups as [|[fn qs] groups IH]; intros [fs us] H; simpl in H.
  - simplify_eq. exists []. split; [by rewrite app_nil_r | constructor].
  - destruct (App.fileNodes _ _ _ _ _ _) as [[nodes us1]|e] eqn:Hn; simpl in H; [|done].
    apply IH in H as (new & -> & HF). simpl.
    exists (mkFile (App.outputName fn) (App.printNode printer nodes) :: new).
    split; [by rewrite <- app_assoc|]. constructor; [|done].
    split; [done|]. destruct (fileNodes_withUsed _ _ _ _ [] _ Hn) as [u' Hu']. eauto.
Qed.

End UsedEnums.

(** X2.  A successful run returns one file per distinct source
    filename, in first-seen order of the filenames; the file is named
    by [outputName] and its contents are the printed declarations of
    that filename's queries alone, taken in request order: neither the
    other files nor the cross-file enum set have any effect on it. *)
Theorem codegen_files_are_independent
        (argName colName : nat -> option Column -> string) (printer : Node -> string)
        (input : GenerateRequest) (files : list File) :
  App.codegen argName colName printer input = Ok files ->
  Forall2 (fun f filename =>
             file_name f = App.outputName filename /\
             exists nodes u,
               App.fileNodes argName colName (App.buildEnumMap input) [] filename
                 (queriesOf filename (req_queries input)) = Ok (nodes, u) /\
               file_contents f = App.printNode printer nodes)
          files (firstSeen (map q_filename (req_queries input))).
Proof.
  intros Hc. unfold App.codegen in Hc.
  destruct (App.foldM _ _ _) as [[fs used]|e] eqn:Hf; simpl in Hc; [|done].
  simplify_eq.
  apply emitFiles_contents in Hf as (new & -> & HF). simpl.
  rewrite <- groupQueries_keys.
  assert (Hent : forall entry, In entry (App.groupQueries (req_queries input)) ->
                               snd entry = queriesOf (fst entry) (req_queries input)).
  { intros [fn qs] Hin. by apply groupQueries_entry in Hin as [-> _]. }
  induction HF as [|f entry new groups (Hname & nodes & u & Hn & Hcont) _ IH]; simpl.
  - constructor.
  - constructor.
    + split; [done|]. exists nodes, u. split; [|done].
      rewrite <- (Hent entry) by (by left). done.
    + apply IH. intros e' He'. apply Hent. by right.
Qed.

Lemma codegen_files_are_independent_witness :
  exists files,
    Forall2 (fun f filename =>
               file_name f = App.outputName filename /\
               exists nodes u,
                 App.fileNodes Utils.argName Utils.colName (App.buildEnumMap statusRequest)
                   [] filename (queriesOf filename (req_queries statusRequest))
                 = Ok (nodes, u) /\
                 file_contents f = App.printNode samplePrinter nodes)
            files (firstSeen (map q_filename (req_queries statusRequest))).
Proof.
  assert (Hrun : exists files,
             App.codegen Utils.argName Utils.colName samplePrinter statusRequest = Ok files).
  { vm_compute. eauto. }
  destruct Hrun as [files Hrun]. exists files.
  apply (codegen_files_are_independent _ _ _ _ _ Hrun).
Defined.

(** ** The emitted functions, run *)

Lemma postgresJs_oneDecl_guarded_witness :
  Interp.call twoAuthors (fun v => v)
    (PostgresJs.oneDecl Utils.argName "getAuthor" "getAuthorQuery" (Some "GetAuthorArgs")
                        "GetAuthorRow" getAuthorParams authorColumns)
    getAuthorGlobals [VClient; VObject [("id", VNumber 1)]]
  = Ok VNull.
Proof.
  apply (postgresJs_oneDecl_guarded twoAuthors (fun v => v) Utils.argName
           "getAuthor" "getAuthorQuery" "GetAuthorArgs" "GetAuthorRow"
           getAuthorParams authorColumns getAuthorGlobals [("id", VNumber 1)]
           (VString getAuthorText));
    solve [discriminate | reflexivity].
Defined.

Lemma common_oneDecl_guarded_witness :
  Interp.call twoAuthors (fun v => v)
    (PostgresCommon.oneDecl Utils.argName Utils.colName "getAuthor" "getAuthorQuery"
                            (Some "GetAuthorArgs") "GetAuthorRow" getAuthorParams
                            authorColumns)
    getAuthorGlobals [VClient; VObject [("id", VNumber 1)]]
  = Ok VNull.
Proof.
  apply (common_oneDecl_guarded (fun v => v) Utils.argName Utils.colName twoAuthors
           "getAuthor" "getAuthorQuery" "GetAuthorArgs" "GetAuthorRow"
           getAuthorParams authorColumns getAuthorGlobals [("id", VNumber 1)]
           (VString getAuthorText)).
  - discriminate.
  - discriminate.
  - simpl. intuition discriminate.
  - reflexivity.
  - reflexivity.
Defined.

Lemma sqlite_oneDecl_guarded_witness :
  Interp.call twoAuthors (fun v => v)
    (BunSqlite.oneDecl Utils.argName Utils.colName "getAuthor" "getAuthorQuery"
                       (Some "GetAuthorArgs") "GetAuthorRow" getAuthorParams
                       authorColumns)
    getAuthorGlobals [VClient; VObject [("id", VNumber 1)]]
  = Ok VNull.
Proof.
  apply (sqlite_oneDecl_guarded (fun v => v) Utils.argName Utils.colName twoAuthors
           "getAuthor" "getAuthorQuery" "GetAuthorArgs" "GetAuthorRow"
           getAuthorParams authorColumns getAuthorGlobals [("id", VNumber 1)]
           (VString getAuthorText)).
  - discriminate.
  - discriminate.
  - simpl. intuition discriminate.
  - reflexivity.
Defined.


Section UnsafeCall.

Variable db : list (list (string * Value)).
Variable jsNumber : Value -> Value.
Variable argName : nat -> option Column -> string.

(** [sql.unsafe(query, [args...])] is a pending query whenever [sql]
    is the client, the query text is bound and [args] is an object. *)
Lemma unsafeCall_eval (env : list (string * option Value)) (queryName : string)
      (params : list QueryParameter) (args : list (string * Value)) (qv : Value) :
  Interp.lookup "sql" env = Ok VClient ->
  Interp.lookup queryName env = Ok qv ->
  JsMap.get "args" env = Some (Some (VObject args)) ->
  Interp.evalExpr db jsNumber env
    (CallExpression
       (PropertyAccessExpression (IdentifierExpr "sql") "unsafe")
       [IdentifierExpr queryName;
        ArrayLiteralExpression (PostgresCommon.argAccesses argName params)])
  = Ok VQuery.
Proof.
  intros Hsql Hq Hargs. cbn [Interp.evalExpr mapM]. rewrite Hsql, Hq.
  cbn [mbind result_bind].
  rewrite argAccesses_argsFields, (argsFields_eval db jsNumber env args _ Hargs).
  reflexivity.
Qed.

End UnsafeCall.

(** X10.  For a query with parameters whose text constant is bound in
    the module: run against a result set, the [:many] function of the
    class-form postgres.js driver resolves to all the rows, as objects
    keyed by column name and in the order of the result set, with no
    per-column mapping; the [:exec] functions of that driver and of the
    shared PostgreSQL driver resolve to [undefined]. *)
Theorem unsafe_manyDecl_and_execDecl_run
        (argName : nat -> option Column -> string) (jsNumber : Value -> Value)
        (db : list (list (string * Value)))
        (funcName queryName iface returnIface : string)
        (params : list QueryParameter) (columns : list Column)
        (globals : list (string * option Value)) (args : list (string * Value))
        (qv : Value) :
  iface <> EmptyString -> params <> [] ->
  queryName <> "sql" -> queryName <> "args" ->
  JsMap.get queryName globals = Some (Some qv) ->
  Interp.call db jsNumber
    (PostgresJs.manyDecl argName funcName queryName (Some iface) returnIface
                         params columns)
    globals [VClient; VObject args]
  = Ok (VArray (map VObject db)) /\
  Interp.call db jsNumber
    (PostgresJs.execDecl argName funcName queryName (Some iface) params)
    globals [VClient; VObject args]
  = Ok VUndefined /\
  Interp.call db jsNumber
    (PostgresCommon.execDecl argName funcName queryName (Some iface) params)
    globals [VClient; VObject args]
  = Ok VUndefined.
Proof.
  intros Hi Hp Hs Ha Hq.
  assert (Es : String.eqb "sql" queryName = false) by (apply String.eqb_neq; congruence).
  assert (Ea : String.eqb "args" queryName = false) by (apply String.eqb_neq; congruence).
  set (env0 := ("sql", Some VClient) :: ("args", Some (VObject args)) :: globals).
  assert (L1 : Interp.lookup "sql" env0 = Ok VClient) by reflexivity.
  assert (L2 : Interp.lookup queryName env0 = Ok qv).
  { unfold Interp.lookup, env0. cbn [JsMap.get]. by rewrite Es, Ea, Hq. }
  assert (L3 : JsMap.get "args" env0 = Some (Some (VObject args))) by reflexivity.
  pose proof (unsafeCall_eval db jsNumber argName env0 queryName params args qv L1 L2 L3)
    as Hcall.
  split; [|split].
  - unfold Interp.call, PostgresJs.manyDecl, Interp.initialEnv, PostgresJs.funcParamsDecl.
    cbn [fn_body fn_parameters Interp.declaredNames omap list_omap].
    rewrite (common_funcParamsDecl_with_args iface params Hi Hp).
    cbn [Interp.bindParameters map app Interp.execBlock Interp.execStmt].
    rewrite as_eval. change (Interp.evalExpr db jsNumber ?e (AwaitExpression ?x))
      with (v ← Interp.evalExpr db jsNumber e x; Ok (Interp.await db v)).
    fold env0. by rewrite Hcall.
  - unfold Interp.call, PostgresJs.execDecl, Interp.initialEnv, PostgresJs.funcParamsDecl.
    cbn [fn_body fn_parameters Interp.declaredNames omap list_omap].
    rewrite (common_funcParamsDecl_with_args iface params Hi Hp).
    cbn [Interp.bindParameters map app Interp.execBlock Interp.execStmt].
    change (Interp.evalExpr db jsNumber ?e (AwaitExpression ?x))
      with (v ← Interp.evalExpr db jsNumber e x; Ok (Interp.await db v)).
    fold env0. by rewrite Hcall.
  - unfold Interp.call, PostgresCommon.execDecl, Interp.initialEnv.
    cbn [fn_body fn_parameters Interp.declaredNames omap list_omap].
    rewrite (common_funcParamsDecl_with_args iface params Hi Hp).
    cbn [Interp.bindParameters map app Interp.execBlock Interp.execStmt].
    change (Interp.evalExpr db jsNumber ?e (AwaitExpression ?x))
      with (v ← Interp.evalExpr db jsNumber e x; Ok (Interp.await db v)).
    fold env0. by rewrite Hcall.
Qed.

Lemma unsafe_manyDecl_and_execDecl_run_witness :
  Interp.call twoAuthors (fun v => v)
    (PostgresJs.manyDecl Utils.argName "getAuthor" "getAuthorQuery" (Some "GetAuthorArgs")
                         "GetAuthorRow" getAuthorParams authorColumns)
    getAuthorGlobals [VClient; VObject [("id", VNumber 1)]]
  = Ok (VArray (map VObject twoAuthors)).
Proof.
  apply (unsafe_manyDecl_and_execDecl_run Utils.argName (fun v => v) twoAuthors
           "getAuthor" "getAuthorQuery" "GetAuthorArgs" "GetAuthorRow"
           getAuthorParams authorColumns getAuthorGlobals [("id", VNumber 1)]
           (VString getAuthorText));
    solve [discriminate | reflexivity].
Defined.

(** ** The shape of the template *)

Lemma mapi_from_snoc {A B : Type} (f : nat -> A -> B) (j : nat) (l : list A) (x : A) :
  mapi_from j f (l ++ [x]) = mapi_from j f l ++ [f (j + length l) x].
Proof.
  revert j. induction l as [|y l IH]; intros j; simpl.
  - by rewrite Nat.add_0_r.
  - by rewrite IH, Nat.add_succ_r.
Qed.

Lemma mapi_from_length {A B : Type} (f : nat -> A -> B) (j : nat) (l : list A) :
  length (mapi_from j f l) = length l.
Proof. revert j. induction l as [|y l IH]; intros j; simpl; [done | by rewrite IH]. Qed.

Lemma mapi_from_Forall {A B : Type} (f : nat -> A -> B) (P : B -> Prop) (j : nat)
      (l : list A) :
  (forall i x, j <= i < j + length l -> P (f i x)) -> Forall P (mapi_from j f l).
Proof.
  revert j. induction l as [|y l IH]; intros j H; simpl; constructor.
  - apply H. simpl. lia.
  - apply IH. intros i x Hi. apply H. simpl. lia.
Qed.

(** The shape of the template, by the matches of the regular
    expression. *)
Lemma buildTaggedTemplate_shape
        (argName : nat -> option Column -> string)
        (queryText : string) (params : list QueryParameter) :
  (matchAll queryText = [] /\
   PostgresTagged.buildTaggedTemplate argName queryText params
   = TaggedTemplateExpression (IdentifierExpr "sql") []
       (NoSubstitutionTemplateLiteral queryText)) \/
  (matchAll queryText <> [] /\
   exists head spans,
     PostgresTagged.buildTaggedTemplate argName queryText params
     = TaggedTemplateExpression (IdentifierExpr "sql") [] (TemplateExpression head spans) /\
     length spans = length (matchAll queryText) /\
     wellFormedSpans spans).
Proof.
  destruct (scanTemplate_spec argName queryText params) as (parts & Hscan & _).
  unfold PostgresTagged.buildTaggedTemplate. rewrite Hscan.
  destruct (matchAll queryText) as [|m ms] eqn:Hm using rev_ind; [by left|].
  clear IHms. right. split; [by destruct ms|].
  rewrite map_app, length_app. simpl map. simpl length.
  replace (length (map (PostgresTagged.boundExpression argName params) ms) + 1 =? 0)%nat
    with false by (symmetry; apply Nat.eqb_neq; lia).
  eexists _, _. split; [reflexivity|]. split.
  - unfold mapi. by rewrite mapi_from_snoc, !length_app, mapi_from_length, length_map.
  - unfold mapi. rewrite mapi_from_snoc. simpl.
    rewrite Nat.add_sub, Nat.eqb_refl.
    eexists _, _, _. split; [reflexivity|].
    apply mapi_from_Forall. intros i e Hi.
    replace (i =? length (map (PostgresTagged.boundExpression argName params) ms))%nat
      with false by (symmetry; apply Nat.eqb_neq; lia).
    by eexists.
Qed.

(** ** Wide columns: declared type and accessor *)

Lemma wide_baseType (c : Column) (ty : Identifier) :
  col_type c = Some ty ->
  PostgresCommon.isBigIntType (Some c) = true ->
  PostgresCommon.baseType (Js.toLowerCase (stripPgCatalog (id_name ty)))
  = KeywordTypeNode NumberKeyword.
Proof.
  unfold PostgresCommon.isBigIntType. intros ->.
  destruct (String.eqb (id_name ty) EmptyString); [done|].
  intros H%oneOf_In. simpl in H.
  destruct H as [<-|[<-|[<-|[<-|[]]]]]; reflexivity.
Qed.

(** X13.  In the shared PostgreSQL driver a wide-integer column is
    declared [number], wrapped in its array levels and its null union
    like any other column, while its accessor applies [Number] to the
    whole cell without looking at the array levels: for a wide array
    column, which is declared as an array of numbers, a cell holding an
    array comes back as the [Number] conversion of that array. *)
Theorem wide_array_column_is_converted_whole
        (db : list (list (string * Value))) (jsNumber : Value -> Value)
        (env : list (string * option Value)) (vals cell : list Value)
        (col : Column) (i : nat) :
  JsMap.get "row" env = Some (Some (VArray vals)) ->
  JsMap.get "Number" env = None ->
  PostgresCommon.isBigIntType (Some col) = true ->
  (col_isArray col = true \/ (0 < col_arrayDims col)%Z) ->
  (0 <= col_arrayDims col)%Z ->
  vals !! i = Some (VArray cell) ->
  PostgresCommon.columnType (Some col)
  = nullWrap col (arrayWrap col (KeywordTypeNode NumberKeyword)) /\
  0 < arrayLevels (PostgresCommon.columnType (Some col)) /\
  Interp.evalExpr db jsNumber env (PostgresCommon.createRowAccessExpression col i)
  = Ok (jsNumber (VArray cell)).
Proof.
  intros Hrow Hnum Hwide Harr Hdims Hcell.
  assert (Hty : PostgresCommon.columnType (Some col)
                = nullWrap col (arrayWrap col (KeywordTypeNode NumberKeyword))).
  { unfold PostgresCommon.columnType.
    destruct (col_type col) as [ty|] eqn:Ht.
    2: { unfold PostgresCommon.isBigIntType in Hwide. by rewrite Ht in Hwide. }
    by rewrite (wide_baseType col ty Ht Hwide). }
  split; [done|]. split.
  - rewrite Hty. unfold arrayLevels, nullWrap, arrayWrap.
    replace (col_isArray col || (0 <? col_arrayDims col)%Z) with true.
    + assert (Hd : 0 < arrayDepth
                         (Nat.iter (Z.to_nat (if (col_arrayDims col =? 0)%Z then 1%Z
                                              else col_arrayDims col))
                                   ArrayTypeNode (KeywordTypeNode NumberKeyword))).
      { rewrite arrayDepth_iter. destruct (Z.eqb_spec (col_arrayDims col) 0); lia. }
      destruct (col_notNull col); [|exact Hd].
      by destruct (Z.to_nat _).
    + symmetry. apply orb_true_iff. destruct Harr as [->|Hpos]; [by left|].
      right. by apply Z.ltb_lt.
  - rewrite (createRowAccessExpression_eval db jsNumber env vals Hrow Hnum col i).
    rewrite Hwide, Hcell. simpl. unfold narrowed. by destruct (col_notNull col).
Qed.

Lemma wide_array_column_is_converted_whole_witness :
  Interp.evalExpr [] (fun _ => VNaN) [("row", Some (VArray [VArray [VNumber 1; VNumber 2]]))]
    (PostgresCommon.createRowAccessExpression
       (mkColumn "ids" true true 1 (Some (typeNamed "int8"))) 0)
  = Ok VNaN.
Proof.
  apply (wide_array_column_is_converted_whole [] (fun _ => VNaN)
           [("row", Some (VArray [VArray [VNumber 1; VNumber 2]]))]
           [VArray [VNumber 1; VNumber 2]] [VNumber 1; VNumber 2]
           (mkColumn "ids" true true 1 (Some (typeNamed "int8"))) 0).
  - reflexivity.
  - reflexivity.
  - reflexivity.
  - left. reflexivity.
  - simpl. lia.
  - reflexivity.
Defined.

(** ** The signature of the emitted function *)

Lemma emitFunction_shape (argName : nat -> option Column -> string)
      (lowerName : string) (argIface returnIface : option string)
      (q : Query) (st st' : App.EmitState) :
  App.emitFunction argName lowerName argIface returnIface q st = Ok st' ->
  (In (q_cmd q) [":exec"; ":one"; ":many"] ->
   exists f,
     App.st_nodes st' = App.st_nodes st ++ [FunctionDeclaration f] /\
     fn_name f = lowerName /\
     fn_parameters f = PostgresTagged.funcParamsDecl argIface (q_params q) /\
     fn_type f
     = TypeReferenceNode "Promise"
         [if String.eqb (q_cmd q) ":exec" then KeywordTypeNode VoidKeyword
          else if String.eqb (q_cmd q) ":one"
               then UnionTypeNode [TypeReferenceNode (default "void" returnIface) [];
                                   LiteralTypeNull]
               else ArrayTypeNode (TypeReferenceNode (default "void" returnIface) [])]) /\
  (~ In (q_cmd q) [":exec"; ":execlastid"; ":one"; ":many"] -> st' = st).
Proof.
  unfold App.emitFunction. intros H. split.
  - intros [Hc|[Hc|[Hc|[]]]]; rewrite <- Hc in *; simpl in H; simplify_eq;
      eexists; (split; [reflexivity|]); done.
  - intros Hn.
    destruct (String.eqb_spec (q_cmd q) ":exec") as [E|_]; [rewrite E in Hn; simpl in Hn; tauto|].
    destruct (String.eqb_spec (q_cmd q) ":execlastid") as [E|_];
      [rewrite E in Hn; simpl in Hn; tauto|].
    destruct (String.eqb_spec (q_cmd q) ":one") as [E|_]; [rewrite E in Hn; simpl in Hn; tauto|].
    destruct (String.eqb_spec (q_cmd q) ":many") as [E|_]; [rewrite E in Hn; simpl in Hn; tauto|].
    by simplify_eq.
Qed.

(** X14.  For a query whose emission succeeds with command [:exec],
    [:one] or [:many], the last declaration added is a function, after
    interfaces only: it is named by the query name with its first
    letter lower-cased; it takes [sql: Sql] and, exactly when the
    query has parameters, [args] typed by the query's [Args]
    interface; it promises [void] for [:exec], the row type or [null]
    for [:one] and an array of the row type for [:many], the row type
    being the query's [Row] interface, or [void] when the query has no
    column.  With a command that is none of the four known ones no
    function is added at all, and nothing is raised. *)
Theorem emitQuery_function_signature
        (argName colName : nat -> option Column -> string)
        (enumMap : gmap string Enum) (filename : string) (q : Query)
        (st st' : App.EmitState) :
  App.emitQuery argName colName enumMap filename st q = Ok st' ->
  (In (q_cmd q) [":exec"; ":one"; ":many"] ->
   exists before f,
     App.st_nodes st' = App.st_nodes st ++ before ++ [FunctionDeclaration f] /\
     Forall isInterface before /\
     App.lowerFirst (q_name q) = Ok (fn_name f) /\
     fn_parameters f
     = ("sql", TypeReferenceNode "Sql" []) ::
       match q_params q with
       | [] => []
       | _ => [("args", TypeReferenceNode (q_name q +:+ "Args") [])]
       end /\
     fn_type f = promisedType q) /\
  (~ In (q_cmd q) [":exec"; ":execlastid"; ":one"; ":many"] ->
   exists before,
     App.st_nodes st' = App.st_nodes st ++ before /\ Forall isInterface before).
Proof.
  unfold App.emitQuery. intros H.
  destruct (App.lowerFirst (q_name q)) as [lowerName|e] eqn:Hl; simpl in H; [|done].
  destruct (App.emitArgs _ _ _ _ _) as [[argIface st1]|e] eqn:Ha; simpl in H; [|done].
  destruct (App.emitRow _ _ _ _ _) as [[returnIface st2]|e] eqn:Hr; simpl in H; [|done].
  apply emitArgs_nodes in Ha. apply emitRow_nodes in Hr.
  apply emitFunction_shape in H as [Hknown Hunknown].
  assert (Hbefore : exists before,
             App.st_nodes st2 = App.st_nodes st ++ before /\ Forall isInterface before).
  { destruct Ha as [(_ & _ & Ha)|(_ & _ & ms & Ha)],
             Hr as [(_ & _ & Hr)|(_ & _ & ms' & _ & Hr)]; rewrite Hr, Ha.
    - exists []. by rewrite app_nil_r.
    - eexists [_]. split; [done|]. repeat constructor. by eexists _, _.
    - eexists [_]. split; [done|]. repeat constructor. by eexists _, _.
    - eexists [_; _]. split; [by rewrite <- app_assoc|].
      repeat constructor; by eexists _, _. }
  destruct Hbefore as (before & Hnodes & Hifaces).
  split.
  - intros Hc. destruct (Hknown Hc) as (f & Hf & Hname & Hparams & Htype).
    exists before, f. split; [by rewrite Hf, Hnodes, app_assoc|].
    split; [done|]. split; [by rewrite Hname|]. split.
    + rewrite Hparams. unfold PostgresTagged.funcParamsDecl.
      destruct Ha as [(Hp & -> & _)|(Hp & -> & _)].
      * by rewrite Hp.
      * destruct (q_params q) as [|p ps]; [done|].
        destruct (q_name q); [done|]. done.
    + rewrite Htype. unfold promisedType, rowTypeName.
      destruct Hr as [(Hcols & -> & _)|(Hcols & -> & _)].
      * by rewrite Hcols.
      * by destruct (q_columns q).
  - intros Hc. rewrite (Hunknown Hc). eauto.
Qed.

Lemma emitQuery_function_signature_witness :
  exists st',
    App.emitQuery Utils.argName Utils.colName (App.buildEnumMap statusRequest) "items.sql"
      (App.mkState PostgresTagged.preamble [] []) listByStatus = Ok st' /\
    exists before f,
      App.st_nodes st' = PostgresTagged.preamble ++ before ++ [FunctionDeclaration f] /\
      fn_type f = promisedType listByStatus.
Proof.
  assert (Hrun : exists st',
             App.emitQuery Utils.argName Utils.colName (App.buildEnumMap statusRequest)
               "items.sql" (App.mkState PostgresTagged.preamble [] []) listByStatus
             = Ok st').
  { vm_compute. eauto. }
  destruct Hrun as [st' Hrun]. exists st'. split; [exact Hrun|].
  destruct (emitQuery_function_signature _ _ _ _ _ _ _ Hrun) as [Hknown _].
  destruct Hknown as (before & f & Hnodes & _ & _ & _ & Htype).
  - right. right. left. reflexivity.
  - exists before, f. split; [exact Hnodes | exact Htype].
Defined.

(** ** Output names *)

Lemma codegen_file_names
      (argName colName : nat -> option Column -> string) (printer : Node -> string)
      (input : GenerateRequest) (files : list File) :
  App.codegen argName colName printer input = Ok files ->
  map file_name files
  = map App.outputName (firstSeen (map q_filename (req_queries input))).
Proof.
  intros Hc. unfold App.codegen in Hc.
  destruct (App.foldM _ _ _) as [[fs used]|e] eqn:Hf; simpl in Hc; [|done].
  simplify_eq.
  apply emitFile_files in Hf as (new & -> & HF). simpl.
  rewrite <- groupQueries_keys.
  induction HF as [|f entry new groups [Hname _] _ IH]; simpl; [done|].
  by rewrite Hname, IH.
Qed.

Lemma NoDup_map_inj_on {A B : Type} (g : A -> B) (l : list A) (x y : A) :
  List.NoDup (map g l) -> In x l -> In y l -> g x = g y -> x = y.
Proof.
  induction l as [|z l IH]; simpl; [done|].
  intros [Hnotin Hnd]%List.NoDup_cons_iff [->|Hx] [->|Hy] Heq; [done| | |by apply IH].
  - exfalso. apply Hnotin. rewrite Heq. by apply in_map.
  - exfalso. apply Hnotin. rewrite <- Heq. by apply in_map.
Qed.

(** X15.  Output names are not kept apart: when the request has
    queries from a source file [a.b] and from a source file [a_b]
    (neither [a] nor [b] holding a dot), a successful run returns two
    files of the same name. *)
Theorem codegen_output_names_can_collide
        (argName colName : nat -> option Column -> string) (printer : Node -> string)
        (input : GenerateRequest) (files : list File) (a b : string) (q1 q2 : Query) :
  App.codegen argName colName printer input = Ok files ->
  Js.includes (a +:+ "_" +:+ b) "." = false ->
  In q1 (req_queries input) -> q_filename q1 = a +:+ "." +:+ b ->
  In q2 (req_queries input) -> q_filename q2 = a +:+ "_" +:+ b ->
  ~ List.NoDup (map file_name files).
Proof.
  intros Hc Hnodot Hq1 Hf1 Hq2 Hf2 Hnd.
  rewrite (codegen_file_names _ _ _ _ _ Hc) in Hnd.
  assert (Ha : Js.includes a "." = false).
  { destruct (Js.includes a ".") eqn:Ha; [|done].
    by rewrite (includes_app_l a ("_" +:+ b) "." Ha) in Hnodot. }
  assert (Hdiff : q_filename q1 <> q_filename q2).
  { rewrite Hf1, Hf2. intros Heq. rewrite <- Heq in Hnodot.
    by rewrite includes_app in Hnodot. }
  apply Hdiff.
  apply (NoDup_map_inj_on App.outputName _ _ _ Hnd).
  - apply firstSeen_In, in_map_iff. eauto.
  - apply firstSeen_In, in_map_iff. eauto.
  - rewrite Hf1, Hf2, (outputName_first_dot a b Ha). symmetry.
    by apply outputName_no_dot.
Qed.

Lemma codegen_output_names_can_collide_witness :
  exists files,
    App.codegen Utils.argName Utils.colName samplePrinter
      (requestOf [deleteAuthor; deleteAuthorCopy]) = Ok files /\
    ~ List.NoDup (map file_name files).
Proof.
  assert (Hrun : exists files,
             App.codegen Utils.argName Utils.colName samplePrinter
               (requestOf [deleteAuthor; deleteAuthorCopy]) = Ok files).
  { vm_compute. eauto. }
  destruct Hrun as [files Hrun]. exists files. split; [exact Hrun|].
  apply (codegen_output_names_can_collide _ _ _ _ _ "query" "sql"
           deleteAuthor deleteAuthorCopy Hrun).
  - reflexivity.
  - left. reflexivity.
  - reflexivity.
  - right. left. reflexivity.
  - reflexivity.
Defined.

(** ** The name check and the order of the names *)

Lemma occurrences_Permutation (n : string) (names names' : list string) :
  names ≡ₚ names' -> occurrences n names = occurrences n names'.
Proof.
  induction 1 as [|x l l' _ IH|x y l|l1 l2 l3 _ IH1 _ IH2].
  - done.
  - by rewrite !occurrences_cons, IH.
  - rewrite !occurrences_cons. lia.
  - by rewrite IH1.
Qed.

Lemma duplicateNames_Permutation (names names' : list string) :
  names ≡ₚ names' -> duplicateNames names = duplicateNames names'.
Proof.
  intros Hp. apply (StronglySorted_unique String.le); try apply duplicateNames_sorted.
  apply NoDup_Permutation; try (apply NoDup_ListNoDup, duplicateNames_NoDup).
  intros n. rewrite !list_elem_of_In, !duplicateNames_In.
  by rewrite (occurrences_Permutation n names names' Hp).
Qed.

(** X16.  The name check does not depend on the order of the names:
    on two lists that are permutations of each other it gives the same
    outcome, the same error message included (the repeated names are
    listed in sorted order, not in order of appearance). *)
Theorem assertUniqueNames_order_independent
        (kind : NameKind) (queryName fileName : string) (names names' : list string) :
  names ≡ₚ names' ->
  assertUniqueNames (mkOptions kind queryName fileName names)
  = assertUniqueNames (mkOptions kind queryName fileName names').
Proof.
  intros Hp. unfold assertUniqueNames, ambiguousMessage. simpl.
  by rewrite (duplicateNames_Permutation names names' Hp).
Qed.

Lemma assertUniqueNames_order_independent_witness :
  assertUniqueNames (mkOptions ColumnKind "GetAuthor" "query.sql" ["id"; "name"; "id"])
  = assertUniqueNames (mkOptions ColumnKind "GetAuthor" "query.sql" ["name"; "id"; "id"]).
Proof.
  apply (assertUniqueNames_order_independent ColumnKind "GetAuthor" "query.sql"
           ["id"; "name"; "id"] ["name"; "id"; "id"]).
  apply perm_swap.
Defined.

(** ** Array levels, for every dimension count *)

Lemma wrapped_levels (c : Column) (base : TypeNode) :
  isPlain base = true ->
  arrayLevels (nullWrap c (arrayWrap c base)) = arrayDepth (arrayWrap c base).
Proof.
  intros Hb. unfold arrayLevels, nullWrap. destruct (col_notNull c); [|done].
  unfold arrayWrap. destruct (col_isArray c || (0 <? col_arrayDims c)%Z).
  - destruct (Z.to_nat _); [by destruct base | done].
  - by destruct base.
Qed.

Lemma sqlite_baseType_plain (n : string) : isPlain (BunSqlite.baseType n) = true.
Proof. unfold BunSqlite.baseType. repeat case_match; done. Qed.

(** X17.  The array levels of the type mapped to a column with a
    declared type, for every dimension count.  In the shared PostgreSQL
    driver and, whenever it returns,
    in the strict driver: a positive [arrayDims] gives that many
    levels, whatever [isArray]; [arrayDims = 0] gives one level when
    [isArray] is set and none otherwise; a negative [arrayDims] gives
    none, even when [isArray] is set.  The Bun SQLite driver never
    wraps: its types have no array level whatever the two fields, and
    the null alternative exactly when [notNull] is false. *)
Theorem columnType_array_levels_by_dims
        (enumMap : gmap string Enum) (c : Column) (ty : Identifier) (t : TypeNode) :
  col_type c = Some ty ->
  t = PostgresCommon.columnType (Some c) \/
  PostgresTagged.columnType enumMap (Some c) = Ok t ->
  ((0 < col_arrayDims c)%Z -> arrayLevels t = Z.to_nat (col_arrayDims c)) /\
  (col_arrayDims c = 0%Z -> arrayLevels t = if col_isArray c then 1 else 0) /\
  ((col_arrayDims c < 0)%Z -> arrayLevels t = 0) /\
  arrayLevels (BunSqlite.columnType (Some c)) = 0 /\
  (hasNullAlternative (BunSqlite.columnType (Some c)) = true <-> col_notNull c = false).
Proof.
  intros Hty Ht.
  assert (Hbase : exists base, isPlain base = true /\ t = nullWrap c (arrayWrap c base)).
  { destruct Ht as [->|Hs].
    - unfold PostgresCommon.columnType. rewrite Hty.
      eexists. split; [apply common_baseType_plain | done].
    - unfold PostgresTagged.columnType in Hs. rewrite Hty in Hs. case_bool_decide.
      + simplify_eq. eexists. split; [|reflexivity]. done.
      + destruct (PostgresTagged.baseType _ _ _) as [base|e] eqn:Hb; simpl in Hs; [|done].
        simplify_eq. exists base. split; [|done]. eapply tagged_baseType_plain, Hb. }
  destruct Hbase as (base & Hplain & ->).
  rewrite (wrapped_levels c base Hplain). unfold arrayWrap.
  split; [|split; [|split; [|split]]].
  - intros Hpos. replace (0 <? col_arrayDims c)%Z with true by (symmetry; by apply Z.ltb_lt).
    rewrite orb_true_r. destruct (Z.eqb_spec (col_arrayDims c) 0); [lia|].
    by rewrite arrayDepth_iter, (arrayDepth_plain base Hplain), Nat.add_0_r.
  - intros ->. simpl. rewrite orb_false_r. destruct (col_isArray c).
    + simpl. by rewrite (arrayDepth_plain base Hplain).
    + by apply arrayDepth_plain.
  - intros Hneg. replace (0 <? col_arrayDims c)%Z with false by (symmetry; apply Z.ltb_ge; lia).
    rewrite orb_false_r. destruct (col_isArray c); [|by apply arrayDepth_plain].
    destruct (Z.eqb_spec (col_arrayDims c) 0); [lia|].
    rewrite arrayDepth_iter, (arrayDepth_plain base Hplain).
    destruct (col_arrayDims c); simpl; lia.
  - unfold BunSqlite.columnType. rewrite Hty. unfold arrayLevels, nullWrap.
    pose proof (sqlite_baseType_plain (Js.toLowerCase (id_name ty))) as Hp.
    destruct (col_notNull c); simpl.
    + destruct (BunSqlite.baseType _); done.
    + by apply arrayDepth_plain.
  - unfold BunSqlite.columnType. rewrite Hty. unfold nullWrap.
    pose proof (sqlite_baseType_plain (Js.toLowerCase (id_name ty))) as Hp.
    destruct (col_notNull c); simpl.
    + destruct (BunSqlite.baseType _); simpl in *; intuition discriminate.
    + split; [done|]. intros _. by rewrite orb_true_r.
Qed.

Lemma columnType_array_levels_by_dims_witness :
  arrayLevels
    (PostgresCommon.columnType (Some (mkColumn "tags" true true (-1) (Some textType)))) = 0.
Proof.
  destruct (columnType_array_levels_by_dims ∅
              (mkColumn "tags" true true (-1) (Some textType)) textType _ eq_refl
              (or_introl eq_refl)) as (_ & _ & Hneg & _).
  apply Hneg. simpl. lia.
Defined.

(** ** The type tables, compared *)

Lemma strict_baseType_earlier (o cn n : string) :
  PostgresTaggedPermissive.baseType n
  = match PostgresTagged.baseType o cn n with
    | Ok t => if String.eqb n "void" then KeywordTypeNode StringKeyword else t
    | Throw _ => KeywordTypeNode StringKeyword
    end.
Proof.
  unfold PostgresTaggedPermissive.baseType, PostgresTagged.baseType.
  change PostgresTaggedPermissive.booleanTypes with PostgresTagged.booleanTypes.
  change PostgresTaggedPermissive.dateTypes with PostgresTagged.dateTypes.
  change PostgresTaggedPermissive.numberTypes with PostgresTagged.numberTypes.
  change PostgresTaggedPermissive.jsonTypes with PostgresTagged.jsonTypes.
  destruct (String.eqb_spec n "void") as [->|Hv]; [reflexivity|].
  destruct (oneOf n PostgresTagged.booleanTypes); [done|].
  destruct (String.eqb n "bytea"); [done|].
  destruct (oneOf n PostgresTagged.dateTypes); [done|].
  destruct (oneOf n PostgresTagged.numberTypes); [done|].
  destruct (oneOf n PostgresTagged.jsonTypes); [done|].
  destruct (oneOf n PostgresTagged.stringTypes); [done|].
  by destruct (oneOf n PostgresTagged.geometricTypes).
Qed.

Ltac each_name H :=
  simpl in H;
  repeat (destruct H as [<-|H]; [vm_compute; reflexivity|]);
  destruct H.

Lemma strict_baseType_shared (o cn n : string) (t : TypeNode) :
  PostgresTagged.baseType o cn n = Ok t ->
  PostgresCommon.baseType n
  = if oneOf n sharedMapperGaps then KeywordTypeNode AnyKeyword else t.
Proof.
  unfold PostgresTagged.baseType.
  destruct (oneOf n PostgresTagged.booleanTypes) eqn:H1.
  { intros ?. simplify_eq. apply oneOf_In in H1. each_name H1. }
  destruct (String.eqb_spec n "bytea") as [->|_].
  { intros ?. by simplify_eq. }
  destruct (oneOf n PostgresTagged.dateTypes) eqn:H2.
  { intros ?. simplify_eq. apply oneOf_In in H2. each_name H2. }
  destruct (oneOf n PostgresTagged.numberTypes) eqn:H3.
  { intros ?. simplify_eq. apply oneOf_In in H3. each_name H3. }
  destruct (oneOf n PostgresTagged.jsonTypes) eqn:H4.
  { intros ?. simplify_eq. apply oneOf_In in H4. each_name H4. }
  destruct (String.eqb_spec n "void") as [->|_].
  { intros ?. by simplify_eq. }
  destruct (oneOf n PostgresTagged.stringTypes) eqn:H5.
  { intros ?. simplify_eq. apply oneOf_In in H5. each_name H5. }
  by destruct (oneOf n PostgresTagged.geometricTypes).
Qed.

(** X18.  The strict mapper against the two permissive PostgreSQL
    mappers, on a typed column that is not an enum.  Where the strict
    mapper answers, the earlier tagged-template mapper gives the same
    type, except for [void], which it maps to [string]; where the
    strict mapper raises, the earlier one answers [string].  The
    shared positional mapper gives the strict mapper's type as well,
    except for nine type names it has no case for ([void], [char],
    [name], [citext], [macaddr], [macaddr8], [bit varying] and the two
    spelled-out [time] types), which it maps to [any]. *)
Theorem strict_mapper_against_permissive_mappers
        (enumMap : gmap string Enum) (c : Column) (ty : Identifier) :
  col_type c = Some ty ->
  let lower := Js.toLowerCase (stripPgCatalog (id_name ty)) in
  enumMap !! lower = None ->
  (forall t,
     PostgresTagged.columnType enumMap (Some c) = Ok t ->
     PostgresTaggedPermissive.columnType (Some c)
     = (if String.eqb lower "void"
        then nullWrap c (arrayWrap c (KeywordTypeNode StringKeyword)) else t) /\
     PostgresCommon.columnType (Some c)
     = (if oneOf lower sharedMapperGaps
        then nullWrap c (arrayWrap c (KeywordTypeNode AnyKeyword)) else t)) /\
  (forall e,
     PostgresTagged.columnType enumMap (Some c) = Throw e ->
     PostgresTaggedPermissive.columnType (Some c)
     = nullWrap c (arrayWrap c (KeywordTypeNode StringKeyword))).
Proof.
  intros Hty lower Hnone.
  unfold PostgresTagged.columnType, PostgresTaggedPermissive.columnType,
    PostgresCommon.columnType.
  rewrite Hty. fold lower.
  set (gap := oneOf lower sharedMapperGaps).
  rewrite bool_decide_eq_false_2 by (rewrite Hnone; by intros [? ?]).
  rewrite (strict_baseType_earlier (id_name ty) (col_name c) lower).
  destruct (PostgresTagged.baseType (id_name ty) (col_name c) lower) as [base|e0] eqn:Hb;
    simpl.
  - split; [|done]. intros t ?. simplify_eq.
    rewrite (strict_baseType_shared _ _ _ _ Hb).
    split.
    + by destruct (String.eqb lower "void").
    + fold gap. by destruct gap.
  - split; [done|]. by intros e _.
Qed.

Lemma strict_mapper_against_permissive_mappers_witness :
  PostgresCommon.columnType (Some (sampleColumn "mac" "macaddr" true))
  = KeywordTypeNode AnyKeyword.
Proof.
  destruct (strict_mapper_against_permissive_mappers ∅
              (sampleColumn "mac" "macaddr" true) (typeNamed "macaddr") eq_refl
              (lookup_empty _))
    as [Hok _].
  destruct (Hok (KeywordTypeNode StringKeyword) eq_refl) as [_ Hshared].
  exact Hshared.
Defined.

(** ** The positional [:many] functions, run *)

(** X11.  For a query with parameters whose text constant is bound in
    the module: run against a result set, the [:many] functions of the
    two positional drivers resolve to one object per row, in the order of
    the result set: in the shared PostgreSQL driver each row is mapped
    column by column, wide-integer columns going through [Number]; in
    the Bun SQLite driver each column is read by position as it
    comes. *)
Theorem positional_manyDecl_run
        (jsNumber : Value -> Value) (argName colName : nat -> option Column -> string)
        (db : list (list (string * Value)))
        (funcName queryName iface returnIface : string)
        (params : list QueryParameter) (columns : list Column)
        (globals : list (string * option Value)) (args : list (string * Value))
        (qv : Value) :
  iface <> EmptyString -> params <> [] ->
  ~ In queryName ["stmt"; "rows"; "sql"; "database"; "args"] ->
  JsMap.get queryName globals = Some (Some qv) ->
  JsMap.get "Number" globals = None ->
  Interp.callMapping db jsNumber
    (PostgresCommon.manyDecl argName colName funcName queryName (Some iface) returnIface
                             params columns)
    globals [VClient; VObject args]
  = Ok (VArray (map (fun row => mappedRow jsNumber colName columns (map snd row)) db)) /\
  Interp.callMapping db jsNumber
    (BunSqlite.manyDecl argName colName funcName queryName (Some iface) returnIface
                        params columns)
    globals [VClient; VObject args]
  = Ok (VArray (map (fun row => castRow colName columns (map snd row)) db)).
Proof.
  intros Hi Hp Hnot Hq Hnum.
  assert (Et : String.eqb "stmt" queryName = false)
    by (apply String.eqb_neq; intros <-; apply Hnot; simpl; auto).
  assert (Er : String.eqb "rows" queryName = false)
    by (apply String.eqb_neq; intros <-; apply Hnot; simpl; auto).
  assert (Es : String.eqb "sql" queryName = false)
    by (apply String.eqb_neq; intros <-; apply Hnot; simpl; auto).
  assert (Ed : String.eqb "database" queryName = false)
    by (apply String.eqb_neq; intros <-; apply Hnot; simpl; auto).
  assert (Ea : String.eqb "args" queryName = false)
    by (apply String.eqb_neq; intros <-; apply Hnot; simpl; auto 10).
  split.
  - unfold Interp.callMapping, PostgresCommon.manyDecl, Interp.initialEnv.
    cbn [mfn_name mfn_parameters mfn_type mfn_body mfn_return fn_body fn_parameters
         Interp.declaredNames omap list_omap].
    rewrite (common_funcParamsDecl_with_args iface params Hi Hp).
    cbn [Interp.bindParameters map app Interp.execBlock mbind result_bind].
    set (env0 := ("sql", Some VClient) :: ("args", Some (VObject args)) :: globals).
    assert (L1 : Interp.lookup "sql" env0 = Ok VClient) by reflexivity.
    assert (L2 : Interp.lookup queryName env0 = Ok qv).
    { unfold Interp.lookup, env0. cbn [JsMap.get]. by rewrite Es, Ea, Hq. }
    assert (L3 : JsMap.get "args" env0 = Some (Some (VObject args))) by reflexivity.
    pose proof (unsafeCall_eval db jsNumber argName env0 queryName params args qv L1 L2 L3)
      as Hcall.
    unfold Interp.evalMapCall.
    cbn [map_receiver map_parameter map_body].
    change (Interp.evalExpr db jsNumber env0 (ParenthesizedExpression ?e))
      with (Interp.evalExpr db jsNumber env0 e).
    rewrite as_eval.
    change (Interp.evalExpr db jsNumber env0 (AwaitExpression ?x))
      with (v ← Interp.evalExpr db jsNumber env0 x; Ok (Interp.await db v)).
    change (Interp.evalExpr db jsNumber env0
              (CallExpression (PropertyAccessExpression ?o "values") []))
      with (receiver ← Interp.evalExpr db jsNumber env0 o;
            Interp.callMethod db receiver "values" []).
    rewrite Hcall.
    cbn [mbind result_bind Interp.callMethod String.eqb Ascii.eqb Bool.eqb Interp.await
         Interp.rowsAsTuples].
    rewrite mapM_map.
    rewrite (mapM_pure _ (fun row => mappedRow jsNumber colName columns (map snd row))).
    + done.
    + intros row _.
      apply (common_rowObject_eval db jsNumber colName); [reflexivity|].
      cbn [JsMap.get String.eqb Ascii.eqb Bool.eqb]. exact Hnum.
  - unfold Interp.callMapping, BunSqlite.manyDecl, Interp.initialEnv.
    cbn [mfn_name mfn_parameters mfn_type mfn_body mfn_return fn_body fn_parameters
         Interp.declaredNames omap list_omap].
    rewrite (sqlite_funcParamsDecl_with_args iface params Hi Hp).
    cbn [Interp.bindParameters map app Interp.execBlock Interp.execStmt Interp.evalExpr mapM].
    match goal with |- context [Interp.lookup "database" ?e] => set (env0 := e) end.
    assert (L1 : Interp.lookup "database" env0 = Ok VClient) by reflexivity.
    assert (L2 : Interp.lookup queryName env0 = Ok qv).
    { unfold Interp.lookup, env0. cbn [JsMap.get]. by rewrite Et, Er, Ed, Ea, Hq. }
    rewrite L1, L2. subst env0.
    cbn [mbind result_bind Interp.callMethod String.eqb Ascii.eqb Bool.eqb
         Interp.declare JsMap.set].
    match goal with |- context [Interp.lookup "stmt" ?e] => set (env1 := e) end.
    assert (L3 : Interp.lookup "stmt" env1 = Ok VStatement) by reflexivity.
    assert (L4 : JsMap.get "args" env1 = Some (Some (VObject args))) by reflexivity.
    rewrite L3. cbn [mbind result_bind].
    rewrite sqlite_argAccesses_argsFields, (argsFields_eval db jsNumber env1 args _ L4).
    subst env1.
    cbn [mbind result_bind Interp.callMethod String.eqb Ascii.eqb Bool.eqb
         Interp.declare JsMap.set].
    unfold Interp.evalMapCall.
    cbn [map_receiver map_parameter map_body Interp.evalExpr].
    unfold Interp.lookup. cbn [JsMap.get String.eqb Ascii.eqb Bool.eqb].
    cbn [mbind result_bind Interp.rowsAsTuples].
    rewrite mapM_map.
    rewrite (mapM_pure _ (fun row => castRow colName columns (map snd row))).
    + done.
    + intros row _.
      by apply (sqlite_rowObject_eval db jsNumber colName).
Qed.

Lemma positional_manyDecl_run_witness :
  Interp.callMapping twoAuthors (fun v => v)
    (PostgresCommon.manyDecl Utils.argName Utils.colName "listAuthors" "getAuthorQuery"
                             (Some "GetAuthorArgs") "GetAuthorRow" getAuthorParams
                             authorColumns)
    getAuthorGlobals [VClient; VObject [("id", VNumber 1)]]
  = Ok (VArray (map (fun row => mappedRow (fun v => v) Utils.colName authorColumns
                                          (map snd row)) twoAuthors)).
Proof.
  apply (positional_manyDecl_run (fun v => v) Utils.argName Utils.colName twoAuthors
           "listAuthors" "getAuthorQuery" "GetAuthorArgs" "GetAuthorRow"
           getAuthorParams authorColumns getAuthorGlobals [("id", VNumber 1)]
           (VString getAuthorText)).
  - discriminate.
  - discriminate.
  - simpl. intuition discriminate.
  - reflexivity.
  - reflexivity.
Defined.

(** ** Pascal casing *)

Lemma join_empty_cons (x : string) (l : list string) :
  Js.join EmptyString (x :: l) = x +:+ Js.join EmptyString l.
Proof.
  unfold Js.join. destruct l as [|y l]; simpl.
  - by rewrite append_nil_r.
  - by rewrite append_nil_l.
Qed.

Lemma pascalCase_part_nil :
  Js.toUpperCase (Js.charAt0 EmptyString) +:+ Js.toLowerCase (Js.sliceFrom 1 EmptyString)
  = EmptyString.
Proof. reflexivity. Qed.

Lemma pascalCase_part_cons (a : ascii) (w : string) :
  Js.toUpperCase (Js.charAt0 (String a w)) +:+ Js.toLowerCase (Js.sliceFrom 1 (String a w))
  = String (Js.upperChar a) (Js.toLowerCase w).
Proof. simpl. by rewrite append_cons, append_nil_l. Qed.

Lemma upperOf_upperChar (c : ascii) : upperOf c = Js.upperChar c.
Proof. destruct c as [[] [] [] [] [] [] [] []]; vm_compute; reflexivity. Qed.

Lemma lowerOf_lowerChar (c : ascii) : lowerOf c = Js.lowerChar c.
Proof. destruct c as [[] [] [] [] [] [] [] []]; vm_compute; reflexivity. Qed.

Lemma pascalScan_cons (upper : bool) (c : ascii) (r : string) :
  pascalScan upper (String c r)
  = if Ascii.eqb c "_" then pascalScan true r
    else String (if upper then Js.upperChar c else Js.lowerChar c) (pascalScan false r).
Proof. cbn [pascalScan]. by rewrite upperOf_upperChar, lowerOf_lowerChar. Qed.

Lemma split_scan (s : string) :
  match Js.split "_" s with
  | [] => False
  | w :: ws =>
      let part := fun part =>
        Js.toUpperCase (Js.charAt0 part) +:+ Js.toLowerCase (Js.sliceFrom 1 part) in
      Js.join EmptyString (Js.toLowerCase w :: map part ws) = pascalScan false s /\
      Js.join EmptyString (part w :: map part ws) = pascalScan true s
  end.
Proof.
  induction s as [|a r IH]; [done|]. simpl Js.split. rewrite !pascalScan_cons.
  destruct (Js.split "_" r) as [|w ws]; [done|]. destruct IH as [IHl IHu].
  destruct (Ascii.eqb a "_").
  - cbv zeta in *. split.
    + rewrite join_empty_cons.
      change (Js.toLowerCase EmptyString) with EmptyString. rewrite append_nil_l.
      exact IHu.
    + rewrite join_empty_cons, pascalCase_part_nil, append_nil_l. exact IHu.
  - cbv zeta in *. split.
    + rewrite join_empty_cons.
      change (Js.toLowerCase (String a w))
        with (String (Js.lowerChar a) (Js.toLowerCase w)).
      rewrite append_cons. by rewrite <- join_empty_cons, IHl.
    + rewrite join_empty_cons, pascalCase_part_cons, append_cons.
      by rewrite <- join_empty_cons, IHl.
Qed.

Lemma upperChar_underscore (c : ascii) :
  Ascii.eqb c "_" = false -> Ascii.eqb (Js.upperChar c) "_" = false.
Proof. destruct c as [[] [] [] [] [] [] [] []]; vm_compute; congruence. Qed.

Lemma lowerChar_underscore (c : ascii) :
  Ascii.eqb c "_" = false -> Ascii.eqb (Js.lowerChar c) "_" = false.
Proof. destruct c as [[] [] [] [] [] [] [] []]; vm_compute; congruence. Qed.

Lemma pascalScan_no_underscore (upper : bool) (s : string) :
  Js.includes (pascalScan upper s) "_" = false.
Proof.
  revert upper. induction s as [|c r IH]; intros upper; [done|]. rewrite pascalScan_cons.
  destruct (Ascii.eqb c "_") eqn:Hc; [apply IH|].
  change (Js.includes (String ?x ?y) "_")
    with (String.prefix "_" (String x y) || Js.includes y "_").
  rewrite IH, orb_false_r.
  change (String.prefix "_" (String ?x ?y))
    with (if ascii_dec "_" x then String.prefix EmptyString y else false).
  destruct (ascii_dec "_" _) as [He|]; [|done]. exfalso.
  destruct upper.
  - apply upperChar_underscore in Hc. rewrite <- He in Hc. done.
  - apply lowerChar_underscore in Hc. rewrite <- He in Hc. done.
Qed.

(** X19.  On an ASCII string [pascalCase], written with [split], [map]
    and [join], is the one-pass scan that drops every underscore,
    upper-cases the first character and every character that follows an
    underscore, and lower-cases all the others; its result therefore
    holds no underscore, and a leading underscore changes nothing. *)
Theorem pascalCase_is_scan (str : string) :
  isAscii str ->
  pascalCase str = pascalScan true str /\
  Js.includes (pascalCase str) "_" = false /\
  pascalCase (String "_" str) = pascalCase str.
Proof.
  intros _.
  assert (H : forall s, pascalCase s = pascalScan true s).
  { intros s. unfold pascalCase. pose proof (split_scan s) as Hs.
    destruct (Js.split "_" s) as [|w ws]; [done|]. by destruct Hs as [_ Hu]. }
  split; [apply H|]. split.
  - rewrite H. apply pascalScan_no_underscore.
  - by rewrite !H.
Qed.

Lemma pascalCase_is_scan_witness :
  isAscii "order_status" /\ pascalCase "order_status" = "OrderStatus".
Proof.
  assert (Hascii : isAscii "order_status").
  { unfold isAscii. simpl. repeat constructor; simpl; lia. }
  split; [exact Hascii|].
  destruct (pascalCase_is_scan "order_status" Hascii) as (Hscan & _ & _).
  rewrite Hscan. reflexivity.
Defined.

(** ** From the request to the behaviour of the emitted functions *)

Section TaggedRun.

Variable argName : nat -> option Column -> string.
Variable jsNumber : Value -> Value.
Variable db : list (list (string * Value)).






End TaggedRun.



(** ** The markers of a text *)

Lemma isDigit_decimal (c : ascii) : Js.isDigit c = true <-> In c decimalDigits.
Proof.
  destruct c as [[] [] [] [] [] [] [] []]; vm_compute;
    (split; [intros H; first [discriminate H | tauto] | intros H; first [reflexivity | intuition discriminate]]).
Qed.

Lemma takeDigits_decimal (s : string) :
  Forall (fun c => In c decimalDigits) (String.list_ascii_of_string (takeDigits s)).
Proof.
  induction s as [|c s IH]; [constructor|]. simpl.
  destruct (Js.isDigit c) eqn:Hc; [|constructor].
  simpl. constructor; [by apply isDigit_decimal | done].
Qed.

Lemma takeDigits_maximal (s : string) :
  match Js.sliceFrom (String.length (takeDigits s)) s with
  | EmptyString => True
  | String c _ => ~ In c decimalDigits
  end.
Proof.
  induction s as [|c s IH]; [done|]. simpl takeDigits.
  destruct (Js.isDigit c) eqn:Hc; [exact IH|].
  simpl. intros Hin%isDigit_decimal. congruence.
Qed.

Lemma append_not_nil (a : string) (c : ascii) (r : string) :
  EmptyString <> a +:+ String c r.
Proof. destruct a; [by rewrite append_nil_l | by rewrite append_cons]. Qed.

Lemma dollar_not_decimal : ~ In "$"%char decimalDigits.
Proof. simpl. intuition discriminate. Qed.

(** A run of digits holds no dollar sign: a marker found in
    [run ++ rest] starts in [rest]. *)
Lemma digit_run_split (run rest a x : string) :
  Forall (fun c => In c decimalDigits) (String.list_ascii_of_string run) ->
  run +:+ rest = a +:+ String "$" x ->
  exists a', a = run +:+ a' /\ rest = a' +:+ String "$" x.
Proof.
  revert a. induction run as [|r0 run IH]; intros a Hd Heq.
  - exists a. by rewrite !append_nil_l in *.
  - simpl in Hd. apply Forall_cons in Hd as [Hr0 Hd].
    rewrite append_cons in Heq. destruct a as [|a0 a].
    + rewrite append_nil_l in Heq. injection Heq as -> _.
      by destruct dollar_not_decimal.
    + rewrite append_cons in Heq. injection Heq as -> Heq.
      destruct (IH a Hd Heq) as (a' & -> & Hrest).
      exists a'. by rewrite append_cons.
Qed.

Lemma matchAllFrom_markers (n : nat) (s pre : string) :
  String.length s <= n ->
  Forall (markerOf (pre +:+ s)) (matchAllFrom (String.length pre) s) /\
  Forall (fun i => String.length pre <= i)
         (map m_index (matchAllFrom (String.length pre) s)) /\
  StronglySorted lt (map m_index (matchAllFrom (String.length pre) s)) /\
  forall i,
    In i (map m_index (matchAllFrom (String.length pre) s)) <->
    exists a d post,
      s = a +:+ String "$" (String d post) /\
      i = String.length pre + String.length a /\
      In d decimalDigits.
Proof.
  revert s pre. induction n as [|n IH]; intros s pre Hlen.
  { destruct s; [|simpl in Hlen; lia]. simpl.
    split; [constructor|]. split; [constructor|]. split; [constructor|].
    intros i. split; [done|]. intros (a & d & post & Heq & _). by apply append_not_nil in Heq. }
  destruct s as [|c s].
  { simpl. split; [constructor|]. split; [constructor|]. split; [constructor|].
    intros i. split; [done|]. intros (a & d & post & Heq & _). by apply append_not_nil in Heq. }
  destruct (Ascii.eqb_spec c "$") as [->|Hc].
  2: { (* an ordinary character *)
    rewrite matchAllFrom_other by (left; by apply Ascii.eqb_neq).
    destruct (IH s (pre +:+ String c EmptyString)) as (Hm & Hge & Hs & Hiff);
      [simpl in Hlen; lia|].
    rewrite append_length in Hm, Hge, Hs, Hiff. simpl in Hm, Hge, Hs, Hiff.
    rewrite Nat.add_1_r in Hm, Hge, Hs, Hiff.
    rewrite append_assoc, append_cons, append_nil_l in Hm.
    split; [done|]. split; [eapply Forall_impl; [exact Hge | simpl; lia]|].
    split; [done|]. intros i. rewrite Hiff. split.
    - intros (a & d & post & -> & -> & Hd). exists (String c a), d, post.
      rewrite append_cons. simpl. split; [done|]. split; [lia | done].
    - intros (a & d & post & Heq & -> & Hd). destruct a as [|a0 a].
      + rewrite append_nil_l in Heq. injection Heq as -> _. done.
      + rewrite append_cons in Heq. injection Heq as -> ->.
        exists a, d, post. simpl. split; [done|]. split; [lia | done]. }
  destruct (takeDigits s) as [|d0 ds] eqn:Hds.
  { (* a dollar sign with no digit behind it *)
    rewrite matchAllFrom_other by (by right).
    destruct (IH s (pre +:+ String "$" EmptyString)) as (Hm & Hge & Hs & Hiff);
      [simpl in Hlen; lia|].
    rewrite append_length in Hm, Hge, Hs, Hiff. simpl in Hm, Hge, Hs, Hiff.
    rewrite Nat.add_1_r in Hm, Hge, Hs, Hiff.
    rewrite append_assoc, append_cons, append_nil_l in Hm.
    split; [done|]. split; [eapply Forall_impl; [exact Hge | simpl; lia]|].
    split; [done|]. intros i. rewrite Hiff. split.
    - intros (a & d & post & -> & -> & Hd). exists (String "$" a), d, post.
      rewrite append_cons. simpl. split; [done|]. split; [lia | done].
    - intros (a & d & post & Heq & -> & Hd). destruct a as [|a0 a].
      + rewrite append_nil_l in Heq. injection Heq as ->.
        apply isDigit_decimal in Hd. simpl in Hds. by rewrite Hd in Hds.
      + rewrite append_cons in Heq. injection Heq as -> ->.
        exists a, d, post. simpl. split; [done|]. split; [lia | done]. }
  (* a marker *)
  rewrite (matchAllFrom_marker (String.length pre) s (String d0 ds) Hds) by done.
  pose proof (takeDigits_split s) as Hsplit. rewrite Hds in Hsplit.
  pose proof (takeDigits_decimal s) as Hrun. rewrite Hds in Hrun.
  pose proof (takeDigits_maximal s) as Hmax. rewrite Hds in Hmax.
  set (rest := Js.sliceFrom (String.length (String d0 ds)) s) in *.
  destruct (IH rest (pre +:+ String "$" (String d0 ds))) as (Hm & Hge & Hs & Hiff).
  { apply (f_equal String.length) in Hsplit. rewrite append_length in Hsplit.
    simpl in *. lia. }
  rewrite append_length in Hm, Hge, Hs, Hiff.
  assert (Htext : (pre +:+ String "$" (String d0 ds)) +:+ rest = pre +:+ String "$" s).
  { rewrite append_assoc, append_cons. by rewrite <- Hsplit. }
  rewrite Htext in Hm.
  split; [|split; [|split]].
  - constructor; [|done]. exists pre, rest. simpl m_whole. simpl m_group. simpl m_index.
    split; [by rewrite append_cons, <- Hsplit|]. by repeat split.
  - simpl. constructor; [lia|]. eapply Forall_impl; [exact Hge | simpl; lia].
  - simpl. constructor; [done|].
    eapply Forall_impl; [exact Hge | simpl; intros; lia].
  - intros i. simpl. rewrite Hiff. split.
    + intros [<-|(a & d & post & Hrest & -> & Hd)].
      * exists EmptyString, d0, (ds +:+ rest). rewrite append_nil_l. simpl.
        split; [by rewrite Hsplit at 1; rewrite append_cons|].
        split; [lia|]. simpl in Hrun. by apply Forall_cons in Hrun as [? _].
      * exists (String "$" (String d0 ds) +:+ a), d, post.
        split; [|split; [|done]].
        -- rewrite append_assoc, append_cons. f_equal. rewrite Hsplit at 1.
           by rewrite Hrest.
        -- rewrite append_length. lia.
    + intros (a & d & post & Heq & -> & Hd). destruct a as [|a0 a].
      * left. simpl. lia.
      * right. rewrite append_cons in Heq. injection Heq as Ha0 Heq. subst a0.
        rewrite Hsplit in Heq.
        destruct (digit_run_split _ _ _ _ Hrun Heq) as (a' & -> & Hrest).
        exists a', d, post. split; [done|]. split; [|done].
        simpl. rewrite append_length. simpl. lia.
Qed.

(** The matches of the regular expression are the markers of the text. *)
Lemma matchAll_markersOf (text : string) : markersOf text (matchAll text).
Proof.
  destruct (matchAllFrom_markers (String.length text) text EmptyString)
    as (Hm & _ & Hs & Hiff); [lia|].
  rewrite append_nil_l in Hm. simpl in Hs, Hiff.
  split; [exact Hm|]. split; [exact Hs|].
  intros i. unfold matchAll. rewrite Hiff. unfold markerAt. split.
  - intros (pre & d & post & -> & <- & Hd). by exists pre, d, post.
  - intros (a & d & post & -> & -> & Hd). by exists a, d, post.
Qed.

Lemma matchAll_nil_iff (text : string) :
  matchAll text = [] <-> forall i, ~ markerAt text i.
Proof.
  destruct (matchAll_markersOf text) as (_ & _ & Hiff). split.
  - intros Hnil i Hi%Hiff. by rewrite Hnil in Hi.
  - intros Hno. destruct (matchAll text) as [|m ms]; [done|].
    destruct (Hno (m_index m)). apply Hiff. by left.
Qed.

(** ** The markers of a text are determined by the text *)

Lemma append_inj_length (a a' b b' : string) :
  String.length a = String.length a' -> a +:+ b = a' +:+ b' -> a = a' /\ b = b'.
Proof.
  revert a'. induction a as [|c a IH]; intros [|c' a'] Hlen Heq; try done.
  rewrite !append_cons in Heq. injection Heq as -> Heq. simpl in Hlen.
  destruct (IH a') as [-> ->]; [lia | done | done].
Qed.

Lemma digit_run_unique (g g' post post' : string) :
  Forall (fun c => In c decimalDigits) (String.list_ascii_of_string g) ->
  Forall (fun c => In c decimalDigits) (String.list_ascii_of_string g') ->
  match post with EmptyString => True | String c _ => ~ In c decimalDigits end ->
  match post' with EmptyString => True | String c _ => ~ In c decimalDigits end ->
  g +:+ post = g' +:+ post' -> g = g'.
Proof.
  revert g'. induction g as [|d g IH]; intros [|d' g'] Hg Hg' Hpost Hpost' Heq.
  - done.
  - rewrite append_nil_l, append_cons in Heq. subst post. exfalso. apply Hpost.
    simpl in Hg'. by apply Forall_cons in Hg' as [? _].
  - rewrite append_nil_l, append_cons in Heq. subst post'. exfalso. apply Hpost'.
    simpl in Hg. by apply Forall_cons in Hg as [? _].
  - rewrite !append_cons in Heq. injection Heq as -> Heq.
    simpl in Hg, Hg'. apply Forall_cons in Hg as [_ Hg]. apply Forall_cons in Hg' as [_ Hg'].
    by rewrite (IH g' Hg Hg' Hpost Hpost' Heq).
Qed.

(** The text holds one marker at an offset. *)
Lemma markerOf_unique (text : string) (m m' : RegExpMatch) :
  markerOf text m -> markerOf text m' -> m_index m = m_index m' -> m = m'.
Proof.
  intros (pre & post & Htext & Hpre & Hwhole & _ & Hdigits & Hpost)
         (pre' & post' & Htext' & Hpre' & Hwhole' & _ & Hdigits' & Hpost') Hindex.
  destruct m as [i w g], m' as [i' w' g']. simpl in *. subst i i' w w'.
  rewrite Htext' in Htext.
  apply append_inj_length in Htext as [_ Hrest]; [|lia].
  rewrite !append_cons in Hrest. injection Hrest as Hrest.
  rewrite (digit_run_unique g' g post' post Hdigits' Hdigits Hpost' Hpost Hrest).
  by rewrite Hindex.
Qed.

Lemma sorted_same_elements (l l' : list nat) :
  StronglySorted lt l -> StronglySorted lt l' ->
  (forall i, In i l <-> In i l') -> l = l'.
Proof.
  revert l'. induction l as [|x l IH]; intros [|y l'] Hs Hs' Hiff.
  - done.
  - destruct (proj2 (Hiff y)). by left.
  - destruct (proj1 (Hiff x)). by left.
  - apply StronglySorted_inv in Hs as [Hs Hx]. apply StronglySorted_inv in Hs' as [Hs' Hy].
    rewrite Forall_forall in Hx, Hy.
    assert (x = y) as <-.
    { destruct (proj1 (Hiff x)) as [->|Hin]; [by left | done |].
      destruct (proj2 (Hiff y)) as [->|Hin']; [by left | done |].
      apply list_elem_of_In, Hy in Hin. apply list_elem_of_In, Hx in Hin'. lia. }
    f_equal. apply IH; [done | done |]. intros i. split.
    + intros Hi. destruct (proj1 (Hiff i)) as [<-|Hin]; [by right | | done].
      apply list_elem_of_In, Hx in Hi. lia.
    + intros Hi. destruct (proj2 (Hiff i)) as [<-|Hin]; [by right | | done].
      apply list_elem_of_In, Hy in Hi. lia.
Qed.

(** A text has one list of markers. *)
Lemma markersOf_unique (text : string) (ms ms' : list RegExpMatch) :
  markersOf text ms -> markersOf text ms' -> ms = ms'.
Proof.
  intros (Hall & Hs & Hiff) (Hall' & Hs' & Hiff').
  assert (Hidx : map m_index ms = map m_index ms').
  { apply sorted_same_elements; [done | done |]. intros i. by rewrite <- Hiff, <- Hiff'. }
  clear Hs Hs' Hiff Hiff'. revert ms' Hall' Hidx.
  induction Hall as [|m ms Hm _ IH]; intros [|m' ms'] Hall' Hidx; try done.
  simpl in Hidx. injection Hidx as Hi Hidx.
  apply Forall_cons in Hall' as [Hm' Hall'].
  by rewrite (markerOf_unique text m m' Hm Hm' Hi), (IH ms' Hall' Hidx).
Qed.

(** ** Numbers of the rewriter *)

Lemma parseIntFrom_cons (acc : Z) (c : ascii) (s : string) :
  Js.parseIntFrom acc (String c s)
  = Js.parseIntFrom (10 * acc + Z.of_nat (nat_of_ascii c - 48)) s.
Proof. reflexivity. Qed.

Lemma of_lu_rev_cons (d e : Decimal.uint) :
  DecimalPos.Unsigned.of_lu (Decimal.revapp d e)
  = (DecimalPos.Unsigned.of_lu (Decimal.rev d)
     + DecimalPos.Unsigned.of_lu e * 10 ^ DecimalPos.Unsigned.usize d)%N.
Proof. apply DecimalPos.Unsigned.of_lu_revapp. Qed.

(** [parseInt] reads a string of digits as positional notation does. *)
Lemma parseIntFrom_uint (d : Decimal.uint) :
  forall acc : Z,
    Js.parseIntFrom acc (NilEmpty.string_of_uint d)
    = (acc * 10 ^ Z.of_N (DecimalPos.Unsigned.usize d)
       + Z.of_N (DecimalPos.Unsigned.of_lu (Decimal.rev d)))%Z.
Proof.
  induction d as [|d IH|d IH|d IH|d IH|d IH|d IH|d IH|d IH|d IH|d IH]; intros acc;
    [simpl; unfold Js.parseIntFrom; simpl; lia | ..];
    cbn [NilEmpty.string_of_uint DecimalPos.Unsigned.usize];
    rewrite parseIntFrom_cons, IH;
    unfold Decimal.rev at 2; cbn [Decimal.revapp];
    rewrite of_lu_rev_cons;
    rewrite N2Z.inj_succ, Z.pow_succ_r by lia;
    rewrite N2Z.inj_add, N2Z.inj_mul, N2Z.inj_pow;
    cbn [DecimalPos.Unsigned.of_lu];
    simpl (Z.of_nat _); simpl (Z.of_N _); lia.
Qed.

Lemma digits_uint (s : string) :
  Forall (fun c => In c decimalDigits) (String.list_ascii_of_string s) ->
  exists d, NilEmpty.uint_of_string s = Some d /\ s = NilEmpty.string_of_uint d.
Proof.
  induction s as [|c s IH]; intros Hs.
  - by exists Decimal.Nil.
  - simpl in Hs. apply Forall_cons in Hs as [Hc Hs].
    destruct (IH Hs) as (d & Hd & Heq).
    cbn [NilEmpty.uint_of_string]. rewrite Hd.
    simpl in Hc.
    destruct Hc as [<-|[<-|[<-|[<-|[<-|[<-|[<-|[<-|[<-|[<-|[]]]]]]]]]]];
      eexists; (split; [reflexivity|]); simpl; by rewrite <- Heq.
Qed.

(** On a string of digits [parseInt] computes, before it rounds, the
    number the string denotes. *)
Lemma parseIntFrom_decimalValue (s : string) :
  Forall (fun c => In c decimalDigits) (String.list_ascii_of_string s) ->
  Js.parseIntFrom 0 s = decimalValue s /\ (0 <= decimalValue s)%Z.
Proof.
  intros Hs. destruct (digits_uint s Hs) as (d & Hd & Heq).
  unfold decimalValue. rewrite Hd. unfold Z.of_uint.
  rewrite DecimalPos.Unsigned.of_uint_alt. split; [|lia].
  rewrite Heq at 1. rewrite parseIntFrom_uint. lia.
Qed.

(** Integers up to [2^53] in absolute value are Number values. *)
Lemma toNumber_exact (z : Z) :
  (Z.abs z <= 2 ^ 53)%Z -> Js.toNumber z = Js.Int z.
Proof.
  intros Hz. unfold Js.toNumber.
  destruct (Z.ltb_spec (Z.abs z) (2 ^ 53)) as [|Hge]; [done|].
  assert (Hcases : z = (2 ^ 53)%Z \/ z = (- 2 ^ 53)%Z) by lia.
  destruct Hcases as [-> | ->]; vm_compute; reflexivity.
Qed.

(** Rounding never goes below [2^53]. *)
Lemma roundNat_lower (n : Z) : (2 ^ 53 <= n)%Z -> (2 ^ 53 <= Js.roundNat n)%Z.
Proof.
  intros Hn. unfold Js.roundNat.
  destruct (Z.ltb_spec n (2 ^ 53)) as [|_]; [lia|].
  assert (Hlog : (53 <= Z.log2 n)%Z).
  { change 53%Z with (Z.log2 (2 ^ 53)). by apply Z.log2_le_mono. }
  set (e := (Z.log2 n - 52)%Z). cbv zeta.
  set (q := Z.shiftr n e).
  assert (Hq : (2 ^ 52 <= q)%Z).
  { unfold q. rewrite Z.shiftr_div_pow2 by lia.
    apply Z.div_le_lower_bound; [apply Z.pow_pos_nonneg; lia|].
    rewrite Z.mul_comm, <- Z.pow_add_r by lia.
    replace (52 + e)%Z with (Z.log2 n) by lia.
    apply Z.log2_spec. lia. }
  match goal with
  | |- context [if ?b then (q + 1)%Z else q] => set (q' := if b then (q + 1)%Z else q)
  end.
  assert (Hq' : (q <= q')%Z) by (unfold q'; destruct (_ || _); lia).
  rewrite Z.shiftl_mul_pow2 by lia.
  assert (He : (2 ^ 1 <= 2 ^ e)%Z) by (apply Z.pow_le_mono_r; lia).
  change (2 ^ 53)%Z with (2 ^ 52 * 2 ^ 1)%Z.
  apply Z.mul_le_mono_nonneg; lia.
Qed.

Lemma toNumber_large (b z : Z) :
  (0 <= b <= 2 ^ 53)%Z -> (b <= z)%Z ->
  Js.toNumber z = Js.PosInfinity \/
  exists m, Js.toNumber z = Js.Int m /\ (b <= m)%Z.
Proof.
  intros Hb Hz. unfold Js.toNumber.
  destruct (Z.ltb_spec (Z.abs z) (2 ^ 53)) as [|Hge]; [right; by exists z|].
  assert (Habs : Z.abs z = z) by lia. rewrite Habs in *.
  pose proof (roundNat_lower z Hge) as Hr.
  destruct (Z.leb_spec (2 ^ 1024) (Js.roundNat z)).
  - destruct (Z.ltb_spec z 0); [lia | by left].
  - destruct (Z.ltb_spec z 0); [lia|]. right. eexists. split; [done | lia].
Qed.

(** The string form of an integer up to [2^53] in absolute value is its
    decimal numeral. *)
Lemma numberToString_exact (z : Z) :
  (Z.abs z <= 2 ^ 53)%Z -> Js.numberToString (Js.Int z) = decimalNumeral z.
Proof.
  intros Hz.
  assert (Hnat : forall w, (0 <= w <= 2 ^ 53)%Z -> Js.naturalToString w = Js.decimal w).
  { intros w Hw. unfold Js.naturalToString.
    destruct (Z.ltb_spec w (2 ^ 53)) as [|Hge]; [done|].
    assert (w = (2 ^ 53)%Z) as -> by lia. vm_compute. reflexivity. }
  unfold Js.numberToString. destruct (Z.ltb_spec z 0).
  - rewrite Hnat by lia. destruct z as [|p|p]; [lia | lia | reflexivity].
  - by rewrite Hnat by lia.
Qed.

(** The binding of a marker, by the range the number after its dollar
    sign falls in. *)
Lemma boundExpression_binding (argName : nat -> option Column -> string)
      (params : list QueryParameter) (m : RegExpMatch) :
  isArray params ->
  Forall (fun c => In c decimalDigits) (String.list_ascii_of_string (m_group m)) ->
  let k := decimalValue (m_group m) in
  ((1 <= k <= Z.of_nat (length params))%Z ->
   exists p, params !! Z.to_nat (k - 1) = Some p /\
             PostgresTagged.boundExpression argName params m
             = argsField (argName (Z.to_nat (k - 1)) (param_column p))) /\
  ((k < 1 \/ Z.of_nat (length params) < k)%Z ->
   exists t, PostgresTagged.boundExpression argName params m = argsField ("arg" +:+ t) /\
             ((k <= 2 ^ 53)%Z -> t = decimalNumeral (k - 1))).
Proof.
  intros Harr Hd k. unfold isArray in Harr.
  destruct (parseIntFrom_decimalValue _ Hd) as [Hparse Hk0]. fold k in Hparse, Hk0.
  unfold PostgresTagged.boundExpression, Js.parseInt. rewrite Hparse. split.
  - intros [Hlo Hhi]. rewrite (toNumber_exact k) by lia. unfold Js.sub.
    rewrite (toNumber_exact (k - 1)) by lia. unfold PostgresTagged.paramAt.
    destruct (Z.leb_spec 0 (k - 1)); [|lia].
    destruct (Z.ltb_spec (k - 1) (Z.of_nat (length params))); [|lia]. simpl andb.
    destruct (lookup_lt_is_Some_2 params (Z.to_nat (k - 1))) as [p Hp]; [lia|].
    exists p. by rewrite Hp.
  - intros Hout. destruct (Z.le_gt_cases k (2 ^ 53)) as [Hsmall|Hbig].
    + rewrite (toNumber_exact k) by lia. unfold Js.sub.
      rewrite (toNumber_exact (k - 1)) by lia.
      assert (Hnone : PostgresTagged.paramAt params (Js.Int (k - 1)) = None).
      { unfold PostgresTagged.paramAt.
        destruct (Z.leb_spec 0 (k - 1)); [|done].
        destruct (Z.ltb_spec (k - 1) (Z.of_nat (length params))); [lia | done]. }
      rewrite Hnone. eexists. split; [reflexivity|]. intros _.
      apply numberToString_exact. lia.
    + assert (Hnone : forall x,
                 x = Js.PosInfinity \/ (exists z, x = Js.Int z /\ (2 ^ 53 - 1 <= z)%Z) ->
                 PostgresTagged.paramAt params x = None).
      { intros x [->|(z & -> & Hz)]; [done|]. unfold PostgresTagged.paramAt.
        destruct (_ && _); [|done]. apply lookup_ge_None_2. lia. }
      rewrite Hnone; [eexists; split; [reflexivity | lia]|].
      destruct (toNumber_large (2 ^ 53) k) as [->|(z & -> & Hz)]; [lia | lia | by left|].
      unfold Js.sub. apply (toNumber_large (2 ^ 53 - 1)); lia.
Qed.

(** A marker far beyond [2^53]: the name shows the rounded number in
    exponent form. *)
Lemma boundExpression_of_huge_marker :
  PostgresTagged.boundExpression Utils.argName []
    (mkMatch 0 "$100000000000000000000000" "100000000000000000000000")
  = argsField "arg1e+23".
Proof. vm_compute. reflexivity. Qed.

(** The marker [$0]: index [-1], no parameter, the name [arg-1]. *)
Lemma boundExpression_of_marker_zero :
  PostgresTagged.boundExpression Utils.argName getAuthorParams (mkMatch 0 "$0" "0")
  = argsField "arg-1".
Proof. vm_compute. reflexivity. Qed.

(** The marker [$9007199254740993], that is [2^53 + 1]: [parseInt]
    gives [2^53], so the name is that of [2^53 - 1]. *)
Lemma boundExpression_of_rounded_marker :
  PostgresTagged.boundExpression Utils.argName getAuthorParams
    (mkMatch 0 "$9007199254740993" "9007199254740993")
  = argsField "arg9007199254740991".
Proof. vm_compute. reflexivity. Qed.

(** C4.  For every SQL text and parameter array the rewriter returns a
    tagged template on [sql] such that, for the markers of the text (a
    marker starts at every dollar sign directly followed by a decimal
    digit and runs over all the digits that follow; the text determines
    their list): there is one literal fragment more than markers and one bound expression per
    marker; the fragments with the markers put back between them give
    the text again; the expression bound at a marker [$k] with
    [1 <= k <= number of parameters] is
    [args.<argName(k-1, params[k-1].column)>]; at a marker whose number
    is out of range it is a synthetic [args.arg...], named
    [arg<k-1>] in decimal for [k] up to [2^53] ([arg-1] for [$0]),
    nothing fails; and a text that holds no marker gives a single
    literal fragment, the text, and no bound expression. *)
Theorem buildTaggedTemplate_spec
        (argName : nat -> option Column -> string)
        (queryText : string) (params : list QueryParameter) :
  isArray params ->
  exists template markers,
    PostgresTagged.buildTaggedTemplate argName queryText params
    = TaggedTemplateExpression (IdentifierExpr "sql") [] template /\
    markersOf queryText markers /\
    (forall ms, markersOf queryText ms -> ms = markers) /\
    length (fragments template) = S (length markers) /\
    length (boundExpressions template) = length markers /\
    reinsert (fragments template) (map m_whole markers) = queryText /\
    (forall i m,
       markers !! i = Some m ->
       let k := decimalValue (m_group m) in
       ((1 <= k <= Z.of_nat (length params))%Z ->
        exists p, params !! Z.to_nat (k - 1) = Some p /\
                  boundExpressions template !! i
                  = Some (argsField (argName (Z.to_nat (k - 1)) (param_column p)))) /\
       ((k < 1 \/ Z.of_nat (length params) < k)%Z ->
        exists t, boundExpressions template !! i = Some (argsField ("arg" +:+ t)) /\
                  ((k <= 2 ^ 53)%Z -> t = decimalNumeral (k - 1)))) /\
    ((forall i, ~ markerAt queryText i) ->
     template = NoSubstitutionTemplateLiteral queryText /\
     fragments template = [queryText] /\
     boundExpressions template = []).
Proof.
  intros Harr.
  destruct (buildTaggedTemplate_template argName queryText params)
    as (template & Hbuild & Hscan & Hnone).
  destruct (scanTemplate_spec argName queryText params) as (parts & Hparts & Hlen & Hre).
  rewrite Hparts in Hscan. injection Hscan as Hfrag Hexpr.
  pose proof (matchAll_markersOf queryText) as Hmarkers.
  exists template, (matchAll queryText). split; [done|].
  split; [done|].
  split; [intros ms Hms; by apply (markersOf_unique queryText)|].
  split; [by rewrite Hfrag|].
  split; [by rewrite Hexpr, length_map|]. split; [by rewrite Hfrag|]. split.
  - intros i m Hi. rewrite Hexpr, list_lookup_fmap, Hi. simpl.
    destruct Hmarkers as (Hall & _ & _).
    assert (Hm : markerOf queryText m).
    { eapply Forall_forall in Hall; [exact Hall|]. by eapply list_elem_of_lookup_2. }
    destruct Hm as (pre & post & _ & _ & _ & _ & Hdigits & _).
    destruct (boundExpression_binding argName params m Harr Hdigits) as [Hin Hout]. split.
    + intros Hk. destruct (Hin Hk) as (p & Hp & ->). eauto.
    + intros Hk. destruct (Hout Hk) as (t & -> & Ht). eauto.
  - intros Hno. apply matchAll_nil_iff in Hno.
    rewrite (Hnone Hno). done.
Qed.

Lemma buildTaggedTemplate_spec_witness :
  isArray getAuthorParams /\
  exists template,
    PostgresTagged.buildTaggedTemplate Utils.argName getAuthorText getAuthorParams
    = TaggedTemplateExpression (IdentifierExpr "sql") [] template /\
    reinsert (fragments template) ["$1"] = getAuthorText /\
    boundExpressions template !! 0 = Some (argsField "id").
Proof.
  assert (Harr : isArray getAuthorParams) by (unfold isArray; simpl; lia).
  split; [exact Harr|].
  destruct (buildTaggedTemplate_spec Utils.argName getAuthorText getAuthorParams Harr)
    as (template & markers & Hbuild & _ & Honly & _ & _ & Hre & Hbind & _).
  pose proof (Honly _ (matchAll_markersOf getAuthorText)) as Hmarkers.
  vm_compute in Hmarkers. subst markers.
  exists template. split; [exact Hbuild|]. split; [exact Hre|].
  destruct (Hbind 0 (mkMatch 33 "$1" "1") eq_refl) as [Hin _].
  destruct Hin as (p & Hp & Hb); [vm_compute; split; discriminate|].
  vm_compute in Hp. injection Hp as <-. exact Hb.
Defined.

(** ** Error propagation, in full *)

Lemma foldM_first_error {A S : Type} (f : S -> A -> result S)
      (l1 l2 : list A) (x : A) (e : exn) (s : S) :
  Forall (fun y => forall s, exists s', f s y = Ok s') l1 ->
  (forall s, f s x = Throw e) ->
  App.foldM f (l1 ++ x :: l2) s = Throw e.
Proof.
  intros Hok Hx. revert s. induction Hok as [|y l1 Hy _ IH]; intros s; simpl.
  - by rewrite Hx.
  - destruct (Hy s) as [s' ->]. simpl. apply IH.
Qed.

Lemma app_split_at {A : Type} (qs r l1 l2 : list A) (x : A) :
  qs ++ r = l1 ++ x :: l2 ->
  (exists b, qs = l1 ++ x :: b) \/ (exists l1', l1 = qs ++ l1' /\ r = l1' ++ x :: l2).
Proof.
  revert l1. induction qs as [|y qs IH]; intros l1 Heq.
  - right. by exists l1.
  - destruct l1 as [|z l1]; simpl in Heq; injection Heq as -> Heq.
    + left. by exists qs.
    + destruct (IH l1 Heq) as [[b ->]|(l1' & -> & ->)].
      * left. by exists b.
      * right. by exists l1'.
Qed.

Section Stateless.

Variables argName colName : nat -> option Column -> string.
Variable printer : Node -> string.
Variable enumMap : gmap string Enum.

(** Whether and with what error the emission of a query raises does not
    depend on what was emitted before it. *)
Lemma emitArgs_stateless (filename : string) (q : Query) (st st' : App.EmitState) :
  match App.emitArgs argName enumMap filename q st with
  | Ok (iface, _) =>
      exists st1, App.emitArgs argName enumMap filename q st' = Ok (iface, st1)
  | Throw e => App.emitArgs argName enumMap filename q st' = Throw e
  end.
Proof.
  unfold App.emitArgs. destruct (0 <? _)%nat; [|eauto].
  destruct (assertUniqueNames _) as [[]|e]; simpl; [|done].
  destruct (App.members _ _ _) as [ms|e]; simpl; eauto.
Qed.

Lemma emitRow_stateless (filename : string) (q : Query) (st st' : App.EmitState) :
  match App.emitRow colName enumMap filename q st with
  | Ok (iface, _) =>
      exists st1, App.emitRow colName enumMap filename q st' = Ok (iface, st1)
  | Throw e => App.emitRow colName enumMap filename q st' = Throw e
  end.
Proof.
  unfold App.emitRow. destruct (0 <? _)%nat; [|eauto].
  destruct (assertUniqueNames _) as [[]|e]; simpl; [|done].
  destruct (App.members _ _ _) as [ms|e]; simpl; eauto.
Qed.

Lemma emitFunction_stateless (lowerName : string) (argIface returnIface : option string)
      (q : Query) (st st' : App.EmitState) (e : exn) :
  App.emitFunction argName lowerName argIface returnIface q st = Throw e ->
  App.emitFunction argName lowerName argIface returnIface q st' = Throw e.
Proof.
  unfold App.emitFunction.
  destruct (String.eqb (q_cmd q) ":exec"); [done|].
  destruct (String.eqb (q_cmd q) ":execlastid"); [done|].
  destruct (String.eqb (q_cmd q) ":one"); [done|].
  destruct (String.eqb (q_cmd q) ":many"); done.
Qed.

Lemma emitQuery_stateless (filename : string) (q : Query) (st st' : App.EmitState)
      (e : exn) :
  App.emitQuery argName colName enumMap filename st q = Throw e ->
  App.emitQuery argName colName enumMap filename st' q = Throw e.
Proof.
  unfold App.emitQuery. destruct (App.lowerFirst (q_name q)) as [lowerName|e0]; simpl; [|done].
  pose proof (emitArgs_stateless filename q st st') as Ha.
  destruct (App.emitArgs argName enumMap filename q st) as [[argIface st1]|e1]; simpl.
  - destruct Ha as [st1' ->]. simpl.
    pose proof (emitRow_stateless filename q st1 st1') as Hr.
    destruct (App.emitRow colName enumMap filename q st1) as [[returnIface st2]|e2]; simpl.
    + destruct Hr as [st2' ->]. simpl. apply emitFunction_stateless.
    + rewrite Hr. done.
  - rewrite Ha. done.
Qed.

End Stateless.

Section FirstError.

Variables argName colName : nat -> option Column -> string.
Variable printer : Node -> string.
Variable enumMap : gmap string Enum.

(** The loop over the files raises the error of the first query, in
    emission order, whose emission raises. *)
Lemma emitFiles_first_error (groups : list (string * list Query)) :
  forall (acc : list File * list string) (l1 l2 : list Query) (q : Query) (e : exn),
    (forall fn qs q', In (fn, qs) groups -> In q' qs -> q_filename q' = fn) ->
    flat_map snd groups = l1 ++ q :: l2 ->
    Forall (accepted argName colName enumMap) l1 ->
    (forall st, App.emitQuery argName colName enumMap (q_filename q) st q = Throw e) ->
    App.foldM (App.emitFile argName colName printer enumMap) groups acc = Throw e.
Proof.
  induction groups as [|[fn qs] groups IH]; intros acc l1 l2 q e Hfn Hflat Hok Hq.
  - simpl in Hflat. by destruct l1.
  - simpl in Hflat. apply app_split_at in Hflat as [[b ->]|(l1' & -> & Hrest)].
    + assert (q_filename q = fn) as <-.
      { apply (Hfn fn (l1 ++ q :: b)); [by left | apply in_elt]. }
      destruct acc as [files used]. simpl. unfold App.fileNodes.
      rewrite (foldM_first_error _ l1 b q e); [done| |done].
      eapply Forall_impl; [exact Hok|]. intros q' Hacc st.
      by apply emitQuery_Ok_iff.
    + apply Forall_app in Hok as [Hqs Hl1'].
      cbn [App.foldM].
      destruct (proj2 (emitFile_Ok_iff argName colName printer enumMap acc (fn, qs)) Hqs)
        as [acc' ->].
      simpl. eapply IH; eauto. intros fn' qs' q' Hin. apply Hfn. by right.
Qed.

End FirstError.

Lemma groupQueries_flat (queries : list Query) :
  flat_map snd (App.groupQueries queries) = emissionOrder queries.
Proof.
  unfold emissionOrder. rewrite <- groupQueries_keys.
  assert (Hent : forall fn qs, In (fn, qs) (App.groupQueries queries) ->
                               qs = queriesOf fn queries).
  { intros fn qs Hin. by apply groupQueries_entry in Hin as [-> _]. }
  induction (App.groupQueries queries) as [|[fn qs] groups IH]; [done|].
  simpl. rewrite IH by (intros; apply Hent; by right).
  by rewrite (Hent fn qs) by (by left).
Qed.

Lemma groupQueries_own_file (queries : list Query) (fn : string) (qs : list Query)
      (q : Query) :
  In (fn, qs) (App.groupQueries queries) -> In q qs -> q_filename q = fn.
Proof.
  intros [-> _]%groupQueries_entry Hq. unfold queriesOf in Hq.
  apply List.filter_In in Hq as [_ Hq]. by apply String.eqb_eq in Hq.
Qed.

Lemma codegen_first_error
      (argName colName : nat -> option Column -> string) (printer : Node -> string)
      (input : GenerateRequest) (l1 l2 : list Query) (q : Query) (e : exn)
      (st : App.EmitState) :
  emissionOrder (req_queries input) = l1 ++ q :: l2 ->
  Forall (fun q' => exists st1 st2,
              App.emitQuery argName colName (App.buildEnumMap input) (q_filename q') st1 q'
              = Ok st2) l1 ->
  App.emitQuery argName colName (App.buildEnumMap input) (q_filename q) st q = Throw e ->
  App.codegen argName colName printer input = Throw e.
Proof.
  intros Horder Hok Hq. unfold App.codegen.
  rewrite (emitFiles_first_error argName colName printer (App.buildEnumMap input)
             (App.groupQueries (req_queries input)) ([], []) l1 l2 q e); [done| | | |].
  - apply groupQueries_own_file.
  - by rewrite groupQueries_flat.
  - eapply Forall_impl; [exact Hok|]. intros q' (st1 & st2 & H).
    apply (emitQuery_Ok_iff argName colName (App.buildEnumMap input) (q_filename q') q' st1).
    eauto.
  - intros st'. by apply (emitQuery_stateless _ _ _ _ _ st).
Qed.

Lemma emissionOrder_In (queries : list Query) (q : Query) :
  In q (emissionOrder queries) <-> In q queries.
Proof.
  unfold emissionOrder. rewrite in_flat_map. split.
  - intros (fn & _ & Hq). unfold queriesOf in Hq. by apply List.filter_In in Hq as [? _].
  - intros Hq. exists (q_filename q). split.
    + apply firstSeen_In, in_map_iff. eauto.
    + unfold queriesOf. apply List.filter_In. split; [done | apply String.eqb_refl].
Qed.

Lemma codegen_Ok_of_accepted
      (argName colName : nat -> option Column -> string) (printer : Node -> string)
      (input : GenerateRequest) :
  Forall (accepted argName colName (App.buildEnumMap input)) (req_queries input) ->
  exists files, App.codegen argName colName printer input = Ok files.
Proof.
  intros Hall. unfold App.codegen.
  assert (Hrun : exists acc, App.foldM (App.emitFile argName colName printer
                                         (App.buildEnumMap input))
                              (App.groupQueries (req_queries input)) ([], []) = Ok acc).
  { apply (foldM_Ok_iff _ (fun entry => Forall (accepted argName colName
                                                  (App.buildEnumMap input)) (snd entry)));
      [intros; apply emitFile_Ok_iff|].
    apply Forall_forall. intros [filename qs] [-> _]%list_elem_of_In%groupQueries_entry.
    simpl. apply Forall_forall. intros q Hq%list_elem_of_In.
    rewrite Forall_forall in Hall. apply Hall, list_elem_of_In.
    unfold queriesOf in Hq. by apply List.filter_In in Hq as [Hq _]. }
  destruct Hrun as [[files used] ->]. simpl. eauto.
Qed.

(** Either every query of a list is emitted, or there is a first one
    whose emission raises. *)
Lemma first_rejected
      (argName colName : nat -> option Column -> string) (enumMap : gmap string Enum)
      (l : list Query) :
  Forall (accepted argName colName enumMap) l \/
  exists l1 q l2 e,
    l = l1 ++ q :: l2 /\
    Forall (accepted argName colName enumMap) l1 /\
    forall st, App.emitQuery argName colName enumMap (q_filename q) st q = Throw e.
Proof.
  induction l as [|q l IH]; [by left|].
  destruct (App.emitQuery argName colName enumMap (q_filename q)
              (App.mkState [] [] []) q) as [st'|e] eqn:Hq.
  - assert (Hacc : accepted argName colName enumMap q).
    { apply (emitQuery_Ok_iff argName colName enumMap (q_filename q) q
               (App.mkState [] [] [])). eauto. }
    destruct IH as [Hall|(l1 & q' & l2 & e & -> & Hok & Hq')].
    + left. by constructor.
    + right. exists (q :: l1), q', l2, e. split; [done|]. split; [by constructor | done].
  - right. exists [], q, l, e. split; [done|]. split; [constructor|].
    intros st. by apply (emitQuery_stateless _ _ _ _ _ (App.mkState [] [] [])).
Qed.

(** A run on a query with a geometric column and an unknown one: the
    error is that of the geometric column, the first one rejected, inside
    the message that names the query and its file. *)
Lemma codegen_wraps_first_rejected_column :
  App.codegen Utils.argName Utils.colName samplePrinter (requestOf [findPlaces])
  = Throw (JsError ("Error in query " +:+ Js.dquote +:+ "FindPlaces" +:+ Js.dquote +:+
                    " (places.sql): Unrecognized PostgreSQL type: " +:+
                    Js.dquote +:+ "polygon" +:+ Js.dquote +:+
                    ". Please add support for this type in " +:+
                    "sqlc-gen-typescript/src/drivers/postgres.ts")).
Proof. vm_compute. reflexivity. Qed.

(** Errors come in emission order, not in request order: [findPlaces]
    stands before [insertAuthorId] in the request, but the file of
    [insertAuthorId] was seen first. *)
Lemma codegen_first_error_by_file :
  App.codegen Utils.argName Utils.colName samplePrinter
    (requestOf [deleteAuthor; findPlaces; insertAuthorId])
  = Throw (JsError "postgres driver does not support :execlastid").
Proof. vm_compute. reflexivity. Qed.

(** C9 (amended).  For every query of the request: an unclassified-type
    error raised while building its argument or result interface is the
    error of the first rejected column, re-raised as an [Error] whose
    message is [Error in query "<name>" (<filename>): <message of the
    column's error>]; the unsupported-operation error of [:execlastid]
    and the ambiguous-name errors, of the arguments and of the columns,
    are raised as they are, unwrapped.  No error is suppressed: the run
    raises exactly the error of the first query, in emission order,
    whose emission raises, so whenever the emission of a query raises
    the run raises and returns no file; and a run raises nothing else. *)
Theorem codegen_error_propagation
        (argName colName : nat -> option Column -> string) (printer : Node -> string)
        (input : GenerateRequest) (q : Query) :
  In q (req_queries input) ->
  let enumMap := App.buildEnumMap input in
  let emit := App.emitQuery argName colName enumMap (q_filename q) in
  let wrapped (e0 : exn) :=
    JsError ("Error in query " +:+ Js.dquote +:+ q_name q +:+ Js.dquote +:+
             " (" +:+ q_filename q +:+ "): " +:+ exnMessage e0) in
  (forall st lowerName ps1 p ps2 e0,
     App.lowerFirst (q_name q) = Ok lowerName ->
     assertUniqueNames
       (mkOptions ArgumentKind (q_name q) (q_filename q)
          (mapi (fun i param => argName i (param_column param)) (q_params q))) = Ok tt ->
     q_params q = ps1 ++ p :: ps2 ->
     Forall (fun p' => exists t,
                 PostgresTagged.columnType enumMap (param_column p') = Ok t) ps1 ->
     PostgresTagged.columnType enumMap (param_column p) = Throw e0 ->
     emit st q = Throw (wrapped e0)) /\
  (forall st lowerName argIface st1 cs1 c cs2 e0,
     App.lowerFirst (q_name q) = Ok lowerName ->
     App.emitArgs argName enumMap (q_filename q) q st = Ok (argIface, st1) ->
     assertUniqueNames
       (mkOptions ColumnKind (q_name q) (q_filename q)
          (mapi (fun i column => colName i (Some column)) (q_columns q))) = Ok tt ->
     q_columns q = cs1 ++ c :: cs2 ->
     Forall (fun c' => exists t,
                 PostgresTagged.columnType enumMap (Some c') = Ok t) cs1 ->
     PostgresTagged.columnType enumMap (Some c) = Throw e0 ->
     emit st q = Throw (wrapped e0)) /\
  (forall st lowerName argIface st1 returnIface st2,
     App.lowerFirst (q_name q) = Ok lowerName ->
     App.emitArgs argName enumMap (q_filename q) q st = Ok (argIface, st1) ->
     App.emitRow colName enumMap (q_filename q) q st1 = Ok (returnIface, st2) ->
     q_cmd q = ":execlastid" ->
     emit st q = Throw (JsError "postgres driver does not support :execlastid")) /\
  (forall st lowerName e,
     App.lowerFirst (q_name q) = Ok lowerName ->
     q_params q <> [] ->
     assertUniqueNames
       (mkOptions ArgumentKind (q_name q) (q_filename q)
          (mapi (fun i param => argName i (param_column param)) (q_params q))) = Throw e ->
     emit st q = Throw e) /\
  (forall st lowerName argIface st1 e,
     App.lowerFirst (q_name q) = Ok lowerName ->
     App.emitArgs argName enumMap (q_filename q) q st = Ok (argIface, st1) ->
     q_columns q <> [] ->
     assertUniqueNames
       (mkOptions ColumnKind (q_name q) (q_filename q)
          (mapi (fun i column => colName i (Some column)) (q_columns q))) = Throw e ->
     emit st q = Throw e) /\
  (forall st l1 l2 e,
     emissionOrder (req_queries input) = l1 ++ q :: l2 ->
     Forall (fun q' => exists st1 st2,
                 App.emitQuery argName colName enumMap (q_filename q') st1 q' = Ok st2) l1 ->
     emit st q = Throw e ->
     App.codegen argName colName printer input = Throw e) /\
  ((exists st e, emit st q = Throw e) ->
   exists e, App.codegen argName colName printer input = Throw e) /\
  (forall e,
     App.codegen argName colName printer input = Throw e ->
     exists l1 q' l2,
       emissionOrder (req_queries input) = l1 ++ q' :: l2 /\
       Forall (fun q'' => forall st, exists st',
                   App.emitQuery argName colName enumMap (q_filename q'') st q'' = Ok st') l1 /\
       forall st, App.emitQuery argName colName enumMap (q_filename q') st q' = Throw e).
Proof.
  intros Hin enumMap emit wrapped. subst emit wrapped.
  split; [|split; [|split; [|split; [|split; [|split; [|split]]]]]].
  - intros st lowerName ps1 p ps2 e0 Hl Hu Hps Hok He.
    unfold App.emitQuery. rewrite Hl. simpl. unfold App.emitArgs.
    replace (0 <? length (q_params q))%nat with true
      by (rewrite Hps, length_app; simpl; symmetry; apply Nat.ltb_lt; lia).
    rewrite Hu. simpl. rewrite Hps, map_app. simpl.
    rewrite (members_first_error enumMap argName _ _ _ e0); [done| |done].
    apply Forall_map. done.
  - intros st lowerName argIface st1 cs1 c cs2 e0 Hl Ha Hu Hcs Hok He.
    unfold App.emitQuery. rewrite Hl. simpl. rewrite Ha. simpl. unfold App.emitRow.
    replace (0 <? length (q_columns q))%nat with true
      by (rewrite Hcs, length_app; simpl; symmetry; apply Nat.ltb_lt; lia).
    rewrite Hu. simpl. rewrite Hcs, map_app. simpl.
    rewrite (members_first_error enumMap colName _ _ _ e0); [done| |done].
    apply Forall_map. done.
  - intros st lowerName argIface st1 returnIface st2 Hl Ha Hr Hc.
    unfold App.emitQuery. rewrite Hl. simpl. rewrite Ha. simpl. rewrite Hr. simpl.
    unfold App.emitFunction. rewrite Hc. done.
  - intros st lowerName e Hl Hps Hu.
    unfold App.emitQuery. rewrite Hl. simpl. unfold App.emitArgs.
    replace (0 <? length (q_params q))%nat with true
      by (destruct (q_params q); done).
    by rewrite Hu.
  - intros st lowerName argIface st1 e Hl Ha Hcs Hu.
    unfold App.emitQuery. rewrite Hl. simpl. rewrite Ha. simpl. unfold App.emitRow.
    replace (0 <? length (q_columns q))%nat with true
      by (destruct (q_columns q); done).
    by rewrite Hu.
  - intros st l1 l2 e Horder Hok He.
    by apply (codegen_first_error argName colName printer input l1 l2 q e st).
  - intros (st & e & He).
    apply (codegen_aborts argName colName printer input q Hin).
    intros st'. exists e. by apply (emitQuery_stateless _ _ _ _ _ st).
  - intros e Hrun.
    destruct (first_rejected argName colName enumMap (emissionOrder (req_queries input)))
      as [Hall|(l1 & q' & l2 & e' & Horder & Hok & Hq')].
    + destruct (codegen_Ok_of_accepted argName colName printer input) as [files Hfiles].
      * apply List.Forall_forall. intros q' Hq'%emissionOrder_In.
        rewrite List.Forall_forall in Hall. by apply Hall.
      * rewrite Hfiles in Hrun. done.
    + exists l1, q', l2. split; [done|].
      assert (Hl1 : Forall (fun q'' => forall st, exists st',
                       App.emitQuery argName colName enumMap (q_filename q'') st q''
                       = Ok st') l1).
      { eapply Forall_impl; [exact Hok|]. intros q'' Hacc st.
        by apply emitQuery_Ok_iff. }
      split; [exact Hl1|].
      assert (He : App.codegen argName colName printer input = Throw e').
      { apply (codegen_first_error argName colName printer input l1 l2 q' e'
                 (App.mkState [] [] [])); [done| |apply Hq'].
        eapply Forall_impl; [exact Hl1|]. intros q'' H.
        destruct (H (App.mkState [] [] [])) as [st' Hst'].
        by exists (App.mkState [] [] []), st'. }
      rewrite He in Hrun. injection Hrun as <-. exact Hq'.
Qed.

Lemma codegen_error_propagation_witness :
  App.codegen Utils.argName Utils.colName samplePrinter
    (requestOf [deleteAuthor; insertAuthorId])
  = Throw (JsError "postgres driver does not support :execlastid").
Proof.
  destruct (codegen_error_propagation Utils.argName Utils.colName samplePrinter
              (requestOf [deleteAuthor; insertAuthorId]) insertAuthorId
              (or_intror (or_introl eq_refl)))
    as (_ & _ & Hlast & _ & _ & Hfirst & _).
  apply (Hfirst (App.mkState [] [] []) [deleteAuthor] []).
  - vm_compute. reflexivity.
  - constructor; [|constructor]. exists (App.mkState [] [] []).
    vm_compute. eexists. reflexivity.
  - apply (Hlast (App.mkState [] [] []) "insertAuthorId" None (App.mkState [] [] [])
             None (App.mkState [] [] [])); reflexivity.
Defined.

(** X12.  The rewriter builds a well-formed template: for a text that
    holds no marker (no dollar sign directly followed by a decimal
    digit) it is the no-substitution literal of the whole text;
    otherwise it is a template expression with one span per marker of
    the text, every span but the last ending in a middle literal and
    the last in the tail literal. *)
Theorem buildTaggedTemplate_well_formed
        (argName : nat -> option Column -> string)
        (queryText : string) (params : list QueryParameter) :
  ((forall i, ~ markerAt queryText i) /\
   PostgresTagged.buildTaggedTemplate argName queryText params
   = TaggedTemplateExpression (IdentifierExpr "sql") []
       (NoSubstitutionTemplateLiteral queryText)) \/
  ((exists i, markerAt queryText i) /\
   exists markers head spans,
     markersOf queryText markers /\
     PostgresTagged.buildTaggedTemplate argName queryText params
     = TaggedTemplateExpression (IdentifierExpr "sql") [] (TemplateExpression head spans) /\
     length spans = length markers /\
     wellFormedSpans spans).
Proof.
  pose proof (matchAll_markersOf queryText) as Hmarkers.
  destruct (buildTaggedTemplate_shape argName queryText params)
    as [[Hnil Hbuild]|(Hne & head & spans & Hbuild & Hlen & Hwf)].
  - left. split; [by apply matchAll_nil_iff | exact Hbuild].
  - right. split.
    + destruct (matchAll queryText) as [|m ms] eqn:Hm; [done|].
      exists (m_index m). destruct Hmarkers as (_ & _ & Hiff). apply Hiff. by left.
    + exists (matchAll queryText), head, spans. done.
Qed.


